(** * Classical quantum-dot simulator: [qtt/simulation/classicaldotsystem.py]

    A shallow embedding of [ncr] and of the class [ClassicalDotSystem]
    ([__init__], [makebasis], [calculate_energies], [calculate_ground_state],
    [simulate_honeycomb]) with the presets [DoubleDot] and [TripleDot], and
    of [point_in_poly], [points_in_poly] and [polyval2d] of
    [qtt/algorithms/misc.py].

    Conventions of the embedding.
    - Python integers are [Z]; the three dimensions [ndots], [ngates] and
      [maxelectrons] are [nat] (they size arrays and ranges).
    - A numpy [float64] is an IEEE 754 binary64 number, [spec_float] with
      precision 53 and maximal exponent 1024: every sum, product and
      quotient is rounded to nearest, ties to even, overflows to an
      infinity, and a NaN is a value.  Integer arrays hold [Z].
    - A 1-D array is a list, a 2-D array the list of its rows.
    - A Python exception is the left injection of a sum; a method of the
      class is a state transformer over the attributes of [self]. *)

From Stdlib Require Import String DecimalString.
From Stdlib Require Import ZArith QArith List Lia Bool Arith.
From Stdlib Require Import Sorted Permutation.
From Stdlib Require Import Floats.SpecFloat.
Import ListNotations.

Open Scope Z_scope.

(** ** [float64] *)

Definition float64 : Type := spec_float.

Definition f64_add : float64 -> float64 -> float64 := SFadd 53 1024.
Definition f64_sub : float64 -> float64 -> float64 := SFsub 53 1024.
Definition f64_mul : float64 -> float64 -> float64 := SFmul 53 1024.
Definition f64_div : float64 -> float64 -> float64 := SFdiv 53 1024.
Definition f64_neg : float64 -> float64 := SFopp.

(** The comparisons [<], [<=] and [==]: all three are false when an
    operand is a NaN, and the two zeros are equal. *)
Definition f64_lt : float64 -> float64 -> bool := SFltb.
Definition f64_le : float64 -> float64 -> bool := SFleb.
Definition f64_eq : float64 -> float64 -> bool := SFeqb.

Definition is_nan (x : float64) : bool :=
  match x with
  | S754_nan => true
  | _ => false
  end.

(** Neither an infinity nor a NaN. *)
Definition is_finite (x : float64) : bool :=
  match x with
  | S754_zero _ | S754_finite _ _ _ => true
  | _ => false
  end.

(** The positive zero, [0.0]. *)
Definition f64_zero : float64 := S754_zero false.

(** Conversion of an integer to [float64], rounded to nearest. *)
Definition f64_of_Z (z : Z) : float64 := binary_normalize 53 1024 z 0 false.

(** The decimal literal [m / 10^k] (as [52.8] is [528 / 10]): the nearest
    [float64].  Both integers are below [2^53], so they convert exactly and
    their correctly rounded quotient is that nearest number. *)
Definition f64_of_decimal (m : Z) (k : nat) : float64 :=
  f64_div (f64_of_Z m) (f64_of_Z (10 ^ Z.of_nat k)).

(** The rational a finite [float64] stands for (0 for the others). *)
Definition f64_to_Q (x : float64) : Q :=
  match x with
  | S754_finite s m e =>
      ((if s then -1 else 1) * inject_Z (Z.pos m) * Qpower 2 e)%Q
  | _ => 0%Q
  end.

(** The rank of a number in the order of the comparisons: a triple of
    integers, compared lexicographically. *)
Definition f64_rank (x : float64) : Z * Z * Z :=
  match x with
  | S754_nan => (0, 0, 0)
  | S754_zero _ => (0, 0, 0)
  | S754_infinity false => (2, 0, 0)
  | S754_infinity true => (-2, 0, 0)
  | S754_finite false m e => (1, e, Z.pos m)
  | S754_finite true m e => (-1, - e, - Z.pos m)
  end.

Definition lex3 (p q : Z * Z * Z) : comparison :=
  match fst (fst p) ?= fst (fst q) with
  | Eq => match snd (fst p) ?= snd (fst q) with
          | Eq => snd p ?= snd q
          | c => c
          end
  | c => c
  end.

(** ** Exceptions and results *)

Inductive exn : Type :=
| TypeError
| ValueError
| IndexError
| AttributeError.

Definition result (A : Type) : Type := (exn + A)%type.

Definition rbind {A B : Type} (r : result A) (k : A -> result B) : result B :=
  match r with
  | inl e => inl e
  | inr a => k a
  end.

Notation "x <-- r ;; k" := (rbind r (fun x => k))
  (at level 61, r at next level, right associativity).

(** ** The Python built-ins the module uses *)

(** [range(start, stop, step)].  Every call site passes the literal step
    [1] or [-1]; a zero step (a [ValueError] in Python) yields no element. *)
Definition py_range (start stop step : Z) : list Z :=
  let len :=
    if 0 <? step then (stop - start + step - 1) / step
    else if step <? 0 then (start - stop - step - 1) / (- step)
    else 0 in
  map (fun k => start + Z.of_nat k * step) (seq 0 (Z.to_nat len)).

(** [functools.reduce(f, xs)] without an initial value: a [TypeError] on an
    empty sequence, a left fold seeded with the first element otherwise. *)
Definition reduce {A : Type} (f : A -> A -> A) (xs : list A) : result A :=
  match xs with
  | [] => inl TypeError
  | x :: t => inr (fold_left f t x)
  end.

(** ** [ncr] *)

(** The two factor lists [ncr] multiplies, after [r = min(r, n - r)]. *)
Definition ncr_factors (n r : Z) : list Z * list Z :=
  let r := Z.min r (n - r) in
  (py_range n (n - r) (-1), py_range 1 (r + 1) 1).

Definition ncr (n r : Z) : result Z :=
  let r' := Z.min r (n - r) in
  if r' =? 0 then inr 1
  else
    numer <-- reduce Z.mul (fst (ncr_factors n r)) ;;
    denom <-- reduce Z.mul (snd (ncr_factors n r)) ;;
    inr (numer / denom).

(** The binomial coefficient, by Pascal's rule. *)
Fixpoint binom (n r : nat) : nat :=
  match n, r with
  | _, O => 1
  | O, S _ => 0
  | S n', S r' => binom n' r' + binom n' (S r')
  end%nat.

(** Falling factorial [n (n-1) ... (n-r+1)]. *)
Fixpoint falling (n r : nat) : nat :=
  match r with
  | O => 1
  | S r' => n * falling (n - 1) r'
  end%nat.

Definition lprod (l : list Z) : Z := fold_right Z.mul 1 l.

(** Python's built-in [sum] over a tuple of integers. *)
Definition py_sum (xs : list Z) : Z := fold_left Z.add xs 0.

(** [itertools.product(xs, repeat=n)]: the rightmost position advances
    fastest. *)
Fixpoint product {A : Type} (xs : list A) (n : nat) : list (list A) :=
  match n with
  | O => [[]]
  | S n' => flat_map (fun x => map (cons x) (product xs n')) xs
  end.

(** [itertools.combinations(xs, r)]: the [r]-element subsequences of [xs], in
    lexicographic order of their positions. *)
Fixpoint combinations {A : Type} (xs : list A) (r : nat) : list (list A) :=
  match r with
  | O => [[]]
  | S r' =>
      match xs with
      | [] => []
      | x :: t => map (cons x) (combinations t r') ++ combinations t r
      end
  end.

(** [sorted(xs, key=key)].  Python's sort is stable, and the outcome of a
    stable sort is determined by its input, so a stable insertion sort stands
    for it: an element is placed before the elements to its right whose key
    is not smaller. *)
Fixpoint insert_by {A : Type} (key : A -> Z) (x : A) (l : list A) : list A :=
  match l with
  | [] => [x]
  | y :: t => if key x <=? key y then x :: y :: t else y :: insert_by key x t
  end.

Definition sorted {A : Type} (key : A -> Z) (l : list A) : list A :=
  fold_right (insert_by key) [] l.

(** Subscripting a sequence, [xs[i]] with [0 <= i]. *)
Definition getitem {A : Type} (xs : list A) (i : nat) : result A :=
  match nth_error xs i with
  | Some x => inr x
  | None => inl IndexError
  end.

Fixpoint list_set {A : Type} (l : list A) (i : nat) (v : A) : list A :=
  match l, i with
  | [], _ => []
  | _ :: t, O => v :: t
  | x :: t, S i' => x :: list_set t i' v
  end.

(** [xs[i] = v] on a 1-D array. *)
Definition setitem {A : Type} (xs : list A) (i : nat) (v : A) : result (list A) :=
  if (i <? length xs)%nat then inr (list_set xs i v) else inl IndexError.

(** ** The numpy operations the module uses *)

(** numpy broadcasts a 1-D value into a 1-D slot of length [n] when the
    lengths agree or the value has exactly one element. *)
Definition broadcast_to {A : Type} (n : nat) (v : list A) : result (list A) :=
  if (length v =? n)%nat then inr v
  else match v with
       | [x] => inr (repeat x n)
       | _ => inl ValueError
       end.

(** [a[i] = v] on a 2-D array [a], [v] one-dimensional; [cast] is the
    conversion to the element type of [a]. *)
Definition setrow {A B : Type} (cast : B -> A)
    (a : list (list A)) (i : nat) (v : list B) : result (list (list A)) :=
  old <-- getitem a i ;;
  v' <-- broadcast_to (length old) v ;;
  inr (list_set a i (map cast v')).

(** Conversion of a float to an integer element: truncation toward zero.
    The floats converted are the halves [n (n + 1) / 2] of [makebasis],
    which [float64] holds exactly for every occupancy a basis can list
    (they stay below [2^53]); the exact rational stands for them. *)
Definition astype_int (q : Q) : Z := Z.quot (Qnum q) (Z.pos (Qden q)).

(** The running sum of products [np.dot] computes on two 1-D [float64]
    arrays: from [0.0], left to right, every product and every sum
    rounded. *)
Definition dot_acc (a b : list float64) : float64 :=
  fold_left (fun acc xy => f64_add acc (f64_mul (fst xy) (snd xy)))
            (combine a b) f64_zero.

(** [np.dot] of two 1-D arrays: a [ValueError] when the lengths differ. *)
Definition np_dot (a b : list float64) : result float64 :=
  if (length a =? length b)%nat then inr (dot_acc a b) else inl ValueError.

Fixpoint mapM {A B : Type} (f : A -> result B) (l : list A) : result (list B) :=
  match l with
  | [] => inr []
  | x :: t => y <-- f x ;; ys <-- mapM f t ;; inr (y :: ys)
  end.

(** [np.dot] of a 2-D array (its rows) with a 1-D array.  The column count
    of an array without rows is not represented. *)
Definition np_dot_mv (a : list (list float64)) (v : list float64) : result (list float64) :=
  mapM (fun row => np_dot row v) a.

(** [a + b] on 1-D arrays, with broadcasting of a one-element operand. *)
Definition np_add (a b : list float64) : result (list float64) :=
  if (length a =? length b)%nat
  then inr (map (fun xy => f64_add (fst xy) (snd xy)) (combine a b))
  else match a, b with
       | [x], _ => inr (map (fun y => f64_add x y) b)
       | _, [y] => inr (map (fun x => f64_add x y) a)
       | _, _ => inl ValueError
       end.

Definition np_neg (a : list float64) : list float64 := map f64_neg a.

(** [np.argmin] of a 1-D [float64] array; a [ValueError] on an empty array.
    The scan keeps (best index, best value, next index): an entry replaces
    the best unless [entry >= best] holds, so a NaN always does, and once
    the best is a NaN the scan is over. *)
Definition argmin_step (st : nat * float64 * nat) (y : float64) : nat * float64 * nat :=
  match st with
  | (bi, bv, i) =>
      if is_nan bv then (bi, bv, S i)
      else if f64_le bv y then (bi, bv, S i)
      else (i, y, S i)
  end.

Definition argmin (xs : list float64) : result nat :=
  match xs with
  | [] => inl ValueError
  | x :: t => inr (fst (fst (fold_left argmin_step t (0%nat, x, 1%nat))))
  end.

(** An n-dimensional array with its element type, shape and row-major data. *)
Inductive array : Type :=
| FloatArray (shape : list nat) (data : list float64)
| IntArray (shape : list nat) (data : list Z).

Definition array_shape (a : array) : list nat :=
  match a with FloatArray s _ | IntArray s _ => s end.

(** The entries of an array as numbers, whatever the element type. *)
Definition array_values (a : array) : list float64 :=
  match a with
  | FloatArray _ d => d
  | IntArray _ d => map f64_of_Z d
  end.

(** [np.empty(shape)]: a float array; its contents are unspecified and
    are taken to be zeros. *)
Definition np_empty (shape : list nat) : array :=
  FloatArray shape (repeat f64_zero (fold_right Nat.mul 1%nat shape)).

(** [a[i, j] = v] on a 3-D array, [v] a 1-D integer array. *)
Definition setitem_ij (a : array) (i j : nat) (v : list Z) : result array :=
  match a with
  | FloatArray [nx; ny; nd] d =>
      if ((i <? nx) && (j <? ny))%nat then
        v' <-- broadcast_to nd v ;;
        let off := ((i * ny + j) * nd)%nat in
        inr (FloatArray [nx; ny; nd]
               (firstn off d ++ map f64_of_Z v' ++ skipn (off + nd) d))
      else inl IndexError
  | IntArray [nx; ny; nd] d =>
      if ((i <? nx) && (j <? ny))%nat then
        v' <-- broadcast_to nd v ;;
        let off := ((i * ny + j) * nd)%nat in
        inr (IntArray [nx; ny; nd] (firstn off d ++ v' ++ skipn (off + nd) d))
      else inl IndexError
  | _ => inl IndexError
  end.

(** [np.array(rows)] for a list of 1-D integer arrays: an empty list gives
    an empty float array, rows of one length an integer 2-D array. *)
Definition np_array (rows : list (list Z)) : result array :=
  match rows with
  | [] => inr (FloatArray [0%nat] [])
  | r :: _ =>
      if forallb (fun r' => (length r' =? length r)%nat) rows
      then inr (IntArray [length rows; length r] (concat rows))
      else inl ValueError
  end.

(** [np.reshape(a, shape)]: same element type and data, when the sizes
    agree. *)
Definition np_reshape (a : array) (shape : list nat) : result array :=
  let size := fold_right Nat.mul 1%nat shape in
  match a with
  | FloatArray _ d =>
      if (length d =? size)%nat then inr (FloatArray shape d) else inl ValueError
  | IntArray _ d =>
      if (length d =? size)%nat then inr (IntArray shape d) else inl ValueError
  end.

(** A voltage grid: a 3-D float array of shape [(nparams, npointsx, npointsy)]. *)
Record grid : Type := mkGrid {
  nparams : nat;
  npointsx : nat;
  npointsy : nat;
  gdata : list float64
}.

(** [paramvalues2D[:, i, j]]. *)
Definition slice (p : grid) (i j : nat) : list float64 :=
  map (fun k => nth ((k * npointsx p + i) * npointsy p + j)%nat (gdata p) f64_zero)
      (seq 0 (nparams p)).

(** ['%d' % n]. *)
Definition fmt_d (n : nat) : string := NilEmpty.string_of_uint (Nat.to_uint n).

(** ** [qtt/algorithms/misc.py]: [point_in_poly] *)

(** The two exceptions [point_in_poly] could raise: subscripting an empty
    polygon, and reading the local [xints] before any assignment. *)
Inductive poly_error : Type :=
| PolyIndexError
| PolyUnboundLocalError.

(** Python's [min] and [max] of two numbers: the first argument unless the
    second is strictly smaller (larger); a NaN never is. *)
Definition py_min (a b : float64) : float64 := if f64_lt b a then b else a.

Definition py_max (a b : float64) : float64 := if f64_lt a b then b else a.

(** The locals of the loop: [inside], the previous vertex [(p1x, p1y)], and
    [xints], which has no value until its first assignment. *)
Record pip_state : Type := mkPip {
  inside : bool;
  p1 : float64 * float64;
  xints : option float64
}.

(** One iteration of the loop, for the vertex [(p2x, p2y)].  [y > m] is
    [m < y]; [p1y != p2y] is the negation of [==], true when one is a
    NaN. *)
Definition pip_step (x y : float64) (p2 : float64 * float64) (st : pip_state)
  : poly_error + pip_state :=
  let p1x := fst (p1 st) in
  let p1y := snd (p1 st) in
  let p2x := fst p2 in
  let p2y := snd p2 in
  if f64_lt (py_min p1y p2y) y then
    if f64_le y (py_max p1y p2y) then
      if f64_le x (py_max p1x p2x) then
        let xints' :=
          if negb (f64_eq p1y p2y)
          then Some (f64_add
                       (f64_div (f64_mul (f64_sub y p1y) (f64_sub p2x p1x))
                                (f64_sub p2y p1y))
                       p1x)
          else xints st in
        if f64_eq p1x p2x then inr (mkPip (negb (inside st)) p2 xints')
        else
          match xints' with
          | None => inl PolyUnboundLocalError
          | Some xi =>
              if f64_le x xi
              then inr (mkPip (negb (inside st)) p2 xints')
              else inr (mkPip (inside st) p2 xints')
          end
      else inr (mkPip (inside st) p2 (xints st))
    else inr (mkPip (inside st) p2 (xints st))
  else inr (mkPip (inside st) p2 (xints st)).

(** [for i in range(n + 1): ... poly[i % n] ...]. *)
Fixpoint pip_loop (x y : float64) (poly : list (float64 * float64)) (n : nat)
    (indices : list nat) (st : pip_state) : poly_error + pip_state :=
  match indices with
  | [] => inr st
  | i :: t =>
      match nth_error poly (i mod n) with
      | None => inl PolyIndexError
      | Some p2 =>
          match pip_step x y p2 st with
          | inl e => inl e
          | inr st' => pip_loop x y poly n t st'
          end
      end
  end.

(** [point_in_poly(x, y, poly)] for a polygon given as its list of
    vertices [(x, y)], all numbers being [float64]. *)
Definition point_in_poly (x y : float64) (poly : list (float64 * float64))
  : poly_error + bool :=
  let n := length poly in
  match nth_error poly 0 with
  | None => inl PolyIndexError
  | Some p0 =>
      match pip_loop x y poly n (seq 0 (n + 1)) (mkPip false p0 None) with
      | inl e => inl e
      | inr st => inr (inside st)
      end
  end.

(** [points_in_poly(points, poly_verts)]: one answer per point. *)
Fixpoint points_in_poly (points poly_verts : list (float64 * float64))
  : poly_error + list bool :=
  match points with
  | [] => inr []
  | pt :: t =>
      match point_in_poly (fst pt) (snd pt) poly_verts with
      | inl e => inl e
      | inr b =>
          match points_in_poly t poly_verts with
          | inl e => inl e
          | inr bs => inr (b :: bs)
          end
      end
  end.

(** ** [qtt/algorithms/misc.py]: [polyval2d] *)

(** An elementwise operation on two one-dimensional arrays, with NumPy's
    broadcasting: the lengths are equal or one of them is 1, a [ValueError]
    otherwise. *)
Definition np_broadcast {A B C : Type} (f : A -> B -> C) (a : list A) (b : list B)
  : result (list C) :=
  if Nat.eqb (length a) (length b)
  then inr (map (fun p => f (fst p) (snd p)) (combine a b))
  else match a, b with
       | [u], _ => inr (map (f u) b)
       | _, [v] => inr (map (fun u => f u v) a)
       | _, _ => inl ValueError
       end.

(** [z += t] on a [float64] array [z]: the sum is stored in [z], so [t] has
    to broadcast to the shape [z] already has. *)
Definition np_iadd (z t : list float64) : result (list float64) :=
  if Nat.eqb (length t) (length z)
  then inr (map (fun p => f64_add (fst p) (snd p)) (combine z t))
  else match t with
       | [v] => inr (map (fun u => f64_add u v) z)
       | _ => inl ValueError
       end.

Section Polyval2d.

(** The arrays [x] and [y] may hold integers or floats.  Their element
    types and the arithmetic numpy applies to them are parameters: the
    powers [x ** i] and [y ** j] in the arrays' own types (for [int64] they
    wrap around), the product [a * u] of a coefficient with an element of
    [x ** i], and the product of that with an element of [y ** j], both
    [float64]. *)
Variables X Y : Type.
Variable power_x : X -> nat -> X.
Variable power_y : Y -> nat -> Y.
Variable scale : float64 -> X -> float64.
Variable times : float64 -> Y -> float64.

(** One iteration: [z += a * x**i * y**j]. *)
Definition polyval2d_step (x : list X) (y : list Y) (z : list float64)
    (t : float64 * (nat * nat)) : result (list float64) :=
  let a := fst t in
  let i := fst (snd t) in
  let j := snd (snd t) in
  term <-- np_broadcast times (map (fun u => scale a (power_x u i)) x)
                              (map (fun v => power_y v j) y) ;;
  np_iadd z term.

Fixpoint polyval2d_loop (x : list X) (y : list Y) (ts : list (float64 * (nat * nat)))
    (z : list float64) : result (list float64) :=
  match ts with
  | [] => inr z
  | t :: r => z' <-- polyval2d_step x y z t ;; polyval2d_loop x y r z'
  end.

(** [polyval2d(x, y, m)] on one-dimensional arrays, [m] a [float64] array.
    [np.sqrt] of the length is the correctly rounded square root, whose
    integer part is the integer square root; [zip] stops at the shorter of
    [m] and [ij]. *)
Definition polyval2d (x : list X) (y : list Y) (m : list float64)
  : result (list float64) :=
  let order := Z.of_nat (Nat.sqrt (length m)) - 1 in
  let r := seq 0 (Z.to_nat (order + 1)) in
  let ij := list_prod r r in
  polyval2d_loop x y (combine m ij) (map (fun _ => f64_zero) x).

End Polyval2d.

(** ** The class [ClassicalDotSystem] *)

Section ClassicalDot.

(** The two results of the transition detector, opaque to this module. *)
Variables Diagram Deloc : Type.

(** The attributes of an instance.  [basis], [nbasis] and [Nt] are [None]
    after [__init__]; [add_basis], [coulomb_energy], [hcgs], [honeycomb] and
    [deloc] do not exist until they are first assigned. *)
Record ClassicalDotSystem : Type := mkDotSystem {
  name : string;
  ndots : nat;
  ngates : nat;
  maxelectrons : nat;
  basis : option (list (list Z));
  nbasis : option (list Z);
  Nt : option nat;
  varnames : list string;
  mu0 : list float64;
  Eadd : list float64;
  W : list float64;
  alpha : list (list float64);
  add_basis : option (list (list Z));
  coulomb_energy : option (list (list float64));
  hcgs : option array;
  honeycomb : option Diagram;
  deloc : option Deloc
}.

Definition set_basis (v : option (list (list Z)))
    (m : ClassicalDotSystem) : ClassicalDotSystem :=
  mkDotSystem (name m) (ndots m) (ngates m) (maxelectrons m) v (nbasis m)
    (Nt m) (varnames m) (mu0 m) (Eadd m) (W m) (alpha m) (add_basis m)
    (coulomb_energy m) (hcgs m) (honeycomb m) (deloc m).

Definition set_nbasis (v : option (list Z))
    (m : ClassicalDotSystem) : ClassicalDotSystem :=
  mkDotSystem (name m) (ndots m) (ngates m) (maxelectrons m) (basis m) v
    (Nt m) (varnames m) (mu0 m) (Eadd m) (W m) (alpha m) (add_basis m)
    (coulomb_energy m) (hcgs m) (honeycomb m) (deloc m).

Definition set_Nt (v : option nat)
    (m : ClassicalDotSystem) : ClassicalDotSystem :=
  mkDotSystem (name m) (ndots m) (ngates m) (maxelectrons m) (basis m)
    (nbasis m) v (varnames m) (mu0 m) (Eadd m) (W m) (alpha m) (add_basis m)
    (coulomb_energy m) (hcgs m) (honeycomb m) (deloc m).

Definition set_mu0 (v : list float64)
    (m : ClassicalDotSystem) : ClassicalDotSystem :=
  mkDotSystem (name m) (ndots m) (ngates m) (maxelectrons m) (basis m)
    (nbasis m) (Nt m) (varnames m) v (Eadd m) (W m) (alpha m) (add_basis m)
    (coulomb_energy m) (hcgs m) (honeycomb m) (deloc m).

Definition set_Eadd (v : list float64)
    (m : ClassicalDotSystem) : ClassicalDotSystem :=
  mkDotSystem (name m) (ndots m) (ngates m) (maxelectrons m) (basis m)
    (nbasis m) (Nt m) (varnames m) (mu0 m) v (W m) (alpha m) (add_basis m)
    (coulomb_energy m) (hcgs m) (honeycomb m) (deloc m).

Definition set_W (v : list float64)
    (m : ClassicalDotSystem) : ClassicalDotSystem :=
  mkDotSystem (name m) (ndots m) (ngates m) (maxelectrons m) (basis m)
    (nbasis m) (Nt m) (varnames m) (mu0 m) (Eadd m) v (alpha m)
    (add_basis m) (coulomb_energy m) (hcgs m) (honeycomb m) (deloc m).

Definition set_alpha (v : list (list float64))
    (m : ClassicalDotSystem) : ClassicalDotSystem :=
  mkDotSystem (name m) (ndots m) (ngates m) (maxelectrons m) (basis m)
    (nbasis m) (Nt m) (varnames m) (mu0 m) (Eadd m) (W m) v (add_basis m)
    (coulomb_energy m) (hcgs m) (honeycomb m) (deloc m).

Definition set_add_basis (v : option (list (list Z)))
    (m : ClassicalDotSystem) : ClassicalDotSystem :=
  mkDotSystem (name m) (ndots m) (ngates m) (maxelectrons m) (basis m)
    (nbasis m) (Nt m) (varnames m) (mu0 m) (Eadd m) (W m) (alpha m) v
    (coulomb_energy m) (hcgs m) (honeycomb m) (deloc m).

Definition set_coulomb_energy (v : option (list (list float64)))
    (m : ClassicalDotSystem) : ClassicalDotSystem :=
  mkDotSystem (name m) (ndots m) (ngates m) (maxelectrons m) (basis m)
    (nbasis m) (Nt m) (varnames m) (mu0 m) (Eadd m) (W m) (alpha m)
    (add_basis m) v (hcgs m) (honeycomb m) (deloc m).

Definition set_hcgs (v : option array)
    (m : ClassicalDotSystem) : ClassicalDotSystem :=
  mkDotSystem (name m) (ndots m) (ngates m) (maxelectrons m) (basis m)
    (nbasis m) (Nt m) (varnames m) (mu0 m) (Eadd m) (W m) (alpha m)
    (add_basis m) (coulomb_energy m) v (honeycomb m) (deloc m).

Definition set_honeycomb (v : option Diagram)
    (m : ClassicalDotSystem) : ClassicalDotSystem :=
  mkDotSystem (name m) (ndots m) (ngates m) (maxelectrons m) (basis m)
    (nbasis m) (Nt m) (varnames m) (mu0 m) (Eadd m) (W m) (alpha m)
    (add_basis m) (coulomb_energy m) (hcgs m) v (deloc m).

Definition set_deloc (v : option Deloc)
    (m : ClassicalDotSystem) : ClassicalDotSystem :=
  mkDotSystem (name m) (ndots m) (ngates m) (maxelectrons m) (basis m)
    (nbasis m) (Nt m) (varnames m) (mu0 m) (Eadd m) (W m) (alpha m)
    (add_basis m) (coulomb_energy m) (hcgs m) (honeycomb m) v.

(** What a run can show on the console.  [Tprinted] is a call of the progress
    printer [tprint]; [PrintedElapsed] is the closing line with the elapsed
    time, whose digits are not modelled. *)
Inductive event : Type :=
| Printed (s : string)
| Tprinted (s : string)
| PrintedElapsed.

(** The state a method runs in: the instance, the console, and a ghost
    counter of ground-state evaluations (it is not an attribute of the
    instance; it only records that [calculate_ground_state] ran). *)
Record World : Type := mkWorld {
  self : ClassicalDotSystem;
  stdout : list event;
  gs_evals : nat
}.

Definition M (A : Type) : Type := World -> result A * World.

Definition ret {A : Type} (a : A) : M A := fun w => (inr a, w).

Definition bind {A B : Type} (m : M A) (k : A -> M B) : M B :=
  fun w =>
    match m w with
    | (inr a, w') => k a w'
    | (inl e, w') => (inl e, w')
    end.

Definition raise {A : Type} (e : exn) : M A := fun w => (inl e, w).

Definition lift {A : Type} (r : result A) : M A := fun w => (r, w).

Definition getattr {A : Type} (f : ClassicalDotSystem -> A) : M A :=
  fun w => (inr (f (self w)), w).

(** Reading an attribute that must hold a value: [e] is raised when it is
    [None] (a [TypeError] at its first use) or was never assigned (an
    [AttributeError]). *)
Definition getattr_some {A : Type} (f : ClassicalDotSystem -> option A) (e : exn) : M A :=
  fun w =>
    match f (self w) with
    | Some a => (inr a, w)
    | None => (inl e, w)
    end.

Definition setattr (upd : ClassicalDotSystem -> ClassicalDotSystem) : M unit :=
  fun w => (inr tt, mkWorld (upd (self w)) (stdout w) (gs_evals w)).

Definition emit (e : event) : M unit :=
  fun w => (inr tt, mkWorld (self w) (stdout w ++ [e]) (gs_evals w)).

Definition tick : M unit :=
  fun w => (inr tt, mkWorld (self w) (stdout w) (S (gs_evals w))).

Notation "x <- m ;; k" := (bind m (fun x => k))
  (at level 61, m at next level, right associativity).
Notation "m ;;; k" := (bind m (fun _ => k))
  (at level 61, right associativity).

(** [for x in xs: body(x)]. *)
Fixpoint for_each {A : Type} (xs : list A) (body : A -> M unit) : M unit :=
  match xs with
  | [] => ret tt
  | x :: t => body x ;;; for_each t body
  end.

(** A loop that updates a local variable. *)
Fixpoint for_fold {A S : Type} (xs : list A) (body : A -> S -> M S) (s : S) : M S :=
  match xs with
  | [] => ret s
  | x :: t => s' <- body x s ;; for_fold t body s'
  end.

(** [pool.map(f, xs)]: every call runs in a worker on a copy of the
    instance, so what a call does to [self] or prints is not seen by the
    parent; the results come back in the order of [xs], and an exception of
    a worker is raised in the parent.  Only the ghost counter is carried. *)
Fixpoint pool_map {A B : Type} (f : A -> M B) (xs : list A) : M (list B) :=
  match xs with
  | [] => ret []
  | x :: t =>
      fun w =>
        let rw := f x w in
        let w' := mkWorld (self w) (stdout w) (gs_evals (snd rw)) in
        match fst rw with
        | inl e => (inl e, w')
        | inr y =>
            match pool_map f t w' with
            | (inr ys, w'') => (inr (y :: ys), w'')
            | (inl e, w'') => (inl e, w'')
            end
        end
  end.

(** The method [findtransitions] of the base class [BaseDotSystem], which
    is not among the sources, is a parameter: a function of the occupation
    grid that returns the diagram and the delocalisation map, or raises. *)
Variable findtransitions : array -> result (Diagram * Deloc).

(** The module-level flag [_have_mp]: whether [multiprocessing] imported. *)
Variable have_mp : bool.

(** [ClassicalDotSystem.__init__]. *)
Definition ClassicalDotSystem_init (name : string) (ndots ngates maxelectrons : nat)
  : result ClassicalDotSystem :=
  wsize <-- ncr (Z.of_nat ndots) 2 ;;
  if wsize <? 0 then inl ValueError
  else
    inr {| name := name;
           ndots := ndots;
           ngates := ngates;
           maxelectrons := maxelectrons;
           basis := None;
           nbasis := None;
           Nt := None;
           varnames := ["mu0"; "Eadd"; "W"; "alpha"]%string;
           mu0 := repeat f64_zero ndots;
           Eadd := repeat f64_zero ndots;
           W := repeat f64_zero (Z.to_nat wsize);
           alpha := repeat (repeat f64_zero ngates) ndots;
           add_basis := None;
           coulomb_energy := None;
           hcgs := None;
           honeycomb := None;
           deloc := None |}.

(** [np.sum(a, axis=1)] of a 2-D integer array; an array built from an
    empty list is 1-D and has no axis 1. *)
Definition np_sum_axis1 (a : list (list Z)) : result (list Z) :=
  match a with
  | [] => inl ValueError
  | _ => inr (map py_sum a)
  end.

(** [np.dot] applied to the unpacked pair [v] of integers. *)
Definition dot_star (v : list Z) : result Z :=
  match v with
  | [a; b] => inr (a * b)
  | _ => inl TypeError
  end.

(** [1 / 2 * np.multiply(row, row + 1)]: the products [n (n + 1)] of the
    occupancies a basis can list are below [2^53], where [float64] holds
    them and their halves exactly; the exact rational stands for them. *)
Definition half_products (row : list Z) : list Q :=
  map (fun n => 1 / 2 * inject_Z (n * (n + 1)))%Q row.

(** The body of the loop of [makebasis], for the state of index [i]. *)
Definition makebasis_body (i : nat) : M unit :=
  b <- getattr_some basis TypeError ;;
  row <- lift (getitem b i) ;;
  ab <- getattr_some add_basis AttributeError ;;
  ab' <- lift (setrow astype_int ab i (half_products row)) ;;
  setattr (set_add_basis (Some ab')) ;;;
  b <- getattr_some basis TypeError ;;
  row <- lift (getitem b i) ;;
  c <- lift (mapM dot_star (combinations row 2)) ;;
  ce <- getattr_some coulomb_energy AttributeError ;;
  ce' <- lift (setrow f64_of_Z ce i c) ;;
  setattr (set_coulomb_energy (Some ce')).

Definition makebasis : M unit :=
  maxe <- getattr maxelectrons ;;
  nd <- getattr ndots ;;
  let basis0 := product (py_range 0 (Z.of_nat maxe + 1) 1) nd in
  let basis1 := sorted py_sum basis0 in
  setattr (set_basis (Some basis1)) ;;;
  b <- getattr_some basis TypeError ;;
  nb <- lift (np_sum_axis1 b) ;;
  setattr (set_nbasis (Some nb)) ;;;
  nb <- getattr_some nbasis TypeError ;;
  setattr (set_Nt (Some (length nb))) ;;;
  b <- getattr_some basis TypeError ;;
  setattr (set_add_basis (Some b)) ;;;
  b <- getattr_some basis TypeError ;;
  w <- getattr W ;;
  setattr (set_coulomb_energy (Some (repeat (repeat f64_zero (length w)) (length b)))) ;;;
  nt <- getattr_some Nt TypeError ;;
  for_each (seq 0 nt) makebasis_body.

(** The body of the loop of [calculate_energies]: the energy of state [i]
    is accumulated in [energy] and stored in the local array [energies]. *)
Definition energies_body (tmp1 : list float64) (i : nat) (energies : list float64)
  : M (list float64) :=
  let energy := f64_zero in
  b <- getattr_some basis TypeError ;;
  row <- lift (getitem b i) ;;
  t1 <- lift (np_dot tmp1 (map f64_of_Z row)) ;;
  let energy := f64_add energy t1 in
  ce <- getattr_some coulomb_energy AttributeError ;;
  crow <- lift (getitem ce i) ;;
  w <- getattr W ;;
  t2 <- lift (np_dot crow w) ;;
  let energy := f64_add energy t2 in
  ab <- getattr_some add_basis AttributeError ;;
  arow <- lift (getitem ab i) ;;
  ea <- getattr Eadd ;;
  t3 <- lift (np_dot (map f64_of_Z arow) ea) ;;
  let energy := f64_add energy t3 in
  lift (setitem energies i energy).

Definition calculate_energies (gatevalues : list float64) : M (list float64) :=
  nt <- getattr_some Nt TypeError ;;
  let energies := repeat f64_zero nt in
  m0 <- getattr mu0 ;;
  al <- getattr alpha ;;
  ag <- lift (np_dot_mv al gatevalues) ;;
  s <- lift (np_add m0 ag) ;;
  let tmp1 := np_neg s in
  nt <- getattr_some Nt TypeError ;;
  energies <- for_fold (seq 0 nt) (energies_body tmp1) energies ;;
  ret energies.

Definition calculate_ground_state (gatevalues : list float64) : M (list Z) :=
  tick ;;;
  energies <- calculate_energies gatevalues ;;
  b <- getattr basis ;;
  k <- lift (argmin energies) ;;
  match b with
  | None => raise TypeError
  | Some b => lift (getitem b k)
  end.

Definition mismatch_message (nparams ngates : nat) : string :=
  ("simulate_honeycomb: number of parameters (" ++ fmt_d nparams
   ++ ") does not equal number of gates (" ++ fmt_d ngates ++ ")...")%string.

Definition progress_message (i npointsx : nat) : string :=
  ("simulatehoneycomb: " ++ fmt_d i ++ "/" ++ fmt_d npointsx)%string.

(** The list of voltage vectors the worker pool receives. *)
Definition param_iter (paramvalues2D : grid) : list (list float64) :=
  flat_map (fun i => map (fun j => slice paramvalues2D i j)
                         (seq 0 (npointsy paramvalues2D)))
           (seq 0 (npointsx paramvalues2D)).

(** The two strategies of the sweep, after [self.hcgs] was allocated. *)
Definition sweep_parallel (paramvalues2D : grid) : M unit :=
  res <- pool_map calculate_ground_state (param_iter paramvalues2D) ;;
  a <- lift (np_array res) ;;
  nd <- getattr ndots ;;
  a' <- lift (np_reshape a [npointsx paramvalues2D; npointsy paramvalues2D; nd]) ;;
  setattr (set_hcgs (Some a')).

Definition sweep_cell (paramvalues2D : grid) (i j : nat) : M unit :=
  st <- calculate_ground_state (slice paramvalues2D i j) ;;
  h <- getattr_some hcgs AttributeError ;;
  h' <- lift (setitem_ij h i j st) ;;
  setattr (set_hcgs (Some h')).

Definition sweep_row (paramvalues2D : grid) (verbose : bool) (i : nat) : M unit :=
  (if verbose
   then emit (Tprinted (progress_message i (npointsx paramvalues2D)))
   else ret tt) ;;;
  for_each (seq 0 (npointsy paramvalues2D)) (sweep_cell paramvalues2D i).

Definition sweep_sequential (paramvalues2D : grid) (verbose : bool) : M unit :=
  for_each (seq 0 (npointsx paramvalues2D)) (sweep_row paramvalues2D verbose).

(** What follows the sweep: the transition detector and the closing line. *)
Definition sweep_finish (verbose : bool) : M unit :=
  h <- getattr_some hcgs AttributeError ;;
  r <- lift (findtransitions h) ;;
  setattr (set_honeycomb (Some (fst r))) ;;;
  setattr (set_deloc (Some (snd r))) ;;;
  (if verbose then emit PrintedElapsed else ret tt).

Definition simulate_honeycomb (paramvalues2D : grid)
    (verbose usediag multiprocess : bool) : M unit :=
  let nparams := nparams paramvalues2D in
  let npointsx := npointsx paramvalues2D in
  let npointsy := npointsy paramvalues2D in
  ng <- getattr ngates ;;
  if negb (nparams =? ng)%nat then
    emit (Printed (mismatch_message nparams ng))
  else
    nd <- getattr ndots ;;
    setattr (set_hcgs (Some (np_empty [npointsx; npointsy; nd]))) ;;;
    (if multiprocess && have_mp
     then sweep_parallel paramvalues2D
     else sweep_sequential paramvalues2D verbose) ;;;
    sweep_finish verbose.

(** A fresh world around an instance. *)
Definition world_of (m : ClassicalDotSystem) : World := mkWorld m [] 0%nat.

(** The body shared by the presets: construct, build the basis, assign the
    four parameter arrays. *)
Definition preset (name : string) (ndots ngates maxelectrons : nat)
    (mu0_values Eadd_values W_values : list float64)
    (alpha_values : list (list float64))
  : result ClassicalDotSystem :=
  m <-- ClassicalDotSystem_init name ndots ngates maxelectrons ;;
  match makebasis (world_of m) with
  | (inl e, _) => inl e
  | (inr _, w) =>
      inr (set_alpha alpha_values
             (set_W W_values (set_Eadd Eadd_values (set_mu0 mu0_values (self w)))))
  end.

Definition TripleDot (maxelectrons : nat) : result ClassicalDotSystem :=
  preset "tripledot" 3 3 maxelectrons
    (map f64_of_Z [-27; -20; -25])
    [f64_of_Z 54; f64_of_decimal 528 1; f64_of_Z 54]
    (map f64_of_Z [6; 1; 5])
    [[f64_of_Z 1; f64_of_decimal 25 2; f64_of_decimal 1 1];
     [f64_of_decimal 25 2; f64_of_Z 1; f64_of_decimal 25 2];
     [f64_of_decimal 1 1; f64_of_decimal 25 2; f64_of_Z 1]].

Definition DoubleDot (maxelectrons : nat) : result ClassicalDotSystem :=
  preset "doubledot" 2 2 maxelectrons
    (map f64_of_Z [120; 100])
    [f64_of_Z 54; f64_of_decimal 528 1]
    [f64_of_Z 6]
    [[f64_of_Z 1; f64_of_decimal 25 2]; [f64_of_decimal 25 2; f64_of_Z 1]].


(** ** Vocabulary of the statements *)

(** The basis [makebasis] stores: the product enumeration, stably sorted by
    total occupancy. *)
Definition built_basis (nd maxe : nat) : list (list Z) :=
  sorted py_sum (product (py_range 0 (Z.of_nat maxe + 1) 1) nd).

(** Two instances hold the same dimensions, basis and per-state caches. *)
Definition same_basis_state (a b : ClassicalDotSystem) : Prop :=
  ndots a = ndots b /\ maxelectrons a = maxelectrons b /\
  basis a = basis b /\ nbasis a = nbasis b /\ Nt a = Nt b /\
  add_basis a = add_basis b /\ coulomb_energy a = coulomb_energy b.

(** The basis of [m] has been built: [m] carries what a successful
    [makebasis] left, run on an instance whose [W] has one entry per pair of
    dots. *)
Definition basis_built (m : ClassicalDotSystem) : Prop :=
  exists w0 : World,
    length (W (self w0)) = binom (ndots (self w0)) 2 /\
    fst (makebasis w0) = inr tt /\
    same_basis_state (self (snd (makebasis w0))) m.

(** The shapes of the four parameter arrays. *)
Definition well_shaped (m : ClassicalDotSystem) : Prop :=
  length (mu0 m) = ndots m /\
  length (Eadd m) = ndots m /\
  length (W m) = binom (ndots m) 2 /\
  length (alpha m) = ndots m /\
  Forall (fun row => length row = ngates m) (alpha m).

(** Two instances agree on everything but the sweep results [hcgs],
    [honeycomb] and [deloc]. *)
Definition same_model (a b : ClassicalDotSystem) : Prop :=
  ndots a = ndots b /\ ngates a = ngates b /\ maxelectrons a = maxelectrons b /\
  basis a = basis b /\ nbasis a = nbasis b /\ Nt a = Nt b /\
  mu0 a = mu0 b /\ Eadd a = Eadd b /\ W a = W b /\ alpha a = alpha b /\
  add_basis a = add_basis b /\ coulomb_energy a = coulomb_energy b.

(** The dot product of two [float64] vectors: the products [a_k * b_k]
    added up for [k = 0, 1, ...] in that order, starting from [0.0]. *)
Fixpoint dot_from (acc : float64) (a b : list float64) : float64 :=
  match a, b with
  | x :: a', y :: b' => dot_from (f64_add acc (f64_mul x y)) a' b'
  | _, _ => acc
  end.

Definition dot (a b : list float64) : float64 := dot_from f64_zero a b.

(** [-(mu0 + alpha . gate_voltages)], one entry per dot. *)
Definition effective_potential (m : ClassicalDotSystem) (g : list float64)
  : list float64 :=
  map (fun d => f64_neg (f64_add (nth d (mu0 m) f64_zero) (dot (nth d (alpha m) []) g)))
      (seq 0 (ndots m)).

(** The energy of one state from its occupation vector, its Coulomb terms
    and its addition-energy weights. *)
Definition energy_formula (m : ClassicalDotSystem) (g : list float64)
    (occ : list Z) (coul : list float64) (addw : list Z) : float64 :=
  f64_add
    (f64_add
       (f64_add f64_zero (dot (effective_potential m g) (map f64_of_Z occ)))
       (dot coul (W m)))
    (dot (map f64_of_Z addw) (Eadd m)).

(** The same formula in exact arithmetic, on the rationals the arrays
    hold: what the three dot products are without rounding. *)
Definition dotQ (a b : list Q) : Q :=
  fold_right (fun xy acc => fst xy * snd xy + acc)%Q 0%Q (combine a b).

Definition exact_energy (m : ClassicalDotSystem) (g : list float64)
    (occ : list Z) (coul : list float64) (addw : list Z) : Q :=
  let potential :=
    map (fun d => - (f64_to_Q (nth d (mu0 m) f64_zero)
                     + dotQ (map f64_to_Q (nth d (alpha m) [])) (map f64_to_Q g)))%Q
        (seq 0 (ndots m)) in
  (dotQ potential (map inject_Z occ)
   + dotQ (map f64_to_Q coul) (map f64_to_Q (W m))
   + dotQ (map inject_Z addw) (map f64_to_Q (Eadd m)))%Q.

(** The unordered pairs of [n] dots in lexicographic order:
    (0,1), (0,2), ..., (1,2), ... *)
Definition pair_indices (n : nat) : list (nat * nat) :=
  flat_map (fun a => map (fun b => (a, b)) (seq (S a) (n - S a))) (seq 0 n).

(** Lexicographic order on index pairs. *)
Definition pair_lex (p q : nat * nat) : Prop :=
  (fst p < fst q)%nat \/ (fst p = fst q /\ (snd p < snd q)%nat).

Definition pair_products (occ : list Z) : list Z :=
  map (fun ab => nth (fst ab) occ 0 * nth (snd ab) occ 0) (pair_indices (length occ)).

(** [1 + 2 + ... + n]. *)
Fixpoint sum_to (n : nat) : Z :=
  match n with
  | O => 0
  | S k => Z.of_nat (S k) + sum_to k
  end.

(** The products of every entry with each later entry. *)
Fixpoint pairwise (l : list Z) : list Z :=
  match l with
  | [] => []
  | x :: t => map (Z.mul x) t ++ pairwise t
  end.

(** The two rows [makebasis] caches for an occupation vector. *)
Definition add_row (row : list Z) : list Z := map astype_int (half_products row).

Definition coulomb_row (row : list Z) : list float64 :=
  map f64_of_Z (pair_products row).

(** The instance a successful [makebasis] leaves. *)
Definition built_state (m : ClassicalDotSystem) : ClassicalDotSystem :=
  let b := built_basis (ndots m) (maxelectrons m) in
  set_coulomb_energy (Some (map coulomb_row b))
    (set_add_basis (Some (map add_row b))
       (set_Nt (Some (length b))
          (set_nbasis (Some (map py_sum b))
             (set_basis (Some b) m)))).

(** The world inside the loop of [makebasis]. *)
Definition loop_world (w : World) (ab : list (list Z)) (ce : list (list float64))
  : World :=
  mkWorld (set_coulomb_energy (Some ce) (set_add_basis (Some ab) (self w)))
          (stdout w) (gs_evals w).

(** The vector [tmp1] and the energy of one state as [calculate_energies]
    computes them when no operation raises. *)
Definition code_potential (m : ClassicalDotSystem) (g : list float64) : list float64 :=
  np_neg (map (fun xy => f64_add (fst xy) (snd xy))
              (combine (mu0 m) (map (fun row => dot_acc row g) (alpha m)))).

Definition code_energy (m : ClassicalDotSystem) (tmp1 : list float64) (occ : list Z)
  : float64 :=
  f64_add
    (f64_add
       (f64_add f64_zero (dot_acc tmp1 (map f64_of_Z occ)))
       (dot_acc (coulomb_row occ) (W m)))
    (dot_acc (map f64_of_Z (add_row occ)) (Eadd m)).

(** What the scan of [np.argmin] has found on a prefix [p]: the first NaN
    when there is one, the first minimum otherwise. *)
Definition argmin_found (p : list float64) (k : nat) : Prop :=
  (is_nan (nth k p f64_zero) = true
   /\ forall j, (j < k)%nat -> is_nan (nth j p f64_zero) = false)
  \/ ((forall j, (j < length p)%nat -> is_nan (nth j p f64_zero) = false)
      /\ (forall j, (j < length p)%nat ->
            f64_le (nth k p f64_zero) (nth j p f64_zero) = true)
      /\ (forall j, (j < k)%nat ->
            f64_lt (nth k p f64_zero) (nth j p f64_zero) = true)).

(** The state [calculate_ground_state] returns for the model [m] at the
    voltages [g], run in a fresh world. *)
Definition ground_state_of (m : ClassicalDotSystem) (g : list float64)
  : result (list Z) :=
  fst (calculate_ground_state g (world_of m)).

(** The ground states of the cells of a grid, x outer and y inner; a cell
    whose evaluation raises contributes no entry. *)
Definition cell_states (m : ClassicalDotSystem) (p : grid) : list (list Z) :=
  map (fun g => match ground_state_of m g with
                | inr st => st
                | inl _ => []
                end) (param_iter p).

(** The state of the sequential sweep when the first [k] cells, in
    row-major order, have been written: the world still holds the model
    [m], and [hcgs] holds those cells followed by the untouched entries. *)
Definition sweep_inv (m : ClassicalDotSystem) (p : grid) (k : nat) (w : World) : Prop :=
  same_model (self w) m
  /\ hcgs (self w)
     = Some (FloatArray [npointsx p; npointsy p; ndots m]
               (map f64_of_Z (concat (firstn k (cell_states m p)))
                ++ repeat f64_zero ((npointsx p * npointsy p - k) * ndots m))).

(** What a sweep can change besides [hcgs]: the count of ground-state
    evaluations, the console, and the two results of the detector. *)
Definition sweep_effects (w : World)
  : nat * list event * option Diagram * option Deloc :=
  (gs_evals w, stdout w, honeycomb (self w), deloc (self w)).

(** The progress lines of the rows [a, a + k) of a sweep over [npx] rows. *)
Definition progress_lines (verbose : bool) (npx a k : nat) : list event :=
  if verbose
  then map (fun i => Tprinted (progress_message i npx)) (seq a k)
  else [].

(** The instance [__init__] returns when it returns. *)
Definition fresh_instance (nm : string) (nd ng me : nat) : ClassicalDotSystem :=
  mkDotSystem nm nd ng me None None None ["mu0"; "Eadd"; "W"; "alpha"]%string
    (repeat f64_zero nd) (repeat f64_zero nd) (repeat f64_zero (binom nd 2))
    (repeat (repeat f64_zero ng) nd) None None None None None.

(** A method leaves a property of the world standing. *)
Definition preserves {A : Type} (P : World -> Prop) (m : M A) : Prop :=
  forall w, P w -> P (snd (m w)).

(** A method run from two related worlds returns the same result and ends
    in related worlds. *)
Definition respects {A : Type} (R : World -> World -> Prop) (m : M A) : Prop :=
  forall w1 w2, R w1 w2 -> fst (m w1) = fst (m w2) /\ R (snd (m w1)) (snd (m w2)).

Definition model_rel (w1 w2 : World) : Prop := same_model (self w1) (self w2).

Definition self_rel (w1 w2 : World) : Prop := self w1 = self w2.

(** ** Concrete instances *)

Definition blank : ClassicalDotSystem :=
  mkDotSystem "" 0 0 0 None None None [] [] [] [] [] None None None None None.

(** A transition detector that finds nothing. *)
Definition no_transitions (a : array) : result (unit * unit) := inr (tt, tt).

(** The double dot as [__init__] leaves it, before [makebasis]. *)
Definition doubledot_fresh : ClassicalDotSystem :=
  Eval vm_compute in
    match ClassicalDotSystem_init "doubledot" 2 2 3 with
    | inr m => m
    | inl _ => blank
    end.

(** The triple dot as [__init__] leaves it, before [makebasis]. *)
Definition tripledot_fresh : ClassicalDotSystem :=
  Eval vm_compute in
    match ClassicalDotSystem_init "tripledot" 3 3 3 with
    | inr m => m
    | inl _ => blank
    end.

(** The two presets with [maxelectrons = 3], evaluated. *)
Definition doubledot : ClassicalDotSystem :=
  Eval vm_compute in
    match DoubleDot 3 with
    | inr m => m
    | inl _ => blank
    end.

Definition tripledot : ClassicalDotSystem :=
  Eval vm_compute in
    match TripleDot 3 with
    | inr m => m
    | inl _ => blank
    end.

(** A triple dot whose [W] was given two entries instead of three. *)
Definition tripledot_short_W : ClassicalDotSystem :=
  Eval vm_compute in set_W (map f64_of_Z [6; 1]) tripledot_fresh.

(** A 2 x 1 x 2 grid for the double dot: the cells (0, 0) and (10, 200). *)
Definition grid_2x1x2 : grid := mkGrid 2 1 2 (map f64_of_Z [0; 10; 0; 200]).

(** A 2 x 2 x 2 grid for the double dot: the cells (0, 0), (10, 200),
    (100, 100) and (200, 10), x outer and y inner. *)
Definition grid_2x2x2 : grid :=
  mkGrid 2 2 2 (map f64_of_Z [0; 10; 100; 200; 0; 200; 100; 10]).

(** Two finite voltages, [7 * 2^1021] each, whose weighted sum overflows. *)
Definition overflow_voltages : list float64 :=
  Eval vm_compute in map f64_of_Z [7 * 2 ^ 1021; 7 * 2 ^ 1021].

(** A triangle and a rectangle with whole-number corners. *)
Definition triangle : list (float64 * float64) :=
  map (fun p => (f64_of_Z (fst p), f64_of_Z (snd p))) [(0, 0); (4, 0); (0, 4)].

(** The arithmetic of [polyval2d] on [int64] arrays [x] and [y]: powers
    wrap around modulo [2^64], and an integer meets a float as its
    conversion. *)
Definition wrap64 (z : Z) : Z := (z + 2 ^ 63) mod 2 ^ 64 - 2 ^ 63.

Definition int64_power (u : Z) (i : nat) : Z := wrap64 (u ^ Z.of_nat i).

Definition f64_times_int (a : float64) (u : Z) : float64 := f64_mul a (f64_of_Z u).

Definition polyval2d_int64 (x y : list Z) (m : list float64) : result (list float64) :=
  polyval2d Z Z int64_power int64_power f64_times_int f64_times_int x y m.

(** A grid whose leading dimension is 3. *)
Definition grid_3x1x1 : grid := mkGrid 3 1 1 (map f64_of_Z [0; 0; 0]).



(** ** The order of [float64] *)

Lemma SFcompare_none (x y : float64) :
  SFcompare x y = None <-> is_nan x = true \/ is_nan y = true.
Proof.
  destruct x as [[]|[]| |[] mx ex], y as [[]|[]| |[] my ey]; cbn;
    split; intros H; try discriminate; try reflexivity; auto;
    destruct H; discriminate.
Qed.

Lemma SFcompare_refl (x : float64) :
  is_nan x = false -> SFcompare x x = Some Eq.
Proof.
  destruct x as [[]|[]| |[] m e]; cbn; intros H; try discriminate; try reflexivity;
    rewrite Z.compare_refl; change (Pos.compare_cont Eq m m) with (Pos.compare m m);
    rewrite Pos.compare_refl; reflexivity.
Qed.

Lemma SFcompare_antisym (x y : float64) :
  SFcompare y x = option_map CompOpp (SFcompare x y).
Proof.
  destruct x as [[]|[]| |[] mx ex], y as [[]|[]| |[] my ey]; cbn; try reflexivity;
    rewrite (Z.compare_antisym ey ex);
    change (Pos.compare_cont Eq mx my) with (Pos.compare mx my);
    change (Pos.compare_cont Eq my mx) with (Pos.compare my mx);
    rewrite (Pos.compare_antisym my mx);
    destruct (ey ?= ex), (my ?= mx)%positive; reflexivity.
Qed.

Lemma SFcompare_rank (x y : float64) :
  is_nan x = false -> is_nan y = false ->
  SFcompare x y = Some (lex3 (f64_rank x) (f64_rank y)).
Proof.
  destruct x as [[]|[]| |[] mx ex], y as [[]|[]| |[] my ey]; cbn;
    intros Hx Hy; try discriminate; try reflexivity; unfold lex3; cbn [fst snd f64_rank];
    rewrite ?Z.compare_opp, ?(Z.compare_antisym ex ey);
    destruct (ex ?= ey); reflexivity.
Qed.

Lemma lex3_spec (p q : Z * Z * Z) :
  match lex3 p q with
  | Eq => p = q
  | Lt => fst (fst p) < fst (fst q)
          \/ (fst (fst p) = fst (fst q)
              /\ (snd (fst p) < snd (fst q)
                  \/ (snd (fst p) = snd (fst q) /\ snd p < snd q)))
  | Gt => fst (fst q) < fst (fst p)
          \/ (fst (fst p) = fst (fst q)
              /\ (snd (fst q) < snd (fst p)
                  \/ (snd (fst p) = snd (fst q) /\ snd q < snd p)))
  end.
Proof.
  destruct p as [[p1 p2] p3], q as [[q1 q2] q3]. unfold lex3. cbn [fst snd].
  destruct (Z.compare_spec p1 q1); [|lia|lia].
  destruct (Z.compare_spec p2 q2); [|lia|lia].
  destruct (Z.compare_spec p3 q3); [congruence|lia|lia].
Qed.

Lemma lex3_trans (p q r : Z * Z * Z) (c : comparison) :
  lex3 p q = c -> lex3 q r = c -> lex3 p r = c.
Proof.
  intros H1 H2.
  pose proof (lex3_spec p q) as S1. pose proof (lex3_spec q r) as S2.
  pose proof (lex3_spec p r) as S3.
  rewrite H1 in S1. rewrite H2 in S2.
  destruct c, (lex3 p r); try reflexivity; subst; try lia;
    try (rewrite S3 in S2; lia); try (rewrite <- S3 in S1; lia).
Qed.

Lemma lex3_eq_l (p q r : Z * Z * Z) :
  lex3 p q = Eq -> lex3 p r = lex3 q r.
Proof.
  intros H. pose proof (lex3_spec p q) as S. rewrite H in S. now subst.
Qed.

Lemma SFcompare_trans (x y z : float64) (c : comparison) :
  SFcompare x y = Some c -> SFcompare y z = Some c -> SFcompare x z = Some c.
Proof.
  intros H1 H2.
  assert (Nx : is_nan x = false) by (destruct x; try reflexivity; discriminate).
  assert (Ny : is_nan y = false) by (destruct y; try reflexivity; destruct x as [| | |]; discriminate).
  assert (Nz : is_nan z = false) by (destruct z; try reflexivity; destruct y as [| | |]; discriminate).
  rewrite (SFcompare_rank x y Nx Ny) in H1. rewrite (SFcompare_rank y z Ny Nz) in H2.
  rewrite (SFcompare_rank x z Nx Nz).
  injection H1 as H1. injection H2 as H2. f_equal. now apply (lex3_trans _ (f64_rank y)).
Qed.

Lemma SFcompare_eq_l (x y z : float64) :
  SFcompare x y = Some Eq -> SFcompare x z = SFcompare y z.
Proof.
  intros H.
  assert (Nx : is_nan x = false) by (destruct x; try reflexivity; discriminate).
  assert (Ny : is_nan y = false) by (destruct y; try reflexivity; destruct x as [| | |]; discriminate).
  destruct (is_nan z) eqn:Nz.
  - destruct z; try discriminate. destruct x, y; reflexivity.
  - rewrite (SFcompare_rank x y Nx Ny) in H. injection H as H.
    rewrite (SFcompare_rank x z Nx Nz), (SFcompare_rank y z Ny Nz). f_equal.
    now apply lex3_eq_l.
Qed.

Lemma f64_le_not_nan (x y : float64) :
  f64_le x y = true -> is_nan x = false /\ is_nan y = false.
Proof.
  unfold f64_le, SFleb. intros H.
  destruct (is_nan x) eqn:Nx, (is_nan y) eqn:Ny; auto;
    rewrite (proj2 (SFcompare_none x y)) in H by auto; discriminate.
Qed.

Lemma f64_lt_not_nan (x y : float64) :
  f64_lt x y = true -> is_nan x = false /\ is_nan y = false.
Proof.
  unfold f64_lt, SFltb. intros H.
  destruct (is_nan x) eqn:Nx, (is_nan y) eqn:Ny; auto;
    rewrite (proj2 (SFcompare_none x y)) in H by auto; discriminate.
Qed.

Lemma f64_le_refl (x : float64) : is_nan x = false -> f64_le x x = true.
Proof. intros H. unfold f64_le, SFleb. now rewrite SFcompare_refl. Qed.

Lemma f64_lt_le (x y : float64) : f64_lt x y = true -> f64_le x y = true.
Proof. unfold f64_lt, f64_le, SFltb, SFleb. now destruct (SFcompare x y) as [[]|]. Qed.

Lemma f64_le_total (x y : float64) :
  is_nan x = false -> is_nan y = false -> f64_le x y = false -> f64_lt y x = true.
Proof.
  intros Nx Ny. unfold f64_le, f64_lt, SFleb, SFltb.
  rewrite (SFcompare_antisym x y).
  destruct (SFcompare x y) as [[]|] eqn:E; cbn; try discriminate; try reflexivity.
  apply SFcompare_none in E. destruct E; congruence.
Qed.

Lemma f64_lt_not_le (x y : float64) : f64_lt x y = true -> f64_le y x = false.
Proof.
  unfold f64_le, f64_lt, SFleb, SFltb. rewrite (SFcompare_antisym x y).
  destruct (SFcompare x y) as [[]|]; cbn; try discriminate; reflexivity.
Qed.

Lemma f64_le_not_lt (x y : float64) : f64_le x y = true -> f64_lt y x = false.
Proof.
  unfold f64_le, f64_lt, SFleb, SFltb. rewrite (SFcompare_antisym x y).
  destruct (SFcompare x y) as [[]|]; cbn; try discriminate; reflexivity.
Qed.

Lemma f64_le_trans (x y z : float64) :
  f64_le x y = true -> f64_le y z = true -> f64_le x z = true.
Proof.
  unfold f64_le, SFleb.
  destruct (SFcompare x y) as [[]|] eqn:E1; try discriminate;
  destruct (SFcompare y z) as [[]|] eqn:E2; try discriminate; intros _ _.
  - now rewrite (SFcompare_trans x y z Eq).
  - now rewrite (SFcompare_eq_l x y z E1), E2.
  - assert (E3 : SFcompare z y = Some Eq) by (rewrite SFcompare_antisym, E2; reflexivity).
    assert (E4 : SFcompare z x = Some Gt).
    { rewrite (SFcompare_eq_l z y x E3), SFcompare_antisym, E1. reflexivity. }
    rewrite SFcompare_antisym, E4. reflexivity.
  - now rewrite (SFcompare_trans x y z Lt).
Qed.

Lemma f64_lt_le_trans (x y z : float64) :
  f64_lt x y = true -> f64_le y z = true -> f64_lt x z = true.
Proof.
  intros H1 H2.
  destruct (f64_lt_not_nan _ _ H1) as [Nx _], (f64_le_not_nan _ _ H2) as [_ Nz].
  apply f64_le_total; try assumption.
  destruct (f64_le z x) eqn:E; [|reflexivity].
  pose proof (f64_le_trans _ _ _ H2 E) as H3.
  now rewrite (f64_lt_not_le _ _ H1) in H3.
Qed.

Lemma f64_le_lt_trans (x y z : float64) :
  f64_le x y = true -> f64_lt y z = true -> f64_lt x z = true.
Proof.
  intros H1 H2.
  destruct (f64_le_not_nan _ _ H1) as [Nx _], (f64_lt_not_nan _ _ H2) as [_ Nz].
  apply f64_le_total; try assumption.
  destruct (f64_le z x) eqn:E; [|reflexivity].
  pose proof (f64_le_trans _ _ _ E H1) as H3.
  now rewrite (f64_lt_not_le _ _ H2) in H3.
Qed.

Lemma f64_lt_asym (x y : float64) : f64_lt x y = true -> f64_lt y x = false.
Proof. intros H. now apply f64_le_not_lt, f64_lt_le. Qed.

Lemma f64_eq_refl (x : float64) : is_nan x = false -> f64_eq x x = true.
Proof. intros H. unfold f64_eq, SFeqb. now rewrite SFcompare_refl. Qed.

Lemma f64_eq_not_lt (x y : float64) :
  f64_eq x y = true -> f64_lt x y = false /\ f64_lt y x = false.
Proof.
  unfold f64_eq, f64_lt, SFeqb, SFltb. rewrite (SFcompare_antisym x y).
  destruct (SFcompare x y) as [[]|]; cbn; try discriminate. auto.
Qed.
(** ** Facts about the built-ins *)

Lemma py_range_up (a b : Z) :
  py_range a b 1 = map (fun k => a + Z.of_nat k) (seq 0 (Z.to_nat (b - a))).
Proof.
  unfold py_range. cbn [Z.ltb Z.compare].
  replace ((b - a + 1 - 1) / 1) with (b - a) by (rewrite Z.div_1_r; lia).
  apply map_ext. intros k. lia.
Qed.

Lemma py_range_down (a b : Z) :
  py_range a b (-1) = map (fun k => a - Z.of_nat k) (seq 0 (Z.to_nat (a - b))).
Proof.
  unfold py_range. cbn [Z.ltb Z.compare Z.opp].
  replace ((a - b - -1 - 1) / 1) with (a - b) by (rewrite Z.div_1_r; lia).
  apply map_ext. intros k. lia.
Qed.

Lemma fold_left_mul_lprod (t : list Z) (x : Z) :
  fold_left Z.mul t x = x * lprod t.
Proof.
  revert x. induction t as [|y t IH]; intros x; cbn.
  - lia.
  - rewrite IH. unfold lprod. lia.
Qed.

Lemma reduce_mul_cons (x : Z) (t : list Z) :
  reduce Z.mul (x :: t) = inr (lprod (x :: t)).
Proof. cbn [reduce]. now rewrite fold_left_mul_lprod. Qed.

Lemma lprod_falling (r n : nat) :
  (r <= n)%nat ->
  lprod (map (fun k => Z.of_nat n - Z.of_nat k) (seq 0 r)) = Z.of_nat (falling n r).
Proof.
  revert n. induction r as [|r IH]; intros n Hr.
  - reflexivity.
  - cbn [seq map lprod fold_right falling].
    rewrite <- seq_shift, map_map.
    fold (lprod (map (fun k => Z.of_nat n - Z.of_nat (S k)) (seq 0 r))).
    rewrite (map_ext _ (fun k => Z.of_nat (n - 1) - Z.of_nat k)) by (intros; lia).
    rewrite IH by lia. lia.
Qed.

Lemma lprod_fact (r : nat) :
  lprod (map (fun k => 1 + Z.of_nat k) (seq 0 r)) = Z.of_nat (fact r).
Proof.
  induction r as [|r IH].
  - reflexivity.
  - rewrite seq_S, map_app. cbn [map Nat.add].
    unfold lprod in *. rewrite fold_right_app. cbn [fold_right].
    assert (G : forall (l : list Z) (c : Z), fold_right Z.mul c l = c * fold_right Z.mul 1 l).
    { induction l as [|y l IHl]; intros c; cbn; [lia | rewrite IHl; lia]. }
    rewrite G, IH. cbn [fact]. lia.
Qed.

(** ** Facts about the binomial coefficient *)

Lemma binom_gt (n r : nat) : (n < r)%nat -> binom n r = 0%nat.
Proof.
  revert r. induction n as [|n IH]; intros [|r] H; try lia; cbn; auto.
  rewrite !IH by lia. reflexivity.
Qed.

Lemma binom_diag (n : nat) : binom n n = 1%nat.
Proof.
  induction n as [|n IH]; cbn; auto.
  rewrite IH, binom_gt by lia. reflexivity.
Qed.

Lemma binom_fact (n r : nat) :
  (r <= n)%nat -> (binom n r * fact r * fact (n - r) = fact n)%nat.
Proof.
  revert r. induction n as [|n IH]; intros r Hr.
  - assert (r = 0)%nat by lia. subst. reflexivity.
  - destruct r as [|r].
    + cbn [binom fact]. rewrite Nat.sub_0_r. cbn [fact]. lia.
    + destruct (Nat.eq_dec r n) as [->|Hne].
      * rewrite binom_diag, Nat.sub_diag. cbn [fact]. lia.
      * cbn [binom]. replace (S n - S r)%nat with (n - r)%nat by lia.
        pose proof (IH r ltac:(lia)) as H1.
        pose proof (IH (S r) ltac:(lia)) as H2.
        replace (n - r)%nat with (S (n - S r)) in * by lia.
        cbn [fact] in *. nia.
Qed.

Lemma falling_fact (r n : nat) :
  (r <= n)%nat -> (falling n r * fact (n - r) = fact n)%nat.
Proof.
  revert n. induction r as [|r IH]; intros n Hr.
  - cbn [falling]. rewrite Nat.sub_0_r. lia.
  - destruct n as [|n]; [lia|].
    cbn [falling]. replace (S n - 1)%nat with n by lia.
    replace (S n - S r)%nat with (n - r)%nat by lia.
    pose proof (IH n ltac:(lia)). cbn [fact]. nia.
Qed.

Lemma fact_pos (n : nat) : (0 < fact n)%nat.
Proof. apply Nat.neq_0_lt_0, fact_neq_0. Qed.

Lemma falling_binom (n r : nat) :
  (r <= n)%nat -> (falling n r = binom n r * fact r)%nat.
Proof.
  intros Hr.
  pose proof (falling_fact r n Hr) as H1.
  pose proof (binom_fact n r Hr) as H2.
  pose proof (fact_pos (n - r)) as H3.
  apply (Nat.mul_cancel_r _ _ (fact (n - r))); [lia|]. lia.
Qed.

Lemma binom_sym (n r : nat) : (r <= n)%nat -> binom n (n - r) = binom n r.
Proof.
  intros Hr.
  pose proof (binom_fact n r Hr) as H1.
  pose proof (binom_fact n (n - r) ltac:(lia)) as H2.
  replace (n - (n - r))%nat with r in H2 by lia.
  pose proof (fact_pos r). pose proof (fact_pos (n - r)).
  apply (Nat.mul_cancel_r _ _ (fact r * fact (n - r))); nia.
Qed.

Lemma ncr_min (n k : nat) :
  (0 < k <= n)%nat ->
  (numer <-- reduce Z.mul (py_range (Z.of_nat n) (Z.of_nat n - Z.of_nat k) (-1)) ;;
   denom <-- reduce Z.mul (py_range 1 (Z.of_nat k + 1) 1) ;;
   inr (numer / denom)) = inr (Z.of_nat (binom n k)).
Proof.
  intros Hk.
  rewrite py_range_down, py_range_up.
  replace (Z.to_nat (Z.of_nat n - (Z.of_nat n - Z.of_nat k))) with k by lia.
  replace (Z.to_nat (Z.of_nat k + 1 - 1)) with k by lia.
  destruct k as [|k]; [lia|].
  assert (E1 : forall f : nat -> Z, reduce Z.mul (map f (seq 0 (S k))) = inr (lprod (map f (seq 0 (S k))))).
  { intros f. cbn [seq map]. apply reduce_mul_cons. }
  rewrite !E1. cbn [rbind].
  rewrite lprod_falling, lprod_fact by lia.
  rewrite falling_binom by lia.
  rewrite Nat2Z.inj_mul, Z.div_mul; [reflexivity|].
  pose proof (fact_pos (S k)). lia.
Qed.

(** C8. For non-negative integers [r <= n], [ncr n r] returns the binomial
    coefficient C(n, r) exactly (integer arithmetic only; [binom] is tied to
    the factorial formula), it multiplies [min r (n - r)] factors in the
    numerator and in the denominator, and it returns 1 when [r = 0]. *)
Theorem ncr_exact_binomial (n r : Z) :
  0 <= r <= n ->
  ncr n r = inr (Z.of_nat (binom (Z.to_nat n) (Z.to_nat r)))
  /\ (binom (Z.to_nat n) (Z.to_nat r) * fact (Z.to_nat r) * fact (Z.to_nat (n - r))
      = fact (Z.to_nat n))%nat
  /\ length (fst (ncr_factors n r)) = Z.to_nat (Z.min r (n - r))
  /\ length (snd (ncr_factors n r)) = Z.to_nat (Z.min r (n - r))
  /\ ncr n 0 = inr 1.
Proof.
  intros Hr.
  split; [|split; [|split; [|split]]].
  - unfold ncr, ncr_factors. cbn [fst snd].
    destruct (Z.eqb_spec (Z.min r (n - r)) 0) as [E|E].
    + f_equal.
      assert (Hc : r = 0 \/ r = n) by lia.
      destruct Hc as [-> | ->].
      * cbn. destruct (Z.to_nat n); reflexivity.
      * now rewrite binom_diag.
    + set (k := Z.to_nat (Z.min r (n - r))).
      assert (Hk : (0 < k <= Z.to_nat n)%nat) by lia.
      pose proof (ncr_min (Z.to_nat n) k Hk) as H.
      replace (Z.of_nat (Z.to_nat n)) with n in H by lia.
      replace (Z.of_nat k) with (Z.min r (n - r)) in H by lia.
      rewrite H. f_equal. f_equal.
      destruct (Z.min_spec r (n - r)) as [[_ E1]|[_ E1]].
      * unfold k. now rewrite E1.
      * unfold k. rewrite E1.
        replace (Z.to_nat (n - r)) with (Z.to_nat n - Z.to_nat r)%nat by lia.
        apply binom_sym. lia.
  - replace (Z.to_nat (n - r)) with (Z.to_nat n - Z.to_nat r)%nat by lia.
    apply binom_fact. lia.
  - unfold ncr_factors. cbn [fst]. rewrite py_range_down, length_map, length_seq.
    f_equal. lia.
  - unfold ncr_factors. cbn [snd]. rewrite py_range_up, length_map, length_seq.
    f_equal. lia.
  - unfold ncr. replace (Z.min 0 (n - 0)) with 0 by lia. reflexivity.
Qed.

(** Outside that range the code does not return: with [n < r] the minimum
    is negative, the numerator range is empty and [reduce] raises.  This is
    why [__init__] needs at least two dots. *)
Example ncr_one_dot : ncr 1 2 = inl TypeError /\ ncr 0 2 = inl TypeError /\ ncr 2 2 = inr 1.
Proof. repeat split. Qed.

(** ** The enumeration and its sort *)

Lemma py_range_nat (k : nat) : py_range 0 (Z.of_nat k) 1 = map Z.of_nat (seq 0 k).
Proof.
  rewrite py_range_up. replace (Z.to_nat (Z.of_nat k - 0)) with k by lia.
  apply map_ext. intros; lia.
Qed.

Lemma py_sum_fold_right (l : list Z) : py_sum l = fold_right Z.add 0 l.
Proof.
  unfold py_sum.
  assert (G : forall acc, fold_left Z.add l acc = acc + fold_right Z.add 0 l).
  { induction l as [|x l IH]; intros acc; cbn; [lia | rewrite IH; lia]. }
  rewrite G. lia.
Qed.

Lemma py_sum_cons (x : Z) (l : list Z) : py_sum (x :: l) = x + py_sum l.
Proof. now rewrite !py_sum_fold_right. Qed.

Lemma py_sum_nonneg (l : list Z) : Forall (fun x => 0 <= x) l -> 0 <= py_sum l.
Proof.
  induction 1 as [|x l Hx _ IH].
  - unfold py_sum; cbn; lia.
  - rewrite py_sum_cons. lia.
Qed.

Lemma py_sum_zeros (n : nat) : py_sum (repeat 0 n) = 0.
Proof.
  induction n as [|n IH]; [reflexivity|].
  cbn [repeat]. rewrite py_sum_cons. lia.
Qed.

Lemma length_flat_map_const {A B : Type} (f : A -> list B) (c : nat) (l : list A) :
  (forall x, length (f x) = c) -> length (flat_map f l) = (length l * c)%nat.
Proof.
  intros Hf. induction l as [|x l IH]; cbn; [reflexivity|].
  rewrite length_app, Hf, IH. reflexivity.
Qed.

Lemma length_product {A : Type} (xs : list A) (n : nat) :
  length (product xs n) = (length xs ^ n)%nat.
Proof.
  induction n as [|n IH]; [reflexivity|].
  cbn [product Nat.pow].
  apply length_flat_map_const. intros x. now rewrite length_map.
Qed.

Lemma product_rows {A : Type} (xs : list A) (n : nat) :
  Forall (fun v => length v = n /\ Forall (fun x => In x xs) v) (product xs n).
Proof.
  induction n as [|n IH]; cbn [product].
  - repeat constructor.
  - apply Forall_forall. intros v Hv.
    apply in_flat_map in Hv. destruct Hv as [x [Hx Hv]].
    apply in_map_iff in Hv. destruct Hv as [v' [<- Hv']].
    rewrite Forall_forall in IH. destruct (IH v' Hv') as [Hl Hall].
    split; [cbn; now rewrite Hl | now constructor].
Qed.

Lemma product_head {A : Type} (x0 : A) (xs : list A) (n : nat) :
  exists tl, product (x0 :: xs) n = repeat x0 n :: tl.
Proof.
  induction n as [|n [tl IH]]; cbn [product].
  - now exists [].
  - cbn [flat_map]. rewrite IH. cbn [map app repeat]. eauto.
Qed.

Lemma insert_by_perm {A : Type} (key : A -> Z) (x : A) (l : list A) :
  Permutation (insert_by key x l) (x :: l).
Proof.
  induction l as [|y l IH]; cbn [insert_by]; [reflexivity|].
  destruct (key x <=? key y); [reflexivity|].
  rewrite IH. apply perm_swap.
Qed.

Lemma sorted_perm {A : Type} (key : A -> Z) (l : list A) :
  Permutation (sorted key l) l.
Proof.
  induction l as [|x l IH]; cbn; [constructor|].
  fold (sorted key l). rewrite insert_by_perm. now constructor.
Qed.

Lemma insert_by_sorted {A : Type} (key : A -> Z) (x : A) (l : list A) :
  Sorted (fun a b => key a <= key b) l ->
  Sorted (fun a b => key a <= key b) (insert_by key x l).
Proof.
  induction 1 as [|y l Hs IH Hhd]; cbn [insert_by].
  - repeat constructor.
  - destruct (Z.leb_spec (key x) (key y)) as [Hle|Hgt].
    + constructor; [now constructor | constructor; exact Hle].
    + constructor; [exact IH|].
      destruct l as [|z l]; cbn [insert_by].
      * constructor. lia.
      * inversion Hhd; subst.
        destruct (key x <=? key z); constructor; lia.
Qed.

Lemma sorted_is_sorted {A : Type} (key : A -> Z) (l : list A) :
  Sorted (fun a b => key a <= key b) (sorted key l).
Proof.
  induction l as [|x l IH]; cbn; [constructor|].
  now apply insert_by_sorted.
Qed.

Lemma insert_by_filter {A : Type} (key : A -> Z) (k : Z) (x : A) (l : list A) :
  filter (fun y => key y =? k) (insert_by key x l)
  = filter (fun y => key y =? k) (x :: l).
Proof.
  induction l as [|y l IH]; cbn [insert_by]; [reflexivity|].
  destruct (Z.leb_spec (key x) (key y)) as [Hle|Hgt]; [reflexivity|].
  cbn [filter] in *. rewrite IH.
  destruct (Z.eqb_spec (key y) k), (Z.eqb_spec (key x) k); try reflexivity; lia.
Qed.

(** Stability: the states of one total occupancy keep their relative order. *)
Lemma sorted_stable {A : Type} (key : A -> Z) (k : Z) (l : list A) :
  filter (fun y => key y =? k) (sorted key l) = filter (fun y => key y =? k) l.
Proof.
  induction l as [|x l IH]; cbn; [reflexivity|].
  fold (sorted key l). rewrite insert_by_filter. cbn [filter]. now rewrite IH.
Qed.

Lemma sorted_least_first {A : Type} (key : A -> Z) (x : A) (l : list A) :
  Forall (fun y => key x <= key y) l ->
  sorted key (x :: l) = x :: sorted key l.
Proof.
  intros Hall. cbn. fold (sorted key l).
  assert (Hs : Forall (fun y => key x <= key y) (sorted key l)).
  { rewrite Forall_forall in *. intros y Hy. apply Hall.
    eapply Permutation_in; [apply sorted_perm | exact Hy]. }
  destruct (sorted key l) as [|y t]; [reflexivity|].
  cbn [insert_by]. inversion Hs; subst.
  destruct (Z.leb_spec (key x) (key y)); [reflexivity | lia].
Qed.

Lemma length_sorted {A : Type} (key : A -> Z) (l : list A) :
  length (sorted key l) = length l.
Proof. apply Permutation_length, sorted_perm. Qed.

Lemma Forall_sorted {A : Type} (key : A -> Z) (P : A -> Prop) (l : list A) :
  Forall P l -> Forall P (sorted key l).
Proof.
  intros H. eapply Permutation_Forall; [symmetry; apply sorted_perm | exact H].
Qed.

Lemma built_basis_length (nd maxe : nat) :
  length (built_basis nd maxe) = (S maxe ^ nd)%nat.
Proof.
  unfold built_basis. rewrite length_sorted, length_product.
  replace (Z.of_nat maxe + 1) with (Z.of_nat (S maxe)) by lia.
  now rewrite py_range_nat, length_map, length_seq.
Qed.

Lemma built_basis_rows (nd maxe : nat) :
  Forall (fun v => length v = nd /\ Forall (fun x => 0 <= x <= Z.of_nat maxe) v)
         (built_basis nd maxe).
Proof.
  unfold built_basis. apply Forall_sorted.
  replace (Z.of_nat maxe + 1) with (Z.of_nat (S maxe)) by lia.
  rewrite py_range_nat.
  eapply Forall_impl; [|apply product_rows].
  intros v [Hl Hall]. split; [exact Hl|].
  eapply Forall_impl; [|exact Hall].
  cbn beta. intros x Hx. apply in_map_iff in Hx. destruct Hx as [k [<- Hk]].
  apply in_seq in Hk. lia.
Qed.

Lemma built_basis_head (nd maxe : nat) :
  exists tl, built_basis nd maxe = repeat 0 nd :: tl.
Proof.
  unfold built_basis.
  replace (Z.of_nat maxe + 1) with (Z.of_nat (S maxe)) by lia.
  rewrite py_range_nat.
  pose proof (product_rows (map Z.of_nat (seq 0 (S maxe))) nd) as Hrows.
  cbn [seq map] in *.
  destruct (product_head 0 (map Z.of_nat (seq 1 maxe)) nd) as [tl E].
  change (Z.of_nat 0) with 0 in *.
  rewrite E in *. inversion Hrows as [|? ? _ Htl]; subst.
  rewrite sorted_least_first; [eauto|].
  eapply Forall_impl; [|exact Htl].
  cbn beta. intros v [_ Hv]. rewrite py_sum_zeros.
  apply py_sum_nonneg. eapply Forall_impl; [|exact Hv].
  cbn beta. intros x [<-|Hx]; [lia|].
  apply in_map_iff in Hx. destruct Hx as [k [<- _]]. lia.
Qed.

Lemma built_basis_nonempty (nd maxe : nat) : built_basis nd maxe <> [].
Proof. destruct (built_basis_head nd maxe) as [tl ->]. discriminate. Qed.

(** ** Running the state transformer *)

Lemma run_getattr {A B : Type} (f : ClassicalDotSystem -> A) (k : A -> M B) (w : World) :
  (x <- getattr f ;; k x) w = k (f (self w)) w.
Proof. reflexivity. Qed.

Lemma run_getattr_some {A B : Type} (f : ClassicalDotSystem -> option A) (e : exn)
    (k : A -> M B) (w : World) (a : A) :
  f (self w) = Some a -> (x <- getattr_some f e ;; k x) w = k a w.
Proof. intros H. unfold bind, getattr_some. now rewrite H. Qed.

Lemma run_lift {A B : Type} (r : result A) (k : A -> M B) (w : World) (a : A) :
  r = inr a -> (x <- lift r ;; k x) w = k a w.
Proof. intros ->. reflexivity. Qed.

Lemma run_setattr {B : Type} (u : ClassicalDotSystem -> ClassicalDotSystem)
    (k : unit -> M B) (w : World) :
  (x <- setattr u ;; k x) w = k tt (mkWorld (u (self w)) (stdout w) (gs_evals w)).
Proof. reflexivity. Qed.

Lemma run_bind {A B : Type} (m : M A) (k : A -> M B) (w w' : World) (a : A) :
  m w = (inr a, w') -> (x <- m ;; k x) w = k a w'.
Proof. intros H. unfold bind. now rewrite H. Qed.

Lemma world_eta (w : World) : mkWorld (self w) (stdout w) (gs_evals w) = w.
Proof. now destruct w. Qed.

(** *** Properties kept by a run *)

Lemma preserves_ret {A : Type} (P : World -> Prop) (a : A) : preserves P (ret a).
Proof. intros w H. exact H. Qed.

Lemma preserves_raise {A : Type} (P : World -> Prop) (e : exn) :
  preserves P (@raise A e).
Proof. intros w H. exact H. Qed.

Lemma preserves_lift {A : Type} (P : World -> Prop) (r : result A) :
  preserves P (lift r).
Proof. intros w H. exact H. Qed.

Lemma preserves_getattr {A : Type} (P : World -> Prop) (f : ClassicalDotSystem -> A) :
  preserves P (getattr f).
Proof. intros w H. exact H. Qed.

Lemma preserves_getattr_some {A : Type} (P : World -> Prop)
    (f : ClassicalDotSystem -> option A) (e : exn) :
  preserves P (getattr_some f e).
Proof. intros w H. unfold getattr_some. now destruct (f (self w)). Qed.

Lemma preserves_bind {A B : Type} (P : World -> Prop) (m : M A) (k : A -> M B) :
  preserves P m -> (forall a, preserves P (k a)) -> preserves P (bind m k).
Proof.
  intros Hm Hk w H. unfold bind.
  specialize (Hm w H). destruct (m w) as [[e|a] w']; cbn in *.
  - exact Hm.
  - now apply Hk.
Qed.

Lemma preserves_for_each {A : Type} (P : World -> Prop) (xs : list A) (body : A -> M unit) :
  (forall x, preserves P (body x)) -> preserves P (for_each xs body).
Proof.
  intros Hb. induction xs as [|x t IH]; cbn [for_each].
  - apply preserves_ret.
  - apply preserves_bind; [apply Hb | intros _; exact IH].
Qed.

Lemma preserves_for_fold {A S : Type} (P : World -> Prop) (xs : list A)
    (body : A -> S -> M S) (s : S) :
  (forall x s', preserves P (body x s')) -> preserves P (for_fold xs body s).
Proof.
  intros Hb. revert s. induction xs as [|x t IH]; intros s; cbn [for_fold].
  - apply preserves_ret.
  - apply preserves_bind; [apply Hb | intros s'; apply IH].
Qed.

(** *** Runs from related worlds *)

Lemma respects_ret {A : Type} (R : World -> World -> Prop) (a : A) : respects R (ret a).
Proof. intros w1 w2 H. now split. Qed.

Lemma respects_raise {A : Type} (R : World -> World -> Prop) (e : exn) :
  respects R (@raise A e).
Proof. intros w1 w2 H. now split. Qed.

Lemma respects_lift {A : Type} (R : World -> World -> Prop) (r : result A) :
  respects R (lift r).
Proof. intros w1 w2 H. now split. Qed.

Lemma respects_bind {A B : Type} (R : World -> World -> Prop) (m : M A) (k : A -> M B) :
  respects R m -> (forall a, respects R (k a)) -> respects R (bind m k).
Proof.
  intros Hm Hk w1 w2 H. unfold bind.
  destruct (Hm w1 w2 H) as [Hr Hw].
  destruct (m w1) as [[e1|a1] w1'], (m w2) as [[e2|a2] w2']; cbn in *;
    try discriminate.
  - injection Hr as ->. split; [reflexivity | exact Hw].
  - injection Hr as ->. now apply Hk.
Qed.

Lemma respects_for_fold {A S : Type} (R : World -> World -> Prop) (xs : list A)
    (body : A -> S -> M S) (s : S) :
  (forall x s', respects R (body x s')) -> respects R (for_fold xs body s).
Proof.
  intros Hb. revert s. induction xs as [|x t IH]; intros s; cbn [for_fold].
  - apply respects_ret.
  - apply respects_bind; [apply Hb | intros s'; apply IH].
Qed.

Lemma respects_getattr {A : Type} (R : World -> World -> Prop)
    (f : ClassicalDotSystem -> A) :
  (forall w1 w2, R w1 w2 -> f (self w1) = f (self w2)) -> respects R (getattr f).
Proof. intros Hf w1 w2 H. unfold getattr; cbn. split; [f_equal; now apply Hf | exact H]. Qed.

Lemma respects_getattr_some {A : Type} (R : World -> World -> Prop)
    (f : ClassicalDotSystem -> option A) (e : exn) :
  (forall w1 w2, R w1 w2 -> f (self w1) = f (self w2)) -> respects R (getattr_some f e).
Proof.
  intros Hf w1 w2 H. unfold getattr_some. rewrite (Hf w1 w2 H).
  destruct (f (self w2)); now split.
Qed.

(** ** Lists updated by index *)

Lemma length_list_set {A : Type} (l : list A) (i : nat) (v : A) :
  length (list_set l i v) = length l.
Proof.
  revert i. induction l as [|x l IH]; intros [|i]; cbn; auto.
Qed.

Lemma nth_list_set {A : Type} (l : list A) (i j : nat) (v d : A) :
  nth j (list_set l i v) d
  = if ((j =? i) && (i <? length l))%nat then v else nth j l d.
Proof.
  revert i j. induction l as [|x l IH]; intros i j.
  - cbn. rewrite andb_false_r. reflexivity.
  - destruct i as [|i], j as [|j]; cbn [list_set nth length]; try reflexivity.
    rewrite IH. reflexivity.
Qed.

Lemma getitem_nth {A : Type} (l : list A) (i : nat) (d : A) :
  (i < length l)%nat -> getitem l i = inr (nth i l d).
Proof.
  intros H. unfold getitem.
  rewrite (nth_error_nth' l d H). reflexivity.
Qed.

Lemma setrow_ok {A B : Type} (cast : B -> A) (a : list (list A)) (i : nat) (v : list B) :
  (i < length a)%nat -> length v = length (nth i a []) ->
  setrow cast a i v = inr (list_set a i (map cast v)).
Proof.
  intros Hi Hv. unfold setrow.
  rewrite (getitem_nth a i [] Hi). cbn [rbind].
  unfold broadcast_to. rewrite Hv, Nat.eqb_refl. reflexivity.
Qed.

Lemma map_nth_seq {A B : Type} (f : A -> B) (l : list A) (d : A) :
  map (fun i => f (nth i l d)) (seq 0 (length l)) = map f l.
Proof.
  induction l as [|x l IH]; [reflexivity|].
  cbn [length seq map nth]. f_equal.
  rewrite <- seq_shift, map_map. exact IH.
Qed.

Lemma nth_ext_all {A : Type} (l l' : list A) (d : A) :
  length l = length l' -> (forall j, nth j l d = nth j l' d) -> l = l'.
Proof. intros Hl Hn. apply (nth_ext l l' d d Hl). intros; apply Hn. Qed.

(** ** The Coulomb terms of one state *)

Lemma combinations_0 {A : Type} (l : list A) : combinations l 0 = [[]].
Proof. now destruct l. Qed.

Lemma combinations_1 {A : Type} (l : list A) :
  combinations l 1 = map (fun y => [y]) l.
Proof.
  induction l as [|y l IH]; [reflexivity|].
  cbn [combinations map] in *. rewrite IH, combinations_0. reflexivity.
Qed.

Lemma mapM_app {A B : Type} (f : A -> result B) (l1 l2 : list A) (r1 r2 : list B) :
  mapM f l1 = inr r1 -> mapM f l2 = inr r2 -> mapM f (l1 ++ l2) = inr (r1 ++ r2).
Proof.
  revert r1. induction l1 as [|x l1 IH]; intros r1 H1 H2; cbn [mapM app] in *.
  - injection H1 as <-. exact H2.
  - destruct (f x) as [e|y]; cbn [rbind] in *; [discriminate|].
    destruct (mapM f l1) as [e|ys]; cbn [rbind] in *; [discriminate|].
    injection H1 as <-. rewrite (IH ys eq_refl H2). reflexivity.
Qed.

Lemma mapM_inr {A B : Type} (f : A -> result B) (g : A -> B) (l : list A) :
  (forall x, In x l -> f x = inr (g x)) -> mapM f l = inr (map g l).
Proof.
  induction l as [|x l IH]; intros H; cbn [mapM map]; [reflexivity|].
  rewrite (H x (or_introl eq_refl)). cbn [rbind].
  rewrite IH by (intros; apply H; now right). reflexivity.
Qed.

Lemma mapM_dot_star (row : list Z) :
  mapM dot_star (combinations row 2) = inr (pairwise row).
Proof.
  induction row as [|x t IH]; [reflexivity|].
  cbn [combinations pairwise].
  apply mapM_app; [|exact IH].
  rewrite combinations_1, map_map.
  rewrite (mapM_inr _ (fun v => match v with [a; b] => a * b | _ => 0 end)).
  - rewrite map_map. reflexivity.
  - intros v Hv. apply in_map_iff in Hv. destruct Hv as [y [<- _]]. reflexivity.
Qed.

Lemma pair_indices_S (n : nat) :
  pair_indices (S n)
  = map (fun b => (0%nat, b)) (seq 1 n)
    ++ map (fun ab => (S (fst ab), S (snd ab))) (pair_indices n).
Proof.
  unfold pair_indices. cbn [seq flat_map].
  replace (S n - 1)%nat with n by lia. f_equal.
  rewrite <- seq_shift, flat_map_concat_map, map_map.
  rewrite flat_map_concat_map, concat_map, map_map. f_equal.
  apply map_ext. intros a.
  replace (S n - S (S a))%nat with (n - S a)%nat by lia.
  rewrite <- (seq_shift _ (S a)), !map_map. reflexivity.
Qed.

Lemma pairwise_pair_products (l : list Z) : pairwise l = pair_products l.
Proof.
  induction l as [|x t IH]; [reflexivity|].
  unfold pair_products in *. cbn [length pairwise].
  rewrite pair_indices_S, map_app, !map_map. cbn [fst snd nth].
  rewrite <- IH. f_equal.
  rewrite <- seq_shift, map_map.
  symmetry. apply (map_nth_seq (Z.mul x) t 0).
Qed.

Lemma binom_0 (n : nat) : binom n 0 = 1%nat.
Proof. now destruct n. Qed.

Lemma binom_1 (n : nat) : binom n 1 = n.
Proof.
  induction n as [|n IH]; [reflexivity|].
  change (binom (S n) 1) with (binom n 0 + binom n 1)%nat.
  rewrite binom_0, IH. reflexivity.
Qed.

Lemma length_pairwise (l : list Z) : length (pairwise l) = binom (length l) 2.
Proof.
  induction l as [|x t IH]; [reflexivity|].
  cbn [pairwise length]. rewrite length_app, length_map, IH.
  change (binom (S (length t)) 2) with (binom (length t) 1 + binom (length t) 2)%nat.
  now rewrite binom_1.
Qed.

Lemma length_coulomb_row (row : list Z) :
  length (coulomb_row row) = binom (length row) 2.
Proof.
  unfold coulomb_row. rewrite length_map, <- pairwise_pair_products.
  apply length_pairwise.
Qed.

Lemma length_add_row (row : list Z) : length (add_row row) = length row.
Proof. unfold add_row, half_products. now rewrite !length_map. Qed.

(** ** What [makebasis] leaves *)

Lemma makebasis_body_run (w : World) (b : list (list Z)) (nd : nat)
    (ab : list (list Z)) (ce : list (list float64)) (i : nat) :
  basis (self w) = Some b ->
  (i < length b)%nat -> length ab = length b -> length ce = length b ->
  length (nth i b []) = nd ->
  length (nth i ab []) = nd -> length (nth i ce []) = binom nd 2 ->
  makebasis_body i (loop_world w ab ce)
  = (inr tt, loop_world w (list_set ab i (add_row (nth i b [])))
                          (list_set ce i (coulomb_row (nth i b [])))).
Proof.
  intros Hb Hi Hab Hce Hrow Habi Hcei. unfold makebasis_body.
  rewrite (run_getattr_some _ _ _ _ b) by exact Hb.
  rewrite (run_lift _ _ _ (nth i b [])) by (now apply getitem_nth).
  rewrite (run_getattr_some _ _ _ _ ab) by reflexivity.
  rewrite (run_lift _ _ _ (list_set ab i (add_row (nth i b [])))).
  2:{ unfold add_row. apply setrow_ok; [lia|].
      unfold half_products. rewrite length_map. lia. }
  rewrite run_setattr.
  rewrite (run_getattr_some _ _ _ _ b) by exact Hb.
  rewrite (run_lift _ _ _ (nth i b [])) by (now apply getitem_nth).
  rewrite (run_lift _ _ _ (pair_products (nth i b []))).
  2:{ rewrite mapM_dot_star. f_equal. apply pairwise_pair_products. }
  rewrite (run_getattr_some _ _ _ _ ce) by reflexivity.
  rewrite (run_lift _ _ _ (list_set ce i (coulomb_row (nth i b [])))).
  2:{ unfold coulomb_row. apply setrow_ok; [lia|].
      rewrite <- pairwise_pair_products, length_pairwise. congruence. }
  reflexivity.
Qed.

Lemma makebasis_loop (w : World) (b : list (list Z)) (nd : nat) :
  basis (self w) = Some b ->
  Forall (fun v => length v = nd) b ->
  forall (n k : nat) (ab : list (list Z)) (ce : list (list float64)),
    (k + n = length b)%nat -> length ab = length b -> length ce = length b ->
    (forall j, (j < length b)%nat -> length (nth j ab []) = nd) ->
    (forall j, (j < length b)%nat -> length (nth j ce []) = binom nd 2) ->
    exists ab' ce',
      for_each (seq k n) makebasis_body (loop_world w ab ce)
      = (inr tt, loop_world w ab' ce')
      /\ length ab' = length b /\ length ce' = length b
      /\ (forall j, nth j ab' [] =
                    if (k <=? j)%nat then add_row (nth j b []) else nth j ab [])
      /\ (forall j, nth j ce' [] =
                    if (k <=? j)%nat then coulomb_row (nth j b []) else nth j ce []).
Proof.
  intros Hb Hrows. induction n as [|n IH]; intros k ab ce Hk Hab Hce Hlab Hlce.
  - exists ab, ce. cbn [seq for_each]. unfold ret.
    repeat split; auto; intros j;
      destruct (Nat.leb_spec k j); try reflexivity;
      rewrite !nth_overflow by lia; reflexivity.
  - assert (Hi : (k < length b)%nat) by lia.
    assert (Hrk : length (nth k b []) = nd).
    { rewrite Forall_forall in Hrows. apply Hrows, nth_In, Hi. }
    cbn [seq for_each].
    erewrite run_bind.
    2:{ apply (makebasis_body_run w b nd); auto. }
    destruct (IH (S k) (list_set ab k (add_row (nth k b [])))
                 (list_set ce k (coulomb_row (nth k b []))))
      as (ab' & ce' & Hrun & Hl1 & Hl2 & Hn1 & Hn2).
    + lia.
    + now rewrite length_list_set.
    + now rewrite length_list_set.
    + intros j Hj. rewrite nth_list_set.
      destruct ((j =? k)%nat && (k <? length ab)%nat); [|auto].
      now rewrite length_add_row.
    + intros j Hj. rewrite nth_list_set.
      destruct ((j =? k)%nat && (k <? length ce)%nat); [|auto].
      rewrite length_coulomb_row. now rewrite Hrk.
    + exists ab', ce'. split; [exact Hrun|]. split; [exact Hl1|]. split; [exact Hl2|].
      split; intros j.
      * rewrite Hn1, nth_list_set.
        destruct (Nat.leb_spec (S k) j), (Nat.leb_spec k j); try lia; try reflexivity.
        -- destruct (Nat.eqb_spec j k), (Nat.ltb_spec k (length ab));
             cbn [andb]; try lia; subst; reflexivity.
        -- destruct (Nat.eqb_spec j k); [lia | reflexivity].
      * rewrite Hn2, nth_list_set.
        destruct (Nat.leb_spec (S k) j), (Nat.leb_spec k j); try lia; try reflexivity.
        -- destruct (Nat.eqb_spec j k), (Nat.ltb_spec k (length ce));
             cbn [andb]; try lia; subst; reflexivity.
        -- destruct (Nat.eqb_spec j k); [lia | reflexivity].
Qed.

Lemma built_basis_row_length (nd maxe : nat) :
  Forall (fun v => length v = nd) (built_basis nd maxe).
Proof.
  eapply Forall_impl; [|apply built_basis_rows]. now intros v [H _].
Qed.

Lemma makebasis_run (w : World) :
  length (W (self w)) = binom (ndots (self w)) 2 ->
  makebasis w = (inr tt, mkWorld (built_state (self w)) (stdout w) (gs_evals w)).
Proof.
  intros HW. unfold makebasis.
  rewrite !run_getattr. cbv zeta.
  set (b := built_basis (ndots (self w)) (maxelectrons (self w))).
  change (sorted py_sum _) with b.
  rewrite run_setattr. cbn [self stdout gs_evals].
  rewrite (run_getattr_some _ _ _ _ b) by reflexivity.
  rewrite (run_lift _ _ _ (map py_sum b)).
  2:{ unfold np_sum_axis1. pose proof (built_basis_nonempty (ndots (self w)) (maxelectrons (self w))).
      fold b in H. destruct b; [contradiction | reflexivity]. }
  rewrite run_setattr. cbn [self stdout gs_evals].
  rewrite (run_getattr_some _ _ _ _ (map py_sum b)) by reflexivity.
  rewrite run_setattr. cbn [self stdout gs_evals]. rewrite length_map.
  rewrite (run_getattr_some _ _ _ _ b) by reflexivity.
  rewrite run_setattr. cbn [self stdout gs_evals].
  rewrite (run_getattr_some _ _ _ _ b) by reflexivity.
  rewrite run_getattr, run_setattr. cbn [self stdout gs_evals].
  rewrite (run_getattr_some _ _ _ _ (length b)) by reflexivity.
  set (w1 := mkWorld (set_Nt (Some (length b)) (set_nbasis (Some (map py_sum b))
                        (set_basis (Some b) (self w)))) (stdout w) (gs_evals w)).
  pose proof (built_basis_row_length (ndots (self w)) (maxelectrons (self w))) as Hrows.
  fold b in Hrows.
  destruct (makebasis_loop w1 b (ndots (self w)) eq_refl Hrows (length b) 0%nat b
              (repeat (repeat f64_zero (length (W (self w)))) (length b)))
    as (ab' & ce' & Hrun & Hl1 & Hl2 & Hn1 & Hn2).
  - reflexivity.
  - reflexivity.
  - apply repeat_length.
  - intros j Hj. rewrite Forall_forall in Hrows. apply Hrows, nth_In, Hj.
  - intros j Hj. rewrite (nth_indep _ [] (repeat f64_zero (length (W (self w)))))
      by (now rewrite repeat_length).
    rewrite nth_repeat, repeat_length. exact HW.
  - assert (E1 : ab' = map add_row b).
    { apply (nth_ext_all _ _ []); [now rewrite length_map|].
      intros j. rewrite Hn1. cbn [Nat.leb].
      exact (eq_sym (map_nth add_row b [] j)). }
    assert (E2 : ce' = map coulomb_row b).
    { apply (nth_ext_all _ _ []); [now rewrite length_map|].
      intros j. rewrite Hn2. cbn [Nat.leb].
      exact (eq_sym (map_nth coulomb_row b [] j)). }
    subst ab' ce'.
    transitivity (for_each (seq 0 (length b)) makebasis_body
                    (loop_world w1 b (repeat (repeat f64_zero (length (W (self w)))) (length b))));
      [reflexivity | rewrite Hrun; reflexivity].
Qed.

Lemma preserves_setattr (P : World -> Prop)
    (u : ClassicalDotSystem -> ClassicalDotSystem) :
  (forall w, P w -> P (mkWorld (u (self w)) (stdout w) (gs_evals w))) ->
  preserves P (setattr u).
Proof. intros H w Hw. now apply H. Qed.

Lemma preserves_run {A : Type} (P : World -> Prop) (m : M A) (w : World) :
  preserves P m -> P w -> P (snd (m w)).
Proof. intros H. apply H. Qed.

Ltac preserve_step :=
  first
    [ apply preserves_ret
    | apply preserves_raise
    | apply preserves_lift
    | apply preserves_getattr
    | apply preserves_getattr_some
    | apply preserves_setattr; let H := fresh in intros ? H; exact H
    | apply preserves_for_each; intros ?
    | apply preserves_for_fold; intros ? ?
    | apply preserves_bind; [|intros ?] ].

(** [makebasis] stores the sorted enumeration, whether or not the loop that
    fills the caches completes. *)
Lemma makebasis_sets_basis (w : World) :
  basis (self (snd (makebasis w)))
  = Some (built_basis (ndots (self w)) (maxelectrons (self w))).
Proof.
  unfold makebasis. rewrite !run_getattr. cbv zeta.
  rewrite run_setattr.
  apply (preserves_run
           (fun w' => basis (self w')
                      = Some (built_basis (ndots (self w)) (maxelectrons (self w)))));
    [|reflexivity].
  unfold makebasis_body. repeat preserve_step.
Qed.

Lemma pair_indices_In (n a b : nat) :
  In (a, b) (pair_indices n) <-> (a < b < n)%nat.
Proof.
  unfold pair_indices. rewrite in_flat_map. split.
  - intros [a' [Ha Hb]]. apply in_seq in Ha. apply in_map_iff in Hb.
    destruct Hb as [b' [E Hb']]. injection E as <- <-. apply in_seq in Hb'. lia.
  - intros H. exists a. split; [apply in_seq; lia|].
    apply in_map_iff. exists b. split; [reflexivity | apply in_seq; lia].
Qed.

Lemma StronglySorted_app {A : Type} (R : A -> A -> Prop) (l1 l2 : list A) :
  StronglySorted R l1 -> StronglySorted R l2 ->
  (forall x y, In x l1 -> In y l2 -> R x y) ->
  StronglySorted R (l1 ++ l2).
Proof.
  induction 1 as [|x l1 Hs IH Hx]; intros H2 Hc; cbn [app]; [exact H2|].
  constructor.
  - apply IH; [exact H2 | intros; apply Hc; [now right | assumption]].
  - apply Forall_app. split; [exact Hx|].
    apply Forall_forall. intros y Hy. apply Hc; [now left | exact Hy].
Qed.

Lemma StronglySorted_map {A B : Type} (R : A -> A -> Prop) (R' : B -> B -> Prop)
    (f : A -> B) (l : list A) :
  (forall x y, R x y -> R' (f x) (f y)) ->
  StronglySorted R l -> StronglySorted R' (map f l).
Proof.
  intros Hf. induction 1 as [|x l Hs IH Hx]; cbn [map]; constructor; [exact IH|].
  apply Forall_map. eapply Forall_impl; [|exact Hx]. intros y. apply Hf.
Qed.

Lemma seq_StronglySorted (a n : nat) : StronglySorted lt (seq a n).
Proof.
  revert a. induction n as [|n IH]; intros a; cbn [seq]; constructor; [apply IH|].
  apply Forall_forall. intros y Hy. apply in_seq in Hy. lia.
Qed.

Lemma pair_indices_lex (n : nat) : StronglySorted pair_lex (pair_indices n).
Proof.
  induction n as [|n IH]; [constructor|].
  rewrite pair_indices_S. apply StronglySorted_app.
  - eapply StronglySorted_map; [|apply (seq_StronglySorted 1 n)].
    intros x y Hxy. right. cbn. lia.
  - eapply StronglySorted_map; [|exact IH].
    intros [a b] [a' b'] [H|[H1 H2]]; cbn in *; [left | right]; cbn; lia.
  - intros x y Hx Hy. apply in_map_iff in Hx. destruct Hx as [b [<- _]].
    apply in_map_iff in Hy. destruct Hy as [[a' b'] [<- _]]. left. cbn. lia.
Qed.

Lemma length_pair_indices (n : nat) : length (pair_indices n) = binom n 2.
Proof.
  pose proof (length_pairwise (repeat 0 n)) as H.
  rewrite pairwise_pair_products in H. unfold pair_products in H.
  now rewrite length_map, repeat_length in H.
Qed.

(** C2. Whatever the dimensions, [makebasis] stores a basis of exactly
    [(maxelectrons+1)^ndots] occupation vectors, each of length [ndots] with
    entries between 0 and [maxelectrons], in order of non-decreasing total
    occupancy, the states of one total occupancy keeping the order of the
    product enumeration; the double-dot preset with [maxelectrons = 3] has 16
    states. *)
Theorem makebasis_basis_spec (w : World) :
  exists b : list (list Z),
    basis (self (snd (makebasis w))) = Some b
    /\ length b = ((maxelectrons (self w) + 1) ^ ndots (self w))%nat
    /\ Forall (fun v => length v = ndots (self w)
                        /\ Forall (fun x => 0 <= x <= Z.of_nat (maxelectrons (self w))) v) b
    /\ Sorted (fun u v => py_sum u <= py_sum v) b
    /\ (forall k : Z,
          filter (fun v => py_sum v =? k) b
          = filter (fun v => py_sum v =? k)
                   (product (py_range 0 (Z.of_nat (maxelectrons (self w)) + 1) 1)
                            (ndots (self w))))
    /\ option_map (@length (list Z)) (basis doubledot) = Some 16%nat
    /\ Nt doubledot = Some 16%nat.
Proof.
  exists (built_basis (ndots (self w)) (maxelectrons (self w))).
  split; [apply makebasis_sets_basis|].
  split; [rewrite built_basis_length; f_equal; lia|].
  split; [apply built_basis_rows|].
  split; [apply sorted_is_sorted|].
  split; [intros k; apply sorted_stable|].
  split; vm_compute; reflexivity.
Qed.

Lemma makebasis_fields (w : World) :
  length (W (self w)) = binom (ndots (self w)) 2 ->
  fst (makebasis w) = inr tt
  /\ basis (self (snd (makebasis w)))
     = Some (built_basis (ndots (self w)) (maxelectrons (self w)))
  /\ add_basis (self (snd (makebasis w)))
     = Some (map add_row (built_basis (ndots (self w)) (maxelectrons (self w))))
  /\ coulomb_energy (self (snd (makebasis w)))
     = Some (map coulomb_row (built_basis (ndots (self w)) (maxelectrons (self w))))
  /\ Nt (self (snd (makebasis w)))
     = Some (length (built_basis (ndots (self w)) (maxelectrons (self w))))
  /\ ndots (self (snd (makebasis w))) = ndots (self w)
  /\ maxelectrons (self (snd (makebasis w))) = maxelectrons (self w).
Proof.
  intros HW. rewrite (makebasis_run w HW). cbn. repeat split.
Qed.

(** C4. After [makebasis] on an instance whose [W] has one entry per pair of
    dots, the stored basis is the sorted enumeration of all
    [(maxelectrons+1)^ndots] occupation vectors, and the Coulomb terms of
    every basis state [i] are a vector of length C(ndots, 2) that lists
    [occ[a] * occ[b]] (as the [float64] array holds them) over the pairs
    [(a, b)] of [pair_indices]: exactly the pairs [a < b < ndots], in
    lexicographic order, as many as [W] has entries. *)
Theorem makebasis_coulomb_terms (w : World) :
  length (W (self w)) = binom (ndots (self w)) 2 ->
  exists (b : list (list Z)) (ce : list (list float64)),
    fst (makebasis w) = inr tt
    /\ basis (self (snd (makebasis w))) = Some b
    /\ b = built_basis (ndots (self w)) (maxelectrons (self w))
    /\ length b = ((maxelectrons (self w) + 1) ^ ndots (self w))%nat
    /\ coulomb_energy (self (snd (makebasis w))) = Some ce
    /\ length ce = length b
    /\ (forall i : nat, (i < length b)%nat ->
          length (nth i ce []) = binom (ndots (self w)) 2
          /\ nth i ce []
             = map (fun ab => f64_of_Z (nth (fst ab) (nth i b []) 0
                                        * nth (snd ab) (nth i b []) 0))
                   (pair_indices (ndots (self w))))
    /\ (forall a c : nat, In (a, c) (pair_indices (ndots (self w)))
                          <-> (a < c < ndots (self w))%nat)
    /\ StronglySorted pair_lex (pair_indices (ndots (self w)))
    /\ length (pair_indices (ndots (self w))) = length (W (self w)).
Proof.
  intros HW.
  destruct (makebasis_fields w HW) as (Hr & Hb & _ & Hce & _).
  set (b := built_basis (ndots (self w)) (maxelectrons (self w))) in *.
  exists b, (map coulomb_row b).
  split; [exact Hr|]. split; [exact Hb|]. split; [reflexivity|].
  split; [unfold b; rewrite built_basis_length; f_equal; lia|].
  split; [exact Hce|].
  split; [apply length_map|].
  split; [|split; [intros; apply pair_indices_In|
                   split; [apply pair_indices_lex|
                           now rewrite length_pair_indices]]].
  intros i Hi.
  assert (Hrow : length (nth i b []) = ndots (self w)).
  { pose proof (built_basis_row_length (ndots (self w)) (maxelectrons (self w))) as H.
    rewrite Forall_forall in H. apply H, nth_In, Hi. }
  change (@nil float64) with (coulomb_row []).
  rewrite map_nth. split.
  - now rewrite length_coulomb_row, Hrow.
  - unfold coulomb_row, pair_products. now rewrite map_map, Hrow.
Qed.
(** ** The addition-energy weights *)

Lemma astype_half (k : Z) : astype_int (1 / 2 * inject_Z k) = Z.quot k 2.
Proof. destruct k; reflexivity. Qed.

Lemma sum_to_double (k : nat) : 2 * sum_to k = Z.of_nat k * (Z.of_nat k + 1).
Proof. induction k as [|k IH]; [reflexivity|]. cbn [sum_to]. lia. Qed.

Lemma half_product_sum_to (n : Z) :
  0 <= n -> Z.quot (n * (n + 1)) 2 = sum_to (Z.to_nat n).
Proof.
  intros Hn. pose proof (sum_to_double (Z.to_nat n)) as H.
  replace (Z.of_nat (Z.to_nat n)) with n in H by lia.
  rewrite <- H, Z.mul_comm. apply Z.quot_mul. lia.
Qed.

Lemma nth_add_row (row : list Z) (d : nat) :
  nth d (add_row row) 0 = Z.quot (nth d row 0 * (nth d row 0 + 1)) 2.
Proof.
  unfold add_row, half_products. rewrite map_map.
  rewrite <- astype_half.
  exact (map_nth (fun n => astype_int (1 / 2 * inject_Z (n * (n + 1)))) row 0 d).
Qed.

Lemma half_inject (x n : Z) :
  2 * x = n * (n + 1) -> (inject_Z x == (1 # 2) * inject_Z n * (inject_Z n + 1))%Q.
Proof.
  intros H.
  unfold Qeq, Qmult, Qplus, inject_Z. cbn [Qnum Qden].
  rewrite !Pos.mul_1_r, !Z.mul_1_r, Z.mul_1_l.
  change (Z.pos 2) with 2. lia.
Qed.

(** C7. After [makebasis] on an instance whose [W] has one entry per pair of
    dots, the stored basis is the sorted enumeration of all
    [(maxelectrons+1)^ndots] occupation vectors, and the addition-energy
    weight of dot [d] in state [i] is exactly [0.5 * n * (n + 1)] for the
    occupancy [n] of that dot, which is the sum [1 + 2 + ... + n]; the
    stored value is that integer. *)
Theorem makebasis_addition_weights (w : World) :
  length (W (self w)) = binom (ndots (self w)) 2 ->
  exists b ab : list (list Z),
    fst (makebasis w) = inr tt
    /\ basis (self (snd (makebasis w))) = Some b
    /\ b = built_basis (ndots (self w)) (maxelectrons (self w))
    /\ length b = ((maxelectrons (self w) + 1) ^ ndots (self w))%nat
    /\ add_basis (self (snd (makebasis w))) = Some ab
    /\ length ab = length b
    /\ (forall i d : nat, (i < length b)%nat -> (d < ndots (self w))%nat ->
          (inject_Z (nth d (nth i ab []) 0%Z)
           == (1 # 2) * inject_Z (nth d (nth i b []) 0%Z)
                      * (inject_Z (nth d (nth i b []) 0%Z) + 1))%Q
          /\ nth d (nth i ab []) 0 = sum_to (Z.to_nat (nth d (nth i b []) 0))
          /\ length (nth i ab []) = ndots (self w)).
Proof.
  intros HW.
  destruct (makebasis_fields w HW) as (Hr & Hb & Hab & _).
  set (b := built_basis (ndots (self w)) (maxelectrons (self w))) in *.
  exists b, (map add_row b).
  split; [exact Hr|]. split; [exact Hb|]. split; [reflexivity|].
  split; [unfold b; rewrite built_basis_length; f_equal; lia|].
  split; [exact Hab|].
  split; [apply length_map|].
  intros i d Hi Hd.
  pose proof (built_basis_rows (ndots (self w)) (maxelectrons (self w))) as Hrows.
  fold b in Hrows. rewrite Forall_forall in Hrows.
  destruct (Hrows (nth i b []) (nth_In b [] Hi)) as [Hlen Hocc].
  rewrite Forall_forall in Hocc.
  assert (Hn : 0 <= nth d (nth i b []) 0).
  { apply Hocc, nth_In. lia. }
  assert (Hrowi : nth i (map add_row b) [] = add_row (nth i b [])).
  { exact (map_nth add_row b [] i). }
  rewrite !Hrowi, nth_add_row.
  rewrite half_product_sum_to by exact Hn.
  split; [|split; [reflexivity | now rewrite length_add_row]].
  apply half_inject. rewrite sum_to_double. lia.
Qed.
(** ** Energy evaluation reads, and only reads *)

Lemma preserves_tick (P : World -> Prop) :
  (forall w, P w -> P (mkWorld (self w) (stdout w) (S (gs_evals w)))) ->
  preserves P tick.
Proof. intros H w Hw. now apply H. Qed.

Lemma preserves_emit (P : World -> Prop) (e : event) :
  (forall w, P w -> P (mkWorld (self w) (stdout w ++ [e]) (gs_evals w))) ->
  preserves P (emit e).
Proof. intros H w Hw. now apply H. Qed.

Lemma respects_tick (R : World -> World -> Prop) :
  (forall w1 w2, R w1 w2 ->
     R (mkWorld (self w1) (stdout w1) (S (gs_evals w1)))
       (mkWorld (self w2) (stdout w2) (S (gs_evals w2)))) ->
  respects R tick.
Proof. intros H w1 w2 Hw. split; [reflexivity | now apply H]. Qed.

Ltac model_field :=
  let H := fresh in
  intros ? ? H; unfold model_rel, same_model in H; decompose [and] H; assumption.

Ltac respect_step :=
  first
    [ apply respects_ret
    | apply respects_raise
    | apply respects_lift
    | apply respects_getattr; model_field
    | apply respects_getattr_some; model_field
    | apply respects_tick; let H := fresh in intros ? ? H; exact H
    | apply respects_for_fold; intros ? ?
    | apply respects_bind; [|intros ?] ].

Lemma calculate_energies_frame (g : list float64) (w0 : World) :
  preserves (fun w => self w = self w0 /\ stdout w = stdout w0)
            (calculate_energies g).
Proof. unfold calculate_energies, energies_body. cbv zeta. repeat preserve_step. Qed.

Lemma calculate_ground_state_frame (g : list float64) (w0 : World) :
  preserves (fun w => self w = self w0 /\ stdout w = stdout w0)
            (calculate_ground_state g).
Proof.
  unfold calculate_ground_state.
  apply preserves_bind; [apply preserves_tick; intros ? H; exact H | intros _].
  apply preserves_bind; [apply calculate_energies_frame | intros energies].
  apply preserves_bind; [apply preserves_getattr | intros [b|]];
    (apply preserves_bind; [apply preserves_lift | intros k]);
    [apply preserves_lift | apply preserves_raise].
Qed.

Lemma calculate_energies_respects (g : list float64) :
  respects model_rel (calculate_energies g).
Proof. unfold calculate_energies, energies_body. cbv zeta. repeat respect_step. Qed.

Lemma calculate_ground_state_respects (g : list float64) :
  respects model_rel (calculate_ground_state g).
Proof.
  unfold calculate_ground_state.
  apply respects_bind; [apply respects_tick; intros ? ? H; exact H | intros _].
  apply respects_bind; [apply calculate_energies_respects | intros energies].
  apply respects_bind; [apply respects_getattr; model_field | intros [b|]];
    (apply respects_bind; [apply respects_lift | intros k]);
    [apply respects_lift | apply respects_raise].
Qed.

Lemma same_model_refl (m : ClassicalDotSystem) : same_model m m.
Proof. unfold same_model. repeat split. Qed.

Lemma self_eq_model_rel (w1 w2 : World) : self w1 = self w2 -> model_rel w1 w2.
Proof. unfold model_rel. intros ->. apply same_model_refl. Qed.

(** C9. [calculate_energies] and [calculate_ground_state] leave every
    attribute of the instance as it was (the basis, [nbasis], [add_basis],
    [coulomb_energy], [mu0], [Eadd], [W] and [alpha] among them) and print
    nothing, for every input and whether or not they raise; a second call
    with the same input returns what the first returned. *)
Theorem energy_evaluation_frame (w : World) (g : list float64) :
  self (snd (calculate_energies g w)) = self w
  /\ stdout (snd (calculate_energies g w)) = stdout w
  /\ self (snd (calculate_ground_state g w)) = self w
  /\ stdout (snd (calculate_ground_state g w)) = stdout w
  /\ fst (calculate_energies g (snd (calculate_energies g w)))
     = fst (calculate_energies g w)
  /\ fst (calculate_ground_state g (snd (calculate_ground_state g w)))
     = fst (calculate_ground_state g w)
  /\ fst (calculate_energies g (snd (calculate_ground_state g w)))
     = fst (calculate_energies g w)
  /\ fst (calculate_ground_state g (snd (calculate_energies g w)))
     = fst (calculate_ground_state g w).
Proof.
  destruct (calculate_energies_frame g w w (conj eq_refl eq_refl)) as [He1 He2].
  destruct (calculate_ground_state_frame g w w (conj eq_refl eq_refl)) as [Hg1 Hg2].
  repeat split; try assumption.
  - apply calculate_energies_respects, self_eq_model_rel, He1.
  - apply calculate_ground_state_respects, self_eq_model_rel, Hg1.
  - apply calculate_energies_respects, self_eq_model_rel, Hg1.
  - apply calculate_ground_state_respects, self_eq_model_rel, He1.
Qed.

(** ** The energies of a built model *)

Lemma for_fold_run {A S : Type} (Inv : S -> Prop) (upd : A -> S -> S)
    (l : list A) (body : A -> S -> M S) (w : World) :
  (forall x s, In x l -> Inv s -> body x s w = (inr (upd x s), w) /\ Inv (upd x s)) ->
  forall s, Inv s ->
    for_fold l body s w = (inr (fold_left (fun s x => upd x s) l s), w).
Proof.
  induction l as [|x t IH]; intros Hb s Hs; cbn [for_fold fold_left]; [reflexivity|].
  destruct (Hb x s (or_introl eq_refl) Hs) as [Hrun Hinv].
  rewrite (run_bind _ _ _ _ _ Hrun).
  apply IH; [|exact Hinv].
  intros y s' Hy. apply Hb. now right.
Qed.

Lemma fold_list_set {A : Type} (e : nat -> A) (d : A) (n : nat) :
  forall (k : nat) (s : list A),
    (k + n <= length s)%nat ->
    length (fold_left (fun s i => list_set s i (e i)) (seq k n) s) = length s
    /\ forall j,
         nth j (fold_left (fun s i => list_set s i (e i)) (seq k n) s) d
         = if ((k <=? j) && (j <? k + n))%nat then e j else nth j s d.
Proof.
  induction n as [|n IH]; intros k s Hk; cbn [seq fold_left].
  - split; [reflexivity|]. intros j.
    destruct (Nat.leb_spec k j), (Nat.ltb_spec j (k + 0)); cbn [andb]; try reflexivity; lia.
  - destruct (IH (S k) (list_set s k (e k))) as [Hl Hn].
    { rewrite length_list_set. lia. }
    split; [now rewrite Hl, length_list_set|].
    intros j. rewrite Hn, nth_list_set.
    destruct (Nat.leb_spec (S k) j), (Nat.ltb_spec j (S k + n)),
             (Nat.leb_spec k j), (Nat.ltb_spec j (k + S n)),
             (Nat.eqb_spec j k), (Nat.ltb_spec k (length s));
      cbn [andb]; try reflexivity; try lia; now subst.
Qed.

Lemma np_dot_ok (a b : list float64) :
  length a = length b -> np_dot a b = inr (dot_acc a b).
Proof. intros H. unfold np_dot. now rewrite H, Nat.eqb_refl. Qed.

Lemma np_dot_mv_ok (al : list (list float64)) (g : list float64) :
  Forall (fun row => length row = length g) al ->
  np_dot_mv al g = inr (map (fun row => dot_acc row g) al).
Proof.
  intros H. unfold np_dot_mv. apply mapM_inr.
  intros row Hrow. rewrite Forall_forall in H. now apply np_dot_ok, H.
Qed.

Lemma np_add_ok (a b : list float64) :
  length a = length b ->
  np_add a b = inr (map (fun xy => f64_add (fst xy) (snd xy)) (combine a b)).
Proof. intros H. unfold np_add. now rewrite H, Nat.eqb_refl. Qed.

Lemma basis_built_fields (m : ClassicalDotSystem) :
  basis_built m ->
  basis m = Some (built_basis (ndots m) (maxelectrons m))
  /\ add_basis m = Some (map add_row (built_basis (ndots m) (maxelectrons m)))
  /\ coulomb_energy m = Some (map coulomb_row (built_basis (ndots m) (maxelectrons m)))
  /\ Nt m = Some (length (built_basis (ndots m) (maxelectrons m))).
Proof.
  intros (w0 & HW & _ & Hs).
  destruct (makebasis_fields w0 HW) as (_ & Hb & Hab & Hce & Hnt & Hnd & Hme).
  destruct Hs as (S1 & S2 & S3 & S4 & S5 & S6 & S7).
  rewrite <- S1, <- S2, <- S3, <- S5, <- S6, <- S7, Hnd, Hme.
  auto.
Qed.

(** The vector [tmp1] of [calculate_energies]. *)
Lemma tmp1_run (m : ClassicalDotSystem) (g : list float64) :
  well_shaped m -> length g = ngates m ->
  (ag <-- np_dot_mv (alpha m) g ;; s <-- np_add (mu0 m) ag ;; inr (np_neg s))
  = inr (code_potential m g)
  /\ length (code_potential m g) = ndots m.
Proof.
  intros (H1 & H2 & H3 & H4 & H5) Hg.
  rewrite np_dot_mv_ok.
  2:{ eapply Forall_impl; [|exact H5]. cbn beta. intros row ->. now symmetry. }
  cbn [rbind]. rewrite np_add_ok by (rewrite length_map; lia).
  cbn [rbind]. split; [reflexivity|].
  unfold code_potential, np_neg.
  rewrite !length_map, length_combine, length_map. lia.
Qed.

Lemma energies_body_run (w : World) (tmp1 : list float64) (i : nat) (s : list float64) :
  basis_built (self w) -> well_shaped (self w) ->
  length tmp1 = ndots (self w) ->
  (i < length (built_basis (ndots (self w)) (maxelectrons (self w))))%nat ->
  length s = length (built_basis (ndots (self w)) (maxelectrons (self w))) ->
  energies_body tmp1 i s w
  = (inr (list_set s i (code_energy (self w) tmp1
            (nth i (built_basis (ndots (self w)) (maxelectrons (self w))) []))), w).
Proof.
  intros Hbuilt (H1 & H2 & H3 & H4 & H5) Ht Hi Hs.
  destruct (basis_built_fields _ Hbuilt) as (Hb & Hab & Hce & Hnt).
  set (b := built_basis (ndots (self w)) (maxelectrons (self w))) in *.
  assert (Hrow : length (nth i b []) = ndots (self w)).
  { pose proof (built_basis_row_length (ndots (self w)) (maxelectrons (self w))) as H.
    rewrite Forall_forall in H. apply H, nth_In, Hi. }
  unfold energies_body. cbv zeta.
  rewrite (run_getattr_some _ _ _ _ b) by exact Hb.
  rewrite (run_lift _ _ _ (nth i b [])) by (now apply getitem_nth).
  rewrite (run_lift _ _ _ (dot_acc tmp1 (map f64_of_Z (nth i b [])))).
  2:{ apply np_dot_ok. rewrite length_map. lia. }
  rewrite (run_getattr_some _ _ _ _ (map coulomb_row b)) by exact Hce.
  rewrite (run_lift _ _ _ (coulomb_row (nth i b []))).
  2:{ rewrite (getitem_nth _ _ (coulomb_row [])) by (now rewrite length_map).
      now rewrite map_nth. }
  rewrite run_getattr.
  rewrite (run_lift _ _ _ (dot_acc (coulomb_row (nth i b [])) (W (self w)))).
  2:{ apply np_dot_ok. rewrite length_coulomb_row. congruence. }
  rewrite (run_getattr_some _ _ _ _ (map add_row b)) by exact Hab.
  rewrite (run_lift _ _ _ (add_row (nth i b []))).
  2:{ rewrite (getitem_nth _ _ (add_row [])) by (now rewrite length_map).
      now rewrite map_nth. }
  rewrite run_getattr.
  rewrite (run_lift _ _ _ (dot_acc (map f64_of_Z (add_row (nth i b []))) (Eadd (self w)))).
  2:{ apply np_dot_ok. rewrite length_map, length_add_row. lia. }
  unfold lift, setitem.
  destruct (Nat.ltb_spec i (length s)); [reflexivity | lia].
Qed.

(** The run of [calculate_energies] on a built, well-shaped model: the world
    is unchanged and entry [i] is the energy the loop body accumulates for
    state [i]. *)
Lemma calculate_energies_run (w : World) (g : list float64) :
  basis_built (self w) -> well_shaped (self w) -> length g = ngates (self w) ->
  exists es : list float64,
    calculate_energies g w = (inr es, w)
    /\ length es = length (built_basis (ndots (self w)) (maxelectrons (self w)))
    /\ forall i, (i < length es)%nat ->
         nth i es f64_zero
         = code_energy (self w) (code_potential (self w) g)
             (nth i (built_basis (ndots (self w)) (maxelectrons (self w))) []).
Proof.
  intros Hbuilt Hshape Hg.
  destruct (basis_built_fields _ Hbuilt) as (Hb & Hab & Hce & Hnt).
  destruct (tmp1_run (self w) g Hshape Hg) as [Htmp Hlen].
  set (b := built_basis (ndots (self w)) (maxelectrons (self w))) in *.
  set (e := fun i => code_energy (self w) (code_potential (self w) g) (nth i b [])).
  destruct (fold_list_set e f64_zero (length b) 0 (repeat f64_zero (length b))) as [Hl Hn].
  { rewrite repeat_length. lia. }
  exists (fold_left (fun s i => list_set s i (e i)) (seq 0 (length b)) (repeat f64_zero (length b))).
  split; [|split].
  - unfold calculate_energies. cbv zeta.
    rewrite (run_getattr_some _ _ _ _ (length b)) by exact Hnt.
    rewrite !run_getattr.
    destruct (np_dot_mv (alpha (self w)) g) as [e1|ag]; cbn [rbind] in Htmp; [discriminate|].
    rewrite (run_lift _ _ _ ag) by reflexivity.
    destruct (np_add (mu0 (self w)) ag) as [e2|s]; cbn [rbind] in Htmp; [discriminate|].
    rewrite (run_lift _ _ _ s) by reflexivity.
    injection Htmp as Htmp. rewrite Htmp.
    rewrite (run_getattr_some _ _ _ _ (length b)) by exact Hnt.
    erewrite run_bind; [reflexivity|].
    apply (for_fold_run (fun s => length s = length b)
             (fun i s => list_set s i (e i))).
    + intros i s' Hi Hs. apply in_seq in Hi. split.
      * apply energies_body_run; auto. fold b. lia.
      * now rewrite length_list_set.
    + apply repeat_length.
  - now rewrite Hl, repeat_length.
  - intros i Hi. rewrite Hl, repeat_length in Hi. rewrite Hn.
    destruct (Nat.leb_spec 0 i), (Nat.ltb_spec i (0 + length b)); cbn [andb];
      try lia. reflexivity.
Qed.


(** ** Dot products as sums *)

Lemma dot_acc_dot (a b : list float64) : dot_acc a b = dot a b.
Proof.
  unfold dot_acc, dot. generalize f64_zero as acc. revert b.
  induction a as [|x a IH]; intros [|y b] acc; cbn [combine fold_left dot_from fst snd];
    try reflexivity.
  apply IH.
Qed.

Lemma potential_pointwise (xs : list float64) :
  forall (rows : list (list float64)) (g : list float64) (n : nat),
    length xs = n -> length rows = n ->
    map f64_neg (map (fun xy => f64_add (fst xy) (snd xy))
                     (combine xs (map (fun row => dot_acc row g) rows)))
    = map (fun d => f64_neg (f64_add (nth d xs f64_zero) (dot (nth d rows []) g)))
          (seq 0 n).
Proof.
  induction xs as [|x xs IH]; intros rows g n Hx Hr.
  - subst n. reflexivity.
  - destruct rows as [|row rows]; [subst n; discriminate|].
    destruct n as [|n]; [discriminate|].
    cbn [length] in Hx, Hr.
    specialize (IH rows g n ltac:(lia) ltac:(lia)).
    cbn [seq]. rewrite <- seq_shift. cbn [map combine fst snd nth].
    rewrite (map_map S). cbn [nth]. rewrite dot_acc_dot. f_equal. exact IH.
Qed.

Lemma code_potential_spec (m : ClassicalDotSystem) (g : list float64) :
  well_shaped m -> code_potential m g = effective_potential m g.
Proof.
  intros (H1 & _ & _ & H4 & _).
  unfold code_potential, effective_potential, np_neg.
  now apply potential_pointwise.
Qed.

Lemma code_energy_spec (m : ClassicalDotSystem) (g : list float64) (occ : list Z) :
  well_shaped m ->
  code_energy m (code_potential m g) occ
  = energy_formula m g occ (coulomb_row occ) (add_row occ).
Proof.
  intros Hs. unfold code_energy, energy_formula.
  now rewrite !dot_acc_dot, (code_potential_spec m g Hs).
Qed.

(** C1. On a model whose basis has been built and whose parameter arrays
    have their shapes, for every [float64] gate-voltage vector of length
    [ngates], [calculate_energies] returns normally, leaves the world as it
    was, and returns one energy per basis state, [(maxelectrons+1)^ndots] in
    all: entry [i] is, in [float64] arithmetic (every product and sum
    rounded, each dot product accumulated from [0.0] in index order), the
    dot product of [-(mu0 + alpha . gatevalues)] with [basis[i]], plus the
    dot product of [coulomb_energy[i]] with [W], plus the dot product of
    [add_basis[i]] with [Eadd]. *)
Theorem calculate_energies_spec (w : World) (g : list float64) :
  basis_built (self w) -> well_shaped (self w) -> length g = ngates (self w) ->
  exists (es : list float64) (b : list (list Z)) (ce : list (list float64))
         (ab : list (list Z)),
    calculate_energies g w = (inr es, w)
    /\ basis (self w) = Some b
    /\ length b = ((maxelectrons (self w) + 1) ^ ndots (self w))%nat
    /\ coulomb_energy (self w) = Some ce
    /\ add_basis (self w) = Some ab
    /\ length es = length b
    /\ forall i : nat, (i < length b)%nat ->
         nth i es f64_zero
         = energy_formula (self w) g (nth i b []) (nth i ce []) (nth i ab []).
Proof.
  intros Hbuilt Hshape Hg.
  destruct (calculate_energies_run w g Hbuilt Hshape Hg) as (es & Hrun & Hlen & Hes).
  destruct (basis_built_fields _ Hbuilt) as (Hb & Hab & Hce & Hnt).
  set (b := built_basis (ndots (self w)) (maxelectrons (self w))) in *.
  exists es, b, (map coulomb_row b), (map add_row b).
  split; [exact Hrun|]. split; [exact Hb|].
  split; [unfold b; rewrite built_basis_length; f_equal; lia|].
  repeat (split; [assumption|]).
  intros i Hi. rewrite Hes by lia.
  rewrite code_energy_spec by exact Hshape.
  replace (nth i (map coulomb_row b) []) with (coulomb_row (nth i b []))
    by (symmetry; exact (map_nth coulomb_row b [] i)).
  replace (nth i (map add_row b) []) with (add_row (nth i b []))
    by (symmetry; exact (map_nth add_row b [] i)).
  reflexivity.
Qed.

(** ** The first minimum *)

Lemma argmin_found_snoc_nan (p : list float64) (k : nat) (y : float64) :
  (k < length p)%nat ->
  is_nan (nth k p f64_zero) = true ->
  argmin_found p k -> argmin_found (p ++ [y]) k.
Proof.
  intros Hk Hn [[_ H]|[H _]]; [|rewrite H in Hn by exact Hk; discriminate].
  left. split.
  - now rewrite app_nth1 by exact Hk.
  - intros j Hj. rewrite app_nth1 by lia. now apply H.
Qed.

Lemma argmin_found_snoc_keep (p : list float64) (k : nat) (y : float64) :
  (k < length p)%nat ->
  is_nan (nth k p f64_zero) = false ->
  f64_le (nth k p f64_zero) y = true ->
  argmin_found p k -> argmin_found (p ++ [y]) k.
Proof.
  intros Hk Hn Hle [[H _]|(H1 & H2 & H3)]; [congruence|].
  right. rewrite length_app. cbn [length].
  rewrite (app_nth1 p [y] f64_zero Hk).
  split; [|split].
  - intros j Hj. destruct (Nat.eq_dec j (length p)) as [->|Hne].
    + rewrite app_nth2, Nat.sub_diag by lia. cbn [nth].
      exact (proj2 (f64_le_not_nan _ _ Hle)).
    + rewrite app_nth1 by lia. apply H1. lia.
  - intros j Hj. destruct (Nat.eq_dec j (length p)) as [->|Hne].
    + rewrite app_nth2, Nat.sub_diag by lia. exact Hle.
    + rewrite app_nth1 by lia. apply H2. lia.
  - intros j Hj. rewrite app_nth1 by lia. now apply H3.
Qed.

Lemma argmin_found_snoc_take (p : list float64) (k : nat) (y : float64) :
  (k < length p)%nat ->
  is_nan (nth k p f64_zero) = false ->
  f64_le (nth k p f64_zero) y = false ->
  argmin_found p k -> argmin_found (p ++ [y]) (length p).
Proof.
  intros Hk Hn Hle [[H _]|(H1 & H2 & H3)]; [congruence|].
  unfold argmin_found. rewrite length_app. cbn [length].
  rewrite app_nth2, Nat.sub_diag by lia. cbn [nth].
  destruct (is_nan y) eqn:Hy.
  - left. split; [reflexivity|].
    intros j Hj. rewrite app_nth1 by lia. now apply H1.
  - right.
    pose proof (f64_le_total _ _ Hn Hy Hle) as Hlt.
    split; [|split].
    + intros j Hj. destruct (Nat.eq_dec j (length p)) as [->|Hne].
      * rewrite app_nth2, Nat.sub_diag by lia. exact Hy.
      * rewrite app_nth1 by lia. apply H1. lia.
    + intros j Hj. destruct (Nat.eq_dec j (length p)) as [->|Hne].
      * rewrite app_nth2, Nat.sub_diag by lia. now apply f64_le_refl.
      * rewrite app_nth1 by lia.
        apply f64_lt_le, (f64_lt_le_trans _ _ _ Hlt). apply H2. lia.
    + intros j Hj. rewrite app_nth1 by lia.
      apply (f64_lt_le_trans _ _ _ Hlt). apply H2. lia.
Qed.

Lemma argmin_scan (t : list float64) :
  forall (p : list float64) (bi : nat) (bv : float64),
    (bi < length p)%nat -> nth bi p f64_zero = bv ->
    argmin_found p bi ->
    let r := fold_left argmin_step t (bi, bv, length p) in
    (fst (fst r) < length (p ++ t))%nat
    /\ argmin_found (p ++ t) (fst (fst r)).
Proof.
  induction t as [|y t IH]; intros p bi bv Hbi Hbv Hf.
  - cbn [fold_left fst]. rewrite app_nil_r. auto.
  - cbn [fold_left argmin_step].
    replace (p ++ y :: t) with ((p ++ [y]) ++ t) by (now rewrite <- app_assoc).
    replace (S (length p)) with (length (p ++ [y])) by (rewrite length_app; cbn; lia).
    destruct (is_nan bv) eqn:Hn; [|destruct (f64_le bv y) eqn:Hle].
    + apply IH.
      * rewrite length_app. cbn. lia.
      * now rewrite app_nth1 by lia.
      * apply argmin_found_snoc_nan; [exact Hbi | now rewrite Hbv | exact Hf].
    + apply IH.
      * rewrite length_app. cbn. lia.
      * now rewrite app_nth1 by lia.
      * apply argmin_found_snoc_keep; try assumption; now rewrite Hbv.
    + apply IH.
      * rewrite length_app. cbn. lia.
      * rewrite app_nth2, Nat.sub_diag by lia. reflexivity.
      * apply (argmin_found_snoc_take p bi); try assumption; now rewrite Hbv.
Qed.

Lemma argmin_spec (l : list float64) :
  l <> [] ->
  exists k : nat,
    argmin l = inr k /\ (k < length l)%nat /\ argmin_found l k.
Proof.
  destruct l as [|x t]; [congruence|]. intros _.
  exists (fst (fst (fold_left argmin_step t (0%nat, x, 1%nat)))).
  split; [reflexivity|].
  apply (argmin_scan t [x] 0%nat x).
  - cbn. lia.
  - reflexivity.
  - destruct (is_nan x) eqn:Hx.
    + left. split; [exact Hx | intros j Hj; lia].
    + right. split; [|split].
      * intros j Hj. cbn in Hj. replace j with 0%nat by lia. exact Hx.
      * intros j Hj. cbn in Hj. replace j with 0%nat by lia. now apply f64_le_refl.
      * intros j Hj. lia.
Qed.

Lemma argmin_found_no_nan (l : list float64) (k : nat) :
  (k < length l)%nat -> argmin_found l k ->
  (forall j, (j < length l)%nat -> is_nan (nth j l f64_zero) = false) ->
  (forall j, (j < length l)%nat ->
     f64_le (nth k l f64_zero) (nth j l f64_zero) = true)
  /\ (forall j, (j < k)%nat ->
        f64_lt (nth k l f64_zero) (nth j l f64_zero) = true).
Proof.
  intros Hk [[H _]|(_ & H2 & H3)] Hn; [|auto].
  rewrite Hn in H by exact Hk. discriminate.
Qed.

Lemma argmin_found_nan (l : list float64) (k : nat) :
  argmin_found l k ->
  (exists j, (j < length l)%nat /\ is_nan (nth j l f64_zero) = true) ->
  is_nan (nth k l f64_zero) = true
  /\ forall j, (j < k)%nat -> is_nan (nth j l f64_zero) = false.
Proof.
  intros [H|(H1 & _)] (j & Hj & Hn); [exact H|].
  rewrite H1 in Hn by exact Hj. discriminate.
Qed.

Lemma run_tick {B : Type} (k : unit -> M B) (w : World) :
  (x <- tick ;; k x) w = k tt (mkWorld (self w) (stdout w) (S (gs_evals w))).
Proof. reflexivity. Qed.

(** The run of [calculate_ground_state] on a built, well-shaped model. *)
Lemma calculate_ground_state_run (w : World) (g : list float64) :
  basis_built (self w) -> well_shaped (self w) -> length g = ngates (self w) ->
  exists (es : list float64) (k : nat),
    fst (calculate_energies g w) = inr es
    /\ argmin es = inr k
    /\ length es = length (built_basis (ndots (self w)) (maxelectrons (self w)))
    /\ (k < length es)%nat
    /\ argmin_found es k
    /\ calculate_ground_state g w
       = (inr (nth k (built_basis (ndots (self w)) (maxelectrons (self w))) []),
          mkWorld (self w) (stdout w) (S (gs_evals w))).
Proof.
  intros Hbuilt Hshape Hg.
  destruct (calculate_energies_run w g Hbuilt Hshape Hg) as (es & Hrun & Hlen & Hes).
  destruct (calculate_energies_run (mkWorld (self w) (stdout w) (S (gs_evals w))) g
              Hbuilt Hshape Hg) as (es' & Hrun' & _ & _).
  assert (Ees : es' = es).
  { pose proof (calculate_energies_respects g
                  (mkWorld (self w) (stdout w) (S (gs_evals w))) w
                  (self_eq_model_rel _ _ eq_refl)) as [H _].
    rewrite Hrun, Hrun' in H. cbn [fst] in H. now injection H. }
  subst es'.
  destruct (basis_built_fields _ Hbuilt) as (Hb & _).
  set (b := built_basis (ndots (self w)) (maxelectrons (self w))) in *.
  assert (Hne : es <> []).
  { intros ->. pose proof (built_basis_nonempty (ndots (self w)) (maxelectrons (self w))) as H.
    fold b in H. destruct b; [contradiction | discriminate]. }
  destruct (argmin_spec es Hne) as (k & Hk & Hlt & Hfound).
  exists es, k.
  split; [now rewrite Hrun|].
  repeat (split; [assumption|]).
  unfold calculate_ground_state.
  rewrite run_tick.
  rewrite (run_bind _ _ _ _ _ Hrun').
  rewrite run_getattr. cbn [self]. rewrite Hb.
  rewrite (run_lift _ _ _ k) by exact Hk.
  unfold lift. rewrite (getitem_nth b k []) by lia. reflexivity.
Qed.

(** C3. On a model whose basis has been built and whose parameter arrays
    have their shapes, for every [float64] gate-voltage vector of length
    [ngates], [calculate_ground_state] returns the basis state at an index
    [k] such that: when no energy is a NaN, the energy of [k] is minimal
    among the energies [calculate_energies] returns and every state before
    [k] has a strictly larger energy (among the states of minimal energy it
    is the one of lowest index); when some energy is a NaN, [k] is the first
    state whose energy is a NaN. *)
Theorem calculate_ground_state_spec (w : World) (g : list float64) :
  basis_built (self w) -> well_shaped (self w) -> length g = ngates (self w) ->
  exists (es : list float64) (b : list (list Z)) (k : nat),
    fst (calculate_energies g w) = inr es
    /\ basis (self w) = Some b
    /\ length es = length b
    /\ (k < length b)%nat
    /\ fst (calculate_ground_state g w) = inr (nth k b [])
    /\ ((forall j : nat, (j < length b)%nat -> is_nan (nth j es f64_zero) = false) ->
        (forall j : nat, (j < length b)%nat ->
           f64_le (nth k es f64_zero) (nth j es f64_zero) = true)
        /\ (forall j : nat, (j < k)%nat ->
              f64_lt (nth k es f64_zero) (nth j es f64_zero) = true))
    /\ ((exists j : nat, (j < length b)%nat /\ is_nan (nth j es f64_zero) = true) ->
        is_nan (nth k es f64_zero) = true
        /\ forall j : nat, (j < k)%nat -> is_nan (nth j es f64_zero) = false).
Proof.
  intros Hbuilt Hshape Hg.
  destruct (calculate_ground_state_run w g Hbuilt Hshape Hg)
    as (es & k & Hes & _ & Hlen & Hk & Hfound & Hrun).
  destruct (basis_built_fields _ Hbuilt) as (Hb & _).
  exists es, (built_basis (ndots (self w)) (maxelectrons (self w))), k.
  split; [exact Hes|]. split; [exact Hb|]. split; [exact Hlen|].
  split; [lia|]. split; [now rewrite Hrun|].
  split.
  - intros Hn.
    assert (Hn' : forall j, (j < length es)%nat -> is_nan (nth j es f64_zero) = false)
      by (intros j Hj; apply Hn; lia).
    destruct (argmin_found_no_nan es k Hk Hfound Hn') as [H1 H2].
    split; [intros j Hj; apply H1; lia | exact H2].
  - intros (j & Hj & Hn). apply (argmin_found_nan es k Hfound).
    exists j. split; [lia | exact Hn].
Qed.

Lemma Forall_repeat {A : Type} (P : A -> Prop) (x : A) (n : nat) :
  P x -> Forall P (repeat x n).
Proof. intros H. induction n; cbn; constructor; auto. Qed.

(** ** The energy of the empty state *)

Lemma f64_mul_zero_r (x : float64) :
  is_finite x = true -> exists s, f64_mul x f64_zero = S754_zero s.
Proof. destruct x as [s|s| |s m e]; intros H; try discriminate; eexists; reflexivity. Qed.

Lemma f64_mul_zero_l (x : float64) :
  is_finite x = true -> exists s, f64_mul f64_zero x = S754_zero s.
Proof. destruct x as [s|s| |s m e]; intros H; try discriminate; eexists; reflexivity. Qed.

Lemma f64_add_zero_zero (s : bool) : f64_add f64_zero (S754_zero s) = f64_zero.
Proof. destruct s; reflexivity. Qed.

Lemma dot_from_zeros_r (a b : list float64) :
  Forall (fun x => is_finite x = true) a ->
  Forall (fun y => y = f64_zero) b ->
  dot_from f64_zero a b = f64_zero.
Proof.
  intros Ha. revert b. induction Ha as [|x a Hx _ IH]; intros b Hb.
  - reflexivity.
  - destruct Hb as [|y b Hy Hb]; [reflexivity|]. subst y. cbn [dot_from].
    destruct (f64_mul_zero_r x Hx) as [s ->]. rewrite f64_add_zero_zero. now apply IH.
Qed.

Lemma dot_from_zeros_l (a b : list float64) :
  Forall (fun x => x = f64_zero) a ->
  Forall (fun y => is_finite y = true) b ->
  dot_from f64_zero a b = f64_zero.
Proof.
  intros Ha. revert b. induction Ha as [|x a Hx _ IH]; intros b Hb.
  - reflexivity.
  - destruct Hb as [|y b Hy Hb]; [reflexivity|]. subst x. cbn [dot_from].
    destruct (f64_mul_zero_l y Hy) as [s ->]. rewrite f64_add_zero_zero. now apply IH.
Qed.

Lemma coulomb_row_zeros (n : nat) :
  Forall (fun q => q = f64_zero) (coulomb_row (repeat 0 n)).
Proof.
  unfold coulomb_row, pair_products. rewrite map_map.
  apply Forall_map, Forall_forall. intros [a b] _. cbn [fst snd].
  rewrite !nth_repeat. reflexivity.
Qed.

Lemma add_row_zeros (n : nat) :
  Forall (fun q => q = f64_zero) (map f64_of_Z (add_row (repeat 0 n))).
Proof.
  unfold add_row, half_products. rewrite !map_map, map_repeat.
  apply Forall_repeat. reflexivity.
Qed.

Lemma energy_formula_zeros (m : ClassicalDotSystem) (g : list float64) (n : nat) :
  Forall (fun x => is_finite x = true) (effective_potential m g) ->
  Forall (fun x => is_finite x = true) (W m) ->
  Forall (fun x => is_finite x = true) (Eadd m) ->
  energy_formula m g (repeat 0%Z n) (coulomb_row (repeat 0%Z n))
                 (add_row (repeat 0%Z n)) = f64_zero.
Proof.
  intros Hp Hw He. unfold energy_formula, dot.
  rewrite dot_from_zeros_r, dot_from_zeros_l, dot_from_zeros_l; try assumption.
  - reflexivity.
  - apply add_row_zeros.
  - apply coulomb_row_zeros.
  - rewrite map_repeat. apply Forall_repeat. reflexivity.
Qed.

Lemma f64_mul_zero_any_r (x : float64) :
  (exists s, f64_mul x f64_zero = S754_zero s) \/ f64_mul x f64_zero = S754_nan.
Proof. destruct x as [s|s| |s m e]; cbn; eauto. Qed.

Lemma f64_mul_zero_any_l (x : float64) :
  (exists s, f64_mul f64_zero x = S754_zero s) \/ f64_mul f64_zero x = S754_nan.
Proof. destruct x as [s|s| |s m e]; cbn; eauto. Qed.

Lemma dot_from_nan (a b : list float64) : dot_from S754_nan a b = S754_nan.
Proof.
  revert b. induction a as [|x a IH]; intros [|y b]; cbn [dot_from]; try reflexivity.
  apply IH.
Qed.

Lemma dot_from_zeros_any_r (a b : list float64) :
  Forall (fun y => y = f64_zero) b ->
  dot_from f64_zero a b = f64_zero \/ dot_from f64_zero a b = S754_nan.
Proof.
  revert b. induction a as [|x a IH]; intros b Hb; [now left|].
  destruct Hb as [|y b Hy Hb]; [now left|]. subst y. cbn [dot_from].
  destruct (f64_mul_zero_any_r x) as [[s ->] | ->].
  - rewrite f64_add_zero_zero. now apply IH.
  - right. apply dot_from_nan.
Qed.

Lemma dot_from_zeros_any_l (a b : list float64) :
  Forall (fun x => x = f64_zero) a ->
  dot_from f64_zero a b = f64_zero \/ dot_from f64_zero a b = S754_nan.
Proof.
  intros Ha. revert b. induction Ha as [|x a Hx _ IH]; intros b; [now left|].
  destruct b as [|y b]; [now left|]. subst x. cbn [dot_from].
  destruct (f64_mul_zero_any_l y) as [[s ->] | ->].
  - rewrite f64_add_zero_zero. apply IH.
  - right. apply dot_from_nan.
Qed.

Lemma energy_formula_zeros_any (m : ClassicalDotSystem) (g : list float64) (n : nat) :
  energy_formula m g (repeat 0%Z n) (coulomb_row (repeat 0%Z n))
                 (add_row (repeat 0%Z n)) = f64_zero
  \/ energy_formula m g (repeat 0%Z n) (coulomb_row (repeat 0%Z n))
                    (add_row (repeat 0%Z n)) = S754_nan.
Proof.
  unfold energy_formula, dot.
  destruct (dot_from_zeros_any_r (effective_potential m g) (map f64_of_Z (repeat 0 n)))
    as [-> | ->]; [rewrite map_repeat; apply Forall_repeat; reflexivity | | now right].
  destruct (dot_from_zeros_any_l (coulomb_row (repeat 0 n)) (W m) (coulomb_row_zeros n))
    as [-> | ->]; [|now right].
  destruct (dot_from_zeros_any_l (map f64_of_Z (add_row (repeat 0 n))) (Eadd m)
              (add_row_zeros n)) as [-> | ->]; [now left | now right].
Qed.

(** C10. On a model whose basis has been built and whose parameter arrays
    have their shapes, the basis is not empty and its first state is the
    all-zeros occupation vector, and for every [float64] gate-voltage vector
    of length [ngates] [calculate_ground_state] returns a state of the
    basis.  The energy of the first state is [0.0] or a NaN, and it is
    [0.0] when the potentials [-(mu0 + alpha . gatevalues)] and the entries
    of [W] and [Eadd] are finite; when no energy is a NaN, the energy of
    the returned state is at most 0. *)
Theorem zero_state_energy (w : World) (g : list float64) :
  basis_built (self w) -> well_shaped (self w) -> length g = ngates (self w) ->
  exists (b : list (list Z)) (es : list float64) (k : nat),
    basis (self w) = Some b
    /\ (0 < length b)%nat
    /\ nth 0 b [] = repeat 0 (ndots (self w))
    /\ fst (calculate_energies g w) = inr es
    /\ length es = length b
    /\ (k < length b)%nat
    /\ fst (calculate_ground_state g w) = inr (nth k b [])
    /\ In (nth k b []) b
    /\ (nth 0 es f64_zero = f64_zero \/ nth 0 es f64_zero = S754_nan)
    /\ (Forall (fun x => is_finite x = true) (effective_potential (self w) g) ->
        Forall (fun x => is_finite x = true) (W (self w)) ->
        Forall (fun x => is_finite x = true) (Eadd (self w)) ->
        nth 0 es f64_zero = f64_zero)
    /\ ((forall j : nat, (j < length b)%nat -> is_nan (nth j es f64_zero) = false) ->
        nth 0 es f64_zero = f64_zero
        /\ f64_le (nth k es f64_zero) f64_zero = true).
Proof.
  intros Hbuilt Hshape Hg.
  destruct (calculate_ground_state_run w g Hbuilt Hshape Hg)
    as (es & k & Hes & Hk & Hlen & Hklt & Hfound & Hrun).
  destruct (calculate_energies_run w g Hbuilt Hshape Hg) as (es' & Hrun' & _ & Hform).
  rewrite Hrun' in Hes. cbn [fst] in Hes. injection Hes as ->.
  destruct (basis_built_fields _ Hbuilt) as (Hb & _).
  destruct (built_basis_head (ndots (self w)) (maxelectrons (self w))) as [tl Hhd].
  set (b := built_basis (ndots (self w)) (maxelectrons (self w))) in *.
  assert (Hpos : (0 < length b)%nat) by (rewrite Hhd; cbn; lia).
  assert (E0 : nth 0 es f64_zero
               = energy_formula (self w) g (repeat 0 (ndots (self w)))
                   (coulomb_row (repeat 0 (ndots (self w))))
                   (add_row (repeat 0 (ndots (self w))))).
  { rewrite (Hform 0%nat) by lia.
    rewrite code_energy_spec by exact Hshape.
    rewrite Hhd. reflexivity. }
  assert (Hany : nth 0 es f64_zero = f64_zero \/ nth 0 es f64_zero = S754_nan).
  { rewrite E0. apply energy_formula_zeros_any. }
  exists b, es, k.
  split; [exact Hb|]. split; [exact Hpos|].
  split; [now rewrite Hhd|].
  split; [now rewrite Hrun'|].
  split; [exact Hlen|]. split; [lia|].
  split; [now rewrite Hrun|].
  split; [apply nth_In; lia|].
  split; [exact Hany|].
  split.
  - intros Hp Hw He. rewrite E0. now apply energy_formula_zeros.
  - intros Hn.
    assert (Hn' : forall j, (j < length es)%nat -> is_nan (nth j es f64_zero) = false)
      by (intros j Hj; apply Hn; lia).
    assert (H0 : nth 0 es f64_zero = f64_zero).
    { destruct Hany as [H|H]; [exact H|].
      pose proof (Hn' 0%nat ltac:(lia)) as Hc. rewrite H in Hc. discriminate. }
    split; [exact H0|].
    destruct (argmin_found_no_nan es k Hklt Hfound Hn') as [Hmin _].
    pose proof (Hmin 0%nat ltac:(lia)) as H. now rewrite H0 in H.
Qed.
(** ** The sweep *)

(** C6. When the leading dimension of the grid differs from [ngates],
    [simulate_honeycomb] prints the mismatch message and returns: no
    attribute of the instance changes (so [hcgs], [honeycomb] and [deloc]
    receive nothing), nothing else is printed, and no ground state is
    evaluated. *)
Theorem simulate_honeycomb_mismatch (w : World) (p : grid)
    (verbose usediag multiprocess : bool) :
  nparams p <> ngates (self w) ->
  simulate_honeycomb p verbose usediag multiprocess w
  = (inr tt,
     mkWorld (self w)
             (stdout w ++ [Printed (mismatch_message (nparams p) (ngates (self w)))])
             (gs_evals w)).
Proof.
  intros Hne. unfold simulate_honeycomb. cbv zeta. rewrite run_getattr.
  destruct (Nat.eqb_spec (nparams p) (ngates (self w))) as [E|_]; [contradiction|].
  reflexivity.
Qed.

Lemma for_each_inv {A : Type} (l : list A) (body : A -> M unit) :
  forall (I : nat -> World -> Prop),
    (forall n x w, nth_error l n = Some x -> I n w ->
       fst (body x w) = inr tt /\ I (S n) (snd (body x w))) ->
    forall w, I 0%nat w ->
      fst (for_each l body w) = inr tt /\ I (length l) (snd (for_each l body w)).
Proof.
  induction l as [|x t IH]; intros I Hb w Hw; cbn [for_each length].
  - now split.
  - destruct (Hb 0%nat x w eq_refl Hw) as [Hr Hi].
    unfold bind. destruct (body x w) as [[e|[]] w1]; cbn [fst snd] in *; [discriminate|].
    apply (IH (fun n => I (S n))); [|exact Hi].
    intros n y w' Hn. now apply Hb.
Qed.

Lemma nth_error_seq (n i x : nat) :
  nth_error (seq 0 n) i = Some x -> x = i /\ (i < n)%nat.
Proof.
  intros H.
  assert (Hi : (i < length (seq 0 n))%nat) by (apply nth_error_Some; congruence).
  rewrite length_seq in Hi.
  split; [|exact Hi].
  rewrite (nth_error_nth' _ 0%nat) in H by (now rewrite length_seq).
  rewrite seq_nth in H by exact Hi. now injection H.
Qed.

Lemma nth_grid {A : Type} (f : nat -> nat -> A) (d : A) (c r : nat) :
  forall a i j, (i < r)%nat -> (j < c)%nat ->
    nth (i * c + j) (flat_map (fun i' => map (f i') (seq 0 c)) (seq a r)) d = f (a + i)%nat j.
Proof.
  induction r as [|r IH]; intros a i j Hi Hj; [lia|].
  cbn [seq flat_map].
  destruct i as [|i].
  - rewrite app_nth1 by (rewrite length_map, length_seq; lia).
    cbn [Nat.mul Nat.add].
    rewrite (nth_indep _ d (f a 0%nat)) by (rewrite length_map, length_seq; lia).
    rewrite (map_nth (f a) (seq 0 c) 0%nat j), seq_nth by lia.
    now rewrite Nat.add_0_r.
  - rewrite app_nth2 by (rewrite length_map, length_seq; lia).
    rewrite length_map, length_seq.
    replace (S i * c + j - c)%nat with (i * c + j)%nat by lia.
    rewrite IH by lia. f_equal. lia.
Qed.

Lemma length_param_iter (p : grid) :
  length (param_iter p) = (npointsx p * npointsy p)%nat.
Proof.
  unfold param_iter.
  rewrite (length_flat_map_const _ (npointsy p)).
  - now rewrite length_seq.
  - intros i. now rewrite length_map, length_seq.
Qed.

Lemma nth_param_iter (p : grid) (i j : nat) :
  (i < npointsx p)%nat -> (j < npointsy p)%nat ->
  nth (i * npointsy p + j) (param_iter p) [] = slice p i j.
Proof. intros Hi Hj. unfold param_iter. now rewrite nth_grid. Qed.

Lemma length_slice (p : grid) (i j : nat) : length (slice p i j) = nparams p.
Proof. unfold slice. now rewrite length_map, length_seq. Qed.

Lemma length_concat_const {A : Type} (c : nat) (l : list (list A)) :
  Forall (fun v => length v = c) l -> length (concat l) = (length l * c)%nat.
Proof.
  induction 1 as [|v l Hv _ IH]; cbn [concat length]; [reflexivity|].
  rewrite length_app, Hv, IH. lia.
Qed.

Lemma firstn_S_nth {A : Type} (l : list A) (k : nat) (d : A) :
  (k < length l)%nat -> firstn (S k) l = firstn k l ++ [nth k l d].
Proof.
  revert k. induction l as [|x l IH]; intros k Hk; cbn [length] in Hk; [lia|].
  destruct k as [|k]; [reflexivity|].
  rewrite !firstn_cons. cbn [nth app].
  rewrite (IH k) by lia. reflexivity.
Qed.

Lemma same_model_built (m m0 : ClassicalDotSystem) :
  same_model m m0 -> basis_built m0 -> basis_built m.
Proof.
  intros (S1 & S2 & S3 & S4 & S5 & S6 & S7 & S8 & S9 & S10 & S11 & S12)
         (w0 & HW & Hr & T1 & T2 & T3 & T4 & T5 & T6 & T7).
  exists w0. split; [exact HW|]. split; [exact Hr|].
  unfold same_basis_state. repeat split; congruence.
Qed.

Lemma same_model_shaped (m m0 : ClassicalDotSystem) :
  same_model m m0 -> well_shaped m0 -> well_shaped m.
Proof.
  intros (S1 & S2 & S3 & S4 & S5 & S6 & S7 & S8 & S9 & S10 & S11 & S12)
         (H1 & H2 & H3 & H4 & H5).
  unfold well_shaped. rewrite S1, S2, S7, S8, S9, S10. auto.
Qed.

(** From any world that holds the model [m0], [calculate_ground_state]
    returns the state [ground_state_of m0] names, and ticks the counter. *)
Lemma calculate_ground_state_any (m0 : ClassicalDotSystem) (w : World) (g : list float64) :
  basis_built m0 -> well_shaped m0 -> length g = ngates m0 ->
  same_model (self w) m0 ->
  exists st : list Z,
    ground_state_of m0 g = inr st
    /\ length st = ndots m0
    /\ calculate_ground_state g w
       = (inr st, mkWorld (self w) (stdout w) (S (gs_evals w))).
Proof.
  intros Hbuilt Hshape Hg Hsame.
  pose proof (same_model_built _ _ Hsame Hbuilt) as Hb'.
  pose proof (same_model_shaped _ _ Hsame Hshape) as Hs'.
  assert (Hg' : length g = ngates (self w)).
  { destruct Hsame as (_ & S2 & _). congruence. }
  destruct (calculate_ground_state_run w g Hb' Hs' Hg')
    as (es & k & _ & _ & Hlen & Hk & _ & Hrun).
  exists (nth k (built_basis (ndots (self w)) (maxelectrons (self w))) []).
  split; [|split; [|exact Hrun]].
  - unfold ground_state_of.
    pose proof (calculate_ground_state_respects g (world_of m0) w) as [H _].
    { unfold model_rel. cbn [self world_of].
      destruct Hsame as (S1 & S2 & S3 & S4 & S5 & S6 & S7 & S8 & S9 & S10 & S11 & S12).
      unfold same_model. repeat split; congruence. }
    rewrite H, Hrun. reflexivity.
  - pose proof (built_basis_row_length (ndots (self w)) (maxelectrons (self w))) as H.
    rewrite Forall_forall in H.
    assert (Hk' : (k < length (built_basis (ndots (self w)) (maxelectrons (self w))))%nat)
      by lia.
    rewrite (H _ (nth_In _ [] Hk')).
    now destruct Hsame as (S1 & _).
Qed.

Lemma Forall_firstn {A : Type} (P : A -> Prop) (n : nat) (l : list A) :
  Forall P l -> Forall P (firstn n l).
Proof.
  intros H. revert n. induction H as [|x l Hx _ IH]; intros [|n]; cbn [firstn];
    constructor; auto.
Qed.

Lemma firstn_app_exact {A : Type} (l1 l2 : list A) (n : nat) :
  length l1 = n -> firstn n (l1 ++ l2) = l1.
Proof.
  intros <-. rewrite firstn_app, Nat.sub_diag, firstn_all. cbn. apply app_nil_r.
Qed.

Lemma skipn_app_past {A : Type} (l1 l2 : list A) (n c : nat) :
  length l1 = n -> skipn (n + c) (l1 ++ l2) = skipn c l2.
Proof.
  intros <-. rewrite skipn_app.
  rewrite skipn_all2 by lia. cbn [app]. f_equal. lia.
Qed.

Lemma skipn_repeat_sub {A : Type} (x : A) (n c : nat) :
  skipn c (repeat x n) = repeat x (n - c).
Proof.
  revert c. induction n as [|n IH]; intros [|c]; cbn [repeat skipn Nat.sub];
    try reflexivity. apply IH.
Qed.

Section Sweep.

Variable m0 : ClassicalDotSystem.
Variable p : grid.
Hypothesis Hbuilt : basis_built m0.
Hypothesis Hshape : well_shaped m0.
Hypothesis Hparams : nparams p = ngates m0.

Lemma cell_state_any (w : World) (i j : nat) :
  (i < npointsx p)%nat -> (j < npointsy p)%nat -> same_model (self w) m0 ->
  length (nth (i * npointsy p + j) (cell_states m0 p) []) = ndots m0
  /\ calculate_ground_state (slice p i j) w
     = (inr (nth (i * npointsy p + j) (cell_states m0 p) []),
        mkWorld (self w) (stdout w) (S (gs_evals w))).
Proof.
  intros Hi Hj Hsame.
  destruct (calculate_ground_state_any m0 w (slice p i j) Hbuilt Hshape)
    as (st & Hgs & Hlen & Hrun); [now rewrite length_slice | exact Hsame |].
  assert (E : nth (i * npointsy p + j) (cell_states m0 p) [] = st).
  { unfold cell_states.
    set (F := fun g => match ground_state_of m0 g with inr st => st | inl _ => [] end).
    rewrite (nth_indep _ [] (F [])) by (rewrite length_map, length_param_iter; nia).
    rewrite map_nth, nth_param_iter by assumption.
    unfold F. now rewrite Hgs. }
  rewrite E. now split.
Qed.

Lemma length_cell_states : length (cell_states m0 p) = (npointsx p * npointsy p)%nat.
Proof. unfold cell_states. now rewrite length_map, length_param_iter. Qed.

Lemma cell_states_rows : Forall (fun v => length v = ndots m0) (cell_states m0 p).
Proof.
  apply Forall_forall. intros v Hv.
  destruct (In_nth _ _ [] Hv) as (k & Hk & <-).
  rewrite length_cell_states in Hk.
  assert (Hy : (0 < npointsy p)%nat) by nia.
  replace k with (k / npointsy p * npointsy p + k mod npointsy p)%nat
    by (rewrite Nat.mul_comm; symmetry; apply Nat.div_mod_eq).
  apply (cell_state_any (world_of m0)).
  - apply Nat.Div0.div_lt_upper_bound. nia.
  - apply Nat.mod_upper_bound. lia.
  - apply same_model_refl.
Qed.

Lemma sweep_cell_step (w : World) (i j : nat) :
  (i < npointsx p)%nat -> (j < npointsy p)%nat ->
  sweep_inv m0 p (i * npointsy p + j) w ->
  fst (sweep_cell p i j w) = inr tt
  /\ sweep_inv m0 p (S (i * npointsy p + j)) (snd (sweep_cell p i j w)).
Proof.
  intros Hi Hj [Hsame Hh].
  destruct (cell_state_any w i j Hi Hj Hsame) as [Hlen Hrun].
  set (k := (i * npointsy p + j)%nat) in *.
  set (st := nth k (cell_states m0 p) []) in *.
  set (pre := map f64_of_Z (concat (firstn k (cell_states m0 p)))) in *.
  assert (Hpre : length pre = (k * ndots m0)%nat).
  { unfold pre. rewrite length_map.
    rewrite (length_concat_const (ndots m0)).
    - rewrite length_firstn, length_cell_states. f_equal. nia.
    - apply Forall_firstn, cell_states_rows. }
  assert (Hk : (k < npointsx p * npointsy p)%nat) by (unfold k; nia).
  unfold sweep_cell.
  rewrite (run_bind _ _ _ _ _ Hrun).
  erewrite run_getattr_some by exact Hh.
  rewrite (run_lift _ _ _
             (FloatArray [npointsx p; npointsy p; ndots m0]
                (map f64_of_Z (concat (firstn (S k) (cell_states m0 p)))
                 ++ repeat f64_zero ((npointsx p * npointsy p - S k) * ndots m0)))).
  - split; [reflexivity|]. split; [|reflexivity].
    cbn [snd self setattr]. exact Hsame.
  - unfold setitem_ij.
    destruct (Nat.ltb_spec i (npointsx p)); [|lia].
    destruct (Nat.ltb_spec j (npointsy p)); [|lia].
    cbn [andb]. unfold broadcast_to. rewrite Hlen, Nat.eqb_refl. cbn [rbind].
    f_equal. f_equal. fold k.
    rewrite firstn_app_exact by exact Hpre.
    rewrite skipn_app_past by exact Hpre.
    rewrite skipn_repeat_sub.
    rewrite (firstn_S_nth _ _ []) by (now rewrite length_cell_states).
    rewrite concat_app, map_app. cbn [concat]. rewrite app_nil_r.
    fold st pre. rewrite <- app_assoc. f_equal. f_equal. f_equal.
    clearbody k st pre.
    replace (npointsx p * npointsy p - k)%nat
      with (S (npointsx p * npointsy p - S k)) by lia.
    cbn [Nat.mul]. now rewrite Nat.add_comm, Nat.add_sub.
Qed.

Lemma sweep_row_step (verbose : bool) (w : World) (i : nat) :
  (i < npointsx p)%nat ->
  sweep_inv m0 p (i * npointsy p) w ->
  fst (sweep_row p verbose i w) = inr tt
  /\ sweep_inv m0 p (S i * npointsy p) (snd (sweep_row p verbose i w)).
Proof.
  intros Hi Hinv. unfold sweep_row.
  set (w1 := snd ((if verbose
                   then emit (Tprinted (progress_message i (npointsx p)))
                   else ret tt) w)).
  assert (H1 : (if verbose
                then emit (Tprinted (progress_message i (npointsx p)))
                else ret tt) w = (inr tt, w1)) by (unfold w1; now destruct verbose).
  assert (Hinv1 : sweep_inv m0 p (i * npointsy p + 0) w1).
  { rewrite Nat.add_0_r. unfold w1. destruct verbose; exact Hinv. }
  rewrite (run_bind _ _ _ _ _ H1).
  destruct (for_each_inv (seq 0 (npointsy p)) (sweep_cell p i)
              (fun j => sweep_inv m0 p (i * npointsy p + j))) with (w := w1)
    as [Hr Hf].
  - intros n x w' Hn Hw'. apply nth_error_seq in Hn. destruct Hn as [-> Hn].
    rewrite Nat.add_succ_r. now apply sweep_cell_step.
  - exact Hinv1.
  - split; [exact Hr|].
    rewrite length_seq in Hf.
    replace (S i * npointsy p)%nat with (i * npointsy p + npointsy p)%nat by lia.
    exact Hf.
Qed.

Lemma sweep_sequential_run (verbose : bool) (w : World) :
  sweep_inv m0 p 0 w ->
  fst (sweep_sequential p verbose w) = inr tt
  /\ same_model (self (snd (sweep_sequential p verbose w))) m0
  /\ hcgs (self (snd (sweep_sequential p verbose w)))
     = Some (FloatArray [npointsx p; npointsy p; ndots m0]
               (map f64_of_Z (concat (cell_states m0 p)))).
Proof.
  intros Hinv. unfold sweep_sequential.
  destruct (for_each_inv (seq 0 (npointsx p)) (sweep_row p verbose)
              (fun i => sweep_inv m0 p (i * npointsy p))) with (w := w)
    as [Hr [Hs Hh]].
  - intros n x w' Hn Hw'. apply nth_error_seq in Hn. destruct Hn as [-> Hn].
    now apply sweep_row_step.
  - exact Hinv.
  - split; [exact Hr|]. split; [exact Hs|].
    rewrite Hh, length_seq.
    rewrite <- length_cell_states, firstn_all, Nat.sub_diag.
    cbn [Nat.mul repeat]. now rewrite app_nil_r.
Qed.

End Sweep.

Lemma pool_map_run {A B : Type} (f : A -> M B) (r : A -> B) (l : list A) :
  forall w : World,
    (forall x w', In x l -> self w' = self w -> fst (f x w') = inr (r x)) ->
    exists n : nat,
      pool_map f l w = (inr (map r l), mkWorld (self w) (stdout w) n).
Proof.
  induction l as [|x t IH]; intros w Hf.
  - exists (gs_evals w). cbn [pool_map map]. unfold ret. now rewrite world_eta.
  - cbn [pool_map map].
    rewrite (Hf x w (or_introl eq_refl) eq_refl).
    destruct (IH (mkWorld (self w) (stdout w) (gs_evals (snd (f x w))))) as [n Hn].
    { intros y w' Hy Hw'. apply Hf; [now right | exact Hw']. }
    rewrite Hn. exists n. reflexivity.
Qed.

Lemma In_param_iter (p : grid) (g : list float64) :
  In g (param_iter p) -> length g = nparams p.
Proof.
  unfold param_iter. intros H. apply in_flat_map in H. destruct H as (i & _ & H).
  apply in_map_iff in H. destruct H as (j & <- & _). apply length_slice.
Qed.

Lemma sweep_parallel_run (m0 : ClassicalDotSystem) (p : grid) (w : World) :
  basis_built m0 -> well_shaped m0 -> nparams p = ngates m0 ->
  same_model (self w) m0 ->
  fst (sweep_parallel p w) = inr tt
  /\ same_model (self (snd (sweep_parallel p w))) m0
  /\ hcgs (self (snd (sweep_parallel p w)))
     = Some (match cell_states m0 p with
             | [] => FloatArray [npointsx p; npointsy p; ndots m0] []
             | _ :: _ => IntArray [npointsx p; npointsy p; ndots m0]
                                  (concat (cell_states m0 p))
             end).
Proof.
  intros Hbuilt Hshape Hparams Hsame.
  pose proof (length_cell_states m0 p) as Hlen.
  pose proof (cell_states_rows m0 p Hbuilt Hshape Hparams) as Hrows.
  destruct (pool_map_run calculate_ground_state
              (fun g => match ground_state_of m0 g with inr st => st | inl _ => [] end)
              (param_iter p) w) as [n Hpool].
  { intros g w' Hg Hw'.
    destruct (calculate_ground_state_any m0 w' g Hbuilt Hshape)
      as (st & Hgs & _ & Hrun).
    - rewrite (In_param_iter p g Hg). exact Hparams.
    - now rewrite Hw'.
    - now rewrite Hrun, Hgs. }
  fold (cell_states m0 p) in Hpool.
  assert (Hnd : ndots (self w) = ndots m0) by (now destruct Hsame as (S1 & _)).
  unfold sweep_parallel.
  rewrite (run_bind _ _ _ _ _ Hpool).
  destruct (cell_states m0 p) as [|c cs] eqn:Ecells.
  - rewrite (run_lift _ _ _ (FloatArray [0%nat] [])) by reflexivity.
    rewrite run_getattr. cbn [self]. rewrite Hnd.
    rewrite (run_lift _ _ _ (FloatArray [npointsx p; npointsy p; ndots m0] [])).
    + split; [reflexivity|]. split; [exact Hsame | reflexivity].
    + unfold np_reshape. cbn [length fold_right] in *.
      replace (npointsx p * (npointsy p * (ndots m0 * 1)))%nat with 0%nat by nia.
      reflexivity.
  - rewrite (run_lift _ _ _ (IntArray [length (c :: cs); length c] (concat (c :: cs)))).
    2:{ unfold np_array.
        replace (forallb (fun r' => (length r' =? length c)%nat) (c :: cs)) with true;
          [reflexivity|].
        symmetry. apply forallb_forall. intros v Hv.
        rewrite Forall_forall in Hrows.
        rewrite (Hrows v Hv), (Hrows c (or_introl eq_refl)). apply Nat.eqb_refl. }
    rewrite run_getattr. cbn [self]. rewrite Hnd.
    rewrite (run_lift _ _ _ (IntArray [npointsx p; npointsy p; ndots m0] (concat (c :: cs)))).
    + split; [reflexivity|]. split; [exact Hsame | reflexivity].
    + unfold np_reshape.
      rewrite (length_concat_const (ndots m0)) by exact Hrows.
      rewrite Hlen. cbn [fold_right].
      replace (npointsx p * (npointsy p * (ndots m0 * 1)))%nat
        with (npointsx p * npointsy p * ndots m0)%nat by ring.
      now rewrite Nat.eqb_refl.
Qed.

Lemma sweep_finish_hcgs (verbose : bool) (h : option array) :
  preserves (fun w => hcgs (self w) = h) (sweep_finish verbose).
Proof.
  unfold sweep_finish. repeat preserve_step.
  destruct verbose; [apply preserves_emit; intros ? H; exact H | apply preserves_ret].
Qed.

Lemma simulate_honeycomb_hcgs (p : grid) (verbose usediag multiprocess : bool)
    (w : World) (h : option array) :
  nparams p = ngates (self w) ->
  let w1 := mkWorld (set_hcgs (Some (np_empty [npointsx p; npointsy p; ndots (self w)]))
                              (self w)) (stdout w) (gs_evals w) in
  let sweep := if multiprocess && have_mp
               then sweep_parallel p
               else sweep_sequential p verbose in
  fst (sweep w1) = inr tt ->
  hcgs (self (snd (sweep w1))) = h ->
  hcgs (self (snd (simulate_honeycomb p verbose usediag multiprocess w))) = h.
Proof.
  intros Hp w1 sweep Hr Hh. unfold simulate_honeycomb. cbv zeta.
  rewrite run_getattr, Hp, Nat.eqb_refl. cbn [negb].
  rewrite run_getattr, run_setattr. fold w1. fold sweep.
  unfold bind at 1.
  destruct (sweep w1) as [[e|[]] w2]; cbn [fst snd] in *; [discriminate|].
  now apply sweep_finish_hcgs.
Qed.

Lemma sweep_inv_start (m0 : ClassicalDotSystem) (p : grid) (w : World) :
  same_model (self w) m0 ->
  sweep_inv m0 p 0
    (mkWorld (set_hcgs (Some (np_empty [npointsx p; npointsy p; ndots (self w)]))
                       (self w)) (stdout w) (gs_evals w)).
Proof.
  intros Hsame. split; [exact Hsame|].
  assert (Hnd : ndots (self w) = ndots m0) by (now destruct Hsame as (S1 & _)).
  cbn [self hcgs set_hcgs]. rewrite Hnd. unfold np_empty.
  cbn [firstn concat map app fold_right]. rewrite Nat.sub_0_r.
  do 3 f_equal. ring.
Qed.

Lemma Forall2_map_r {A B : Type} (R : A -> B -> Prop) (f : A -> B) (l : list A) :
  (forall x, In x l -> R x (f x)) -> Forall2 R l (map f l).
Proof.
  induction l as [|x l IH]; intros H; cbn [map]; constructor.
  - apply H. now left.
  - apply IH. intros y Hy. apply H. now right.
Qed.

Lemma concat_cell {A : Type} (c : nat) (l : list (list A)) :
  Forall (fun v => length v = c) l ->
  forall k, (k < length l)%nat ->
    firstn c (skipn (k * c) (concat l)) = nth k l [].
Proof.
  induction 1 as [|v l Hv _ IH]; intros k Hk; cbn [length] in Hk; [lia|].
  cbn [concat]. destruct k as [|k].
  - cbn [Nat.mul skipn nth]. now apply firstn_app_exact.
  - cbn [Nat.mul nth]. rewrite skipn_app_past by exact Hv. apply IH. lia.
Qed.

(** X24. On a model whose basis has been built and whose parameter arrays
    have their shapes, and a grid whose leading dimension is [ngates], the
    sequential sweep and the worker-pool sweep both fill [hcgs] with the
    ground states of the cells in row-major order (x outer, y inner) under
    the shape [npointsx, npointsy, ndots]; the two arrays have the same
    shape and the same entries as numbers.  The sequential array holds
    floats; the pool array holds the integers of the basis (an empty float
    array when the grid has no cell). *)
Theorem sweep_strategies_agree (w : World) (p : grid) (verbose usediag : bool) :
  basis_built (self w) -> well_shaped (self w) -> nparams p = ngates (self w) ->
  have_mp = true ->
  exists cells : list (list Z),
    Forall2 (fun g st => fst (calculate_ground_state g w) = inr st) (param_iter p) cells
    /\ Forall (fun st => length st = ndots (self w)) cells
    /\ hcgs (self (snd (simulate_honeycomb p verbose usediag false w)))
       = Some (FloatArray [npointsx p; npointsy p; ndots (self w)]
                          (map f64_of_Z (concat cells)))
    /\ hcgs (self (snd (simulate_honeycomb p verbose usediag true w)))
       = Some (match cells with
               | [] => FloatArray [npointsx p; npointsy p; ndots (self w)] []
               | _ :: _ => IntArray [npointsx p; npointsy p; ndots (self w)] (concat cells)
               end)
    /\ option_map array_shape (hcgs (self (snd (simulate_honeycomb p verbose usediag false w))))
       = option_map array_shape (hcgs (self (snd (simulate_honeycomb p verbose usediag true w))))
    /\ option_map array_values (hcgs (self (snd (simulate_honeycomb p verbose usediag false w))))
       = option_map array_values (hcgs (self (snd (simulate_honeycomb p verbose usediag true w))))
    /\ (forall i j : nat, (i < npointsx p)%nat -> (j < npointsy p)%nat ->
          fst (calculate_ground_state (slice p i j) w)
          = inr (firstn (ndots (self w))
                        (skipn ((i * npointsy p + j) * ndots (self w)) (concat cells)))).
Proof.
  intros Hbuilt Hshape Hparams Hmp.
  set (m0 := self w).
  pose proof (same_model_refl m0) as Hsame.
  pose proof (cell_states_rows m0 p Hbuilt Hshape Hparams) as Hrows.
  set (w1 := mkWorld (set_hcgs (Some (np_empty [npointsx p; npointsy p; ndots m0])) m0)
                     (stdout w) (gs_evals w)).
  assert (Hseq : hcgs (self (snd (simulate_honeycomb p verbose usediag false w)))
                 = Some (FloatArray [npointsx p; npointsy p; ndots m0]
                                    (map f64_of_Z (concat (cell_states m0 p))))).
  { destruct (sweep_sequential_run m0 p Hbuilt Hshape Hparams verbose w1
                (sweep_inv_start m0 p w Hsame)) as (Hr & _ & Hh).
    apply simulate_honeycomb_hcgs; [exact Hparams | exact Hr | exact Hh]. }
  assert (Hpar : hcgs (self (snd (simulate_honeycomb p verbose usediag true w)))
                 = Some (match cell_states m0 p with
                         | [] => FloatArray [npointsx p; npointsy p; ndots m0] []
                         | _ :: _ => IntArray [npointsx p; npointsy p; ndots m0]
                                              (concat (cell_states m0 p))
                         end)).
  { destruct (sweep_parallel_run m0 p w1 Hbuilt Hshape Hparams Hsame) as (Hr & _ & Hh).
    apply simulate_honeycomb_hcgs; [exact Hparams | |]; cbn [andb]; rewrite Hmp;
      [exact Hr | exact Hh]. }
  exists (cell_states m0 p).
  split; [|split; [exact Hrows|split; [exact Hseq|split; [exact Hpar|]]]].
  - unfold cell_states. apply Forall2_map_r. intros g Hg.
    destruct (calculate_ground_state_any m0 w g Hbuilt Hshape) as (st & Hgs & _ & Hrun).
    + rewrite (In_param_iter p g Hg). exact Hparams.
    + exact Hsame.
    + now rewrite Hrun, Hgs.
  - rewrite Hseq, Hpar. split; [|split].
    + now destruct (cell_states m0 p).
    + now destruct (cell_states m0 p).
    + intros i j Hi Hj.
      destruct (cell_state_any m0 p Hbuilt Hshape Hparams w i j Hi Hj Hsame) as [_ Hrun].
      rewrite Hrun. cbn [fst]. f_equal. symmetry.
      apply concat_cell; [exact Hrows|].
      rewrite length_cell_states. nia.
Qed.

(** ** The presets *)

Lemma doubledot_is_preset :
  ClassicalDotSystem_init "doubledot" 2 2 3 = inr doubledot_fresh
  /\ DoubleDot 3 = inr doubledot
  /\ TripleDot 3 = inr tripledot.
Proof. split; [|split]; vm_compute; reflexivity. Qed.

Lemma doubledot_built : basis_built doubledot.
Proof.
  exists (world_of doubledot_fresh).
  split; [vm_compute; reflexivity|].
  split; [vm_compute; reflexivity|].
  unfold same_basis_state.
  split; [vm_compute; reflexivity|].
  split; [vm_compute; reflexivity|].
  split; [vm_compute; reflexivity|].
  split; [vm_compute; reflexivity|].
  split; [vm_compute; reflexivity|].
  split; vm_compute; reflexivity.
Qed.

Lemma doubledot_shaped : well_shaped doubledot.
Proof.
  unfold well_shaped.
  split; [vm_compute; reflexivity|].
  split; [vm_compute; reflexivity|].
  split; [vm_compute; reflexivity|].
  split; [vm_compute; reflexivity|].
  vm_compute. repeat constructor.
Qed.

Lemma doubledot_ngates : ngates doubledot = 2%nat.
Proof. vm_compute. reflexivity. Qed.

(** The triple dot has 64 states and is empty at zero gate voltages. *)
Example tripledot_ground_state :
  Nt tripledot = Some 64%nat
  /\ fst (calculate_ground_state (map f64_of_Z [0; 0; 0]) (world_of tripledot))
     = inr [0; 0; 0].
Proof. split; vm_compute; reflexivity. Qed.

(** The double dot at zero gate voltages holds two electrons in the first
    dot and one in the second. *)
Example doubledot_ground_state :
  fst (calculate_ground_state (map f64_of_Z [0; 0]) (world_of doubledot)) = inr [2; 1].
Proof. vm_compute. reflexivity. Qed.


(** At the voltages (112, 112, 80) the states [1, 2, 1] and [2, 2, 1] of the
    triple dot would tie in exact arithmetic; the rounding of [float64]
    separates them, and the later one is returned. *)
Example tripledot_rounded_ground_state :
  fst (calculate_ground_state (map f64_of_Z [112; 112; 80]) (world_of tripledot))
  = inr [2; 2; 1].
Proof. vm_compute. reflexivity. Qed.
(** * Further properties of the module *)

(** ** [ncr] and [__init__] outside the binomial range *)

Lemma run_lift_err {A B : Type} (r : result A) (k : A -> M B) (w : World) (e : exn) :
  r = inl e -> (x <- lift r ;; k x) w = (inl e, w).
Proof. intros ->. reflexivity. Qed.

Lemma run_bind_err {A B : Type} (m : M A) (k : A -> M B) (w w' : World) (e : exn) :
  m w = (inl e, w') -> (x <- m ;; k x) w = (inl e, w').
Proof. intros H. unfold bind. now rewrite H. Qed.

Lemma ncr_raises_outside_range_aux (n r : Z) :
  r < 0 \/ n < r -> ncr n r = inl TypeError.
Proof.
  intros H. unfold ncr, ncr_factors. cbn [fst snd].
  destruct (Z.eqb_spec (Z.min r (n - r)) 0) as [E|_]; [lia|].
  rewrite py_range_down.
  replace (Z.to_nat (n - (n - Z.min r (n - r)))) with 0%nat by lia.
  reflexivity.
Qed.

(** X1. When [r] is negative or exceeds [n], [ncr n r] does not return a
    count (not even 0): the reduced [r] is negative, the numerator range is
    empty and [functools.reduce] raises a [TypeError]. *)
Theorem ncr_raises_outside_range (n r : Z) :
  r < 0 \/ n < r -> ncr n r = inl TypeError.
Proof. apply ncr_raises_outside_range_aux. Qed.

Lemma ncr_value (n r : nat) :
  (r <= n)%nat -> ncr (Z.of_nat n) (Z.of_nat r) = inr (Z.of_nat (binom n r)).
Proof.
  intros Hr. unfold ncr, ncr_factors. cbn [fst snd].
  destruct (Z.eqb_spec (Z.min (Z.of_nat r) (Z.of_nat n - Z.of_nat r)) 0) as [E|E].
  - f_equal. assert (Hc : r = 0%nat \/ r = n) by lia.
    destruct Hc as [-> | ->]; [now rewrite binom_0 | now rewrite binom_diag].
  - set (k := Z.to_nat (Z.min (Z.of_nat r) (Z.of_nat n - Z.of_nat r))).
    assert (Hk : (0 < k <= n)%nat) by lia.
    pose proof (ncr_min n k Hk) as H.
    replace (Z.of_nat k) with (Z.min (Z.of_nat r) (Z.of_nat n - Z.of_nat r)) in H by lia.
    rewrite H. f_equal. f_equal.
    destruct (Z.min_spec (Z.of_nat r) (Z.of_nat n - Z.of_nat r)) as [[_ E1]|[_ E1]].
    + unfold k. rewrite E1. f_equal. lia.
    + unfold k. rewrite E1.
      replace (Z.to_nat (Z.of_nat n - Z.of_nat r)) with (n - r)%nat by lia.
      apply binom_sym. lia.
Qed.

(** X2. An instance with fewer than two dots cannot be constructed:
    [__init__] sizes [W] with [ncr(ndots, 2)], which raises a [TypeError]. *)
Theorem init_needs_two_dots (nm : string) (nd ng me : nat) :
  (nd < 2)%nat -> ClassicalDotSystem_init nm nd ng me = inl TypeError.
Proof.
  intros H. unfold ClassicalDotSystem_init.
  rewrite ncr_raises_outside_range_aux by lia. reflexivity.
Qed.

Lemma init_returns (nm : string) (nd ng me : nat) :
  (2 <= nd)%nat ->
  ClassicalDotSystem_init nm nd ng me = inr (fresh_instance nm nd ng me).
Proof.
  intros H. unfold ClassicalDotSystem_init.
  change (ncr (Z.of_nat nd) 2) with (ncr (Z.of_nat nd) (Z.of_nat 2)).
  rewrite (ncr_value nd 2 H). cbn [rbind].
  destruct (Z.ltb_spec (Z.of_nat (binom nd 2)) 0) as [Hneg|_]; [lia|].
  rewrite Nat2Z.id. reflexivity.
Qed.

Lemma fresh_instance_shaped (nm : string) (nd ng me : nat) :
  well_shaped (fresh_instance nm nd ng me).
Proof.
  unfold well_shaped. cbn. rewrite !repeat_length.
  repeat (split; [reflexivity|]).
  apply Forall_forall. intros row Hrow. apply repeat_spec in Hrow. subst row.
  apply repeat_length.
Qed.

(** X3. With at least two dots [__init__] returns an instance whose
    parameter arrays have the shapes the energy evaluation needs ([mu0] and
    [Eadd] of length [ndots], [W] of length C(ndots, 2), [alpha] of [ndots]
    rows of length [ngates]), all entries [0.0], and whose basis is not yet
    built. *)
Theorem init_shapes (nm : string) (nd ng me : nat) :
  (2 <= nd)%nat ->
  exists m : ClassicalDotSystem,
    ClassicalDotSystem_init nm nd ng me = inr m
    /\ ndots m = nd /\ ngates m = ng /\ maxelectrons m = me
    /\ well_shaped m
    /\ length (W m) = binom nd 2
    /\ Forall (fun q => q = f64_zero) (mu0 m ++ Eadd m ++ W m ++ concat (alpha m))
    /\ basis m = None /\ nbasis m = None /\ Nt m = None
    /\ add_basis m = None /\ coulomb_energy m = None /\ hcgs m = None.
Proof.
  intros H. exists (fresh_instance nm nd ng me).
  split; [now apply init_returns|].
  repeat (split; [reflexivity|]).
  split; [apply fresh_instance_shaped|].
  split; [apply repeat_length|].
  split; [|repeat split].
  cbn [fresh_instance mu0 Eadd W alpha].
  rewrite !Forall_app. repeat split.
  - apply Forall_repeat. reflexivity.
  - apply Forall_repeat. reflexivity.
  - apply Forall_repeat. reflexivity.
  - apply Forall_concat, Forall_repeat, Forall_repeat. reflexivity.
Qed.

(** ** More about [makebasis] *)

(** The straight-line part of [makebasis], up to its loop. *)
Lemma makebasis_prefix (w : World) :
  makebasis w
  = for_each (seq 0 (length (built_basis (ndots (self w)) (maxelectrons (self w)))))
      makebasis_body
      (loop_world
         (mkWorld
            (set_Nt (Some (length (built_basis (ndots (self w)) (maxelectrons (self w)))))
               (set_nbasis
                  (Some (map py_sum (built_basis (ndots (self w)) (maxelectrons (self w)))))
                  (set_basis (Some (built_basis (ndots (self w)) (maxelectrons (self w))))
                             (self w))))
            (stdout w) (gs_evals w))
         (built_basis (ndots (self w)) (maxelectrons (self w)))
         (repeat (repeat f64_zero (length (W (self w))))
                 (length (built_basis (ndots (self w)) (maxelectrons (self w)))))).
Proof.
  unfold makebasis. rewrite !run_getattr. cbv zeta.
  set (b := built_basis (ndots (self w)) (maxelectrons (self w))).
  change (sorted py_sum _) with b.
  rewrite run_setattr. cbn [self stdout gs_evals].
  rewrite (run_getattr_some _ _ _ _ b) by reflexivity.
  rewrite (run_lift _ _ _ (map py_sum b)).
  2:{ unfold np_sum_axis1.
      pose proof (built_basis_nonempty (ndots (self w)) (maxelectrons (self w))) as H.
      fold b in H. destruct b; [contradiction | reflexivity]. }
  rewrite run_setattr. cbn [self stdout gs_evals].
  rewrite (run_getattr_some _ _ _ _ (map py_sum b)) by reflexivity.
  rewrite run_setattr. cbn [self stdout gs_evals]. rewrite length_map.
  rewrite (run_getattr_some _ _ _ _ b) by reflexivity.
  rewrite run_setattr. cbn [self stdout gs_evals].
  rewrite (run_getattr_some _ _ _ _ b) by reflexivity.
  rewrite run_getattr, run_setattr. cbn [self stdout gs_evals].
  rewrite (run_getattr_some _ _ _ _ (length b)) by reflexivity.
  reflexivity.
Qed.

(** X4. [makebasis] writes only [basis], [nbasis], [Nt], [add_basis] and
    [coulomb_energy]: the dimensions, the four parameter arrays, the sweep
    results and the console are as before, whether it returns or raises. *)
Theorem makebasis_frame (w : World) :
  name (self (snd (makebasis w))) = name (self w)
  /\ ndots (self (snd (makebasis w))) = ndots (self w)
  /\ ngates (self (snd (makebasis w))) = ngates (self w)
  /\ maxelectrons (self (snd (makebasis w))) = maxelectrons (self w)
  /\ varnames (self (snd (makebasis w))) = varnames (self w)
  /\ mu0 (self (snd (makebasis w))) = mu0 (self w)
  /\ Eadd (self (snd (makebasis w))) = Eadd (self w)
  /\ W (self (snd (makebasis w))) = W (self w)
  /\ alpha (self (snd (makebasis w))) = alpha (self w)
  /\ hcgs (self (snd (makebasis w))) = hcgs (self w)
  /\ honeycomb (self (snd (makebasis w))) = honeycomb (self w)
  /\ deloc (self (snd (makebasis w))) = deloc (self w)
  /\ stdout (snd (makebasis w)) = stdout w
  /\ gs_evals (snd (makebasis w)) = gs_evals w.
Proof.
  apply (preserves_run
           (fun w' => name (self w') = name (self w)
                      /\ ndots (self w') = ndots (self w)
                      /\ ngates (self w') = ngates (self w)
                      /\ maxelectrons (self w') = maxelectrons (self w)
                      /\ varnames (self w') = varnames (self w)
                      /\ mu0 (self w') = mu0 (self w)
                      /\ Eadd (self w') = Eadd (self w)
                      /\ W (self w') = W (self w)
                      /\ alpha (self w') = alpha (self w)
                      /\ hcgs (self w') = hcgs (self w)
                      /\ honeycomb (self w') = honeycomb (self w)
                      /\ deloc (self w') = deloc (self w)
                      /\ stdout w' = stdout w
                      /\ gs_evals w' = gs_evals w)).
  - unfold makebasis, makebasis_body. cbv zeta. repeat preserve_step.
  - repeat split.
Qed.

(** X5. Building the basis twice is the same as building it once: on an
    instance whose [W] has one entry per pair of dots, a second [makebasis]
    returns normally and leaves the world the first one produced. *)
Theorem makebasis_idempotent (w : World) :
  length (W (self w)) = binom (ndots (self w)) 2 ->
  makebasis (snd (makebasis w)) = (inr tt, snd (makebasis w)).
Proof.
  intros HW. rewrite (makebasis_run w HW). cbn [snd].
  rewrite makebasis_run by exact HW. reflexivity.
Qed.

Lemma binom_2_one (n : nat) : binom n 2 = 1%nat -> n = 2%nat.
Proof.
  assert (G : forall k, (k <= binom (S k) 2)%nat).
  { induction k as [|k IH]; [cbn; lia|].
    change (binom (S (S k)) 2) with (binom (S k) 1 + binom (S k) 2)%nat.
    rewrite binom_1. lia. }
  destruct n as [|[|[|k]]]; intros E.
  - cbn in E. lia.
  - cbn in E. lia.
  - reflexivity.
  - change (binom (S (S (S k))) 2) with (binom (S (S k)) 1 + binom (S (S k)) 2)%nat in E.
    rewrite binom_1 in E. pose proof (G (S k)). lia.
Qed.

Lemma broadcast_to_mismatch {A : Type} (n : nat) (v : list A) :
  length v <> n -> length v <> 1%nat -> broadcast_to n v = inl ValueError.
Proof.
  intros Hn H1. unfold broadcast_to.
  destruct (Nat.eqb_spec (length v) n); [contradiction|].
  destruct v as [|x [|y t]]; try reflexivity. cbn in H1. lia.
Qed.

(** X6. When [W] does not have C(ndots, 2) entries and there are not exactly
    two dots, [makebasis] raises a [ValueError] at the first state, when it
    stores the Coulomb terms: by then [basis], [nbasis] and [Nt] are set,
    and [coulomb_energy] still holds only zeros. *)
Theorem makebasis_wrong_W (w : World) :
  length (W (self w)) <> binom (ndots (self w)) 2 ->
  ndots (self w) <> 2%nat ->
  fst (makebasis w) = inl ValueError
  /\ basis (self (snd (makebasis w)))
     = Some (built_basis (ndots (self w)) (maxelectrons (self w)))
  /\ nbasis (self (snd (makebasis w)))
     = Some (map py_sum (built_basis (ndots (self w)) (maxelectrons (self w))))
  /\ Nt (self (snd (makebasis w)))
     = Some (length (built_basis (ndots (self w)) (maxelectrons (self w))))
  /\ coulomb_energy (self (snd (makebasis w)))
     = Some (repeat (repeat f64_zero (length (W (self w))))
                    (length (built_basis (ndots (self w)) (maxelectrons (self w))))).
Proof.
  intros HW H2.
  assert (H1 : binom (ndots (self w)) 2 <> 1%nat).
  { intros E. apply H2. now apply binom_2_one. }
  rewrite makebasis_prefix.
  pose proof (built_basis_row_length (ndots (self w)) (maxelectrons (self w))) as Hrows.
  destruct (built_basis_head (ndots (self w)) (maxelectrons (self w))) as [tl Hhd].
  set (b := built_basis (ndots (self w)) (maxelectrons (self w))) in *.
  set (w1 := mkWorld _ (stdout w) (gs_evals w)).
  assert (Hlen : length b = S (length tl)) by (now rewrite Hhd).
  assert (Hrow0 : length (nth 0 b []) = ndots (self w)).
  { rewrite Forall_forall in Hrows. apply Hrows, nth_In. lia. }
  rewrite Hlen. cbn [seq for_each]. rewrite <- Hlen.
  erewrite run_bind_err.
  2:{ unfold makebasis_body.
      rewrite (run_getattr_some _ _ _ _ b) by reflexivity.
      rewrite (run_lift _ _ _ (nth 0 b [])) by (apply getitem_nth; lia).
      rewrite (run_getattr_some _ _ _ _ b) by reflexivity.
      rewrite (run_lift _ _ _ (list_set b 0 (add_row (nth 0 b [])))).
      2:{ unfold add_row. apply setrow_ok; [lia|].
          unfold half_products. now rewrite length_map. }
      rewrite run_setattr.
      rewrite (run_getattr_some _ _ _ _ b) by reflexivity.
      rewrite (run_lift _ _ _ (nth 0 b [])) by (apply getitem_nth; lia).
      rewrite (run_lift _ _ _ (pairwise (nth 0 b []))) by apply mapM_dot_star.
      erewrite run_getattr_some by reflexivity.
      apply run_lift_err.
      unfold setrow.
      rewrite (getitem_nth _ 0 []) by (rewrite repeat_length; lia).
      cbn [rbind].
      rewrite broadcast_to_mismatch; [reflexivity| |].
      - rewrite length_pairwise, Hrow0.
        rewrite (nth_indep _ [] (repeat f64_zero (length (W (self w)))))
          by (rewrite repeat_length; lia).
        rewrite nth_repeat, repeat_length. congruence.
      - rewrite length_pairwise, Hrow0. exact H1. }
  cbn [fst snd]. repeat split.
Qed.

(** ** The basis as a set *)

Lemma In_py_range_nat (maxe : nat) (x : Z) :
  In x (py_range 0 (Z.of_nat maxe + 1) 1) <-> 0 <= x <= Z.of_nat maxe.
Proof.
  replace (Z.of_nat maxe + 1) with (Z.of_nat (S maxe)) by lia.
  rewrite py_range_nat, in_map_iff. split.
  - intros (k & <- & Hk). apply in_seq in Hk. lia.
  - intros H. exists (Z.to_nat x). split; [lia | apply in_seq; lia].
Qed.

Lemma NoDup_py_range_nat (maxe : nat) : NoDup (py_range 0 (Z.of_nat maxe + 1) 1).
Proof.
  replace (Z.of_nat maxe + 1) with (Z.of_nat (S maxe)) by lia.
  rewrite py_range_nat. apply NoDup_map_NoDup_ForallPairs; [|apply seq_NoDup].
  intros x y _ _ H. lia.
Qed.

Lemma product_In {A : Type} (xs : list A) (n : nat) (v : list A) :
  In v (product xs n) <-> length v = n /\ Forall (fun x => In x xs) v.
Proof.
  split.
  - intros H. pose proof (product_rows xs n) as Hr.
    rewrite Forall_forall in Hr. now apply Hr.
  - revert v. induction n as [|n IH]; intros v [Hl Hall].
    + destruct v; [now left | discriminate].
    + destruct v as [|x v]; [discriminate|].
      inversion Hall; subst. cbn [product]. apply in_flat_map.
      exists x. split; [assumption|].
      apply in_map, IH. cbn in Hl. split; [lia | assumption].
Qed.

Lemma NoDup_product {A : Type} (xs : list A) (n : nat) :
  NoDup xs -> NoDup (product xs n).
Proof.
  intros Hxs. induction n as [|n IH]; cbn [product].
  - constructor; [intros [] | constructor].
  - assert (G : forall (P : list (list A)) (ys : list A),
               NoDup P -> NoDup ys ->
               NoDup (flat_map (fun x => map (cons x) P) ys)).
    { intros P ys HP Hys. induction Hys as [|x ys Hx _ IHys]; cbn [flat_map];
        [constructor|].
      apply NoDup_app.
      - apply NoDup_map_NoDup_ForallPairs; [|exact HP].
        intros u v _ _ E. now injection E.
      - exact IHys.
      - intros a Ha Hb. apply in_map_iff in Ha. destruct Ha as (u & <- & _).
        apply in_flat_map in Hb. destruct Hb as (x' & Hx' & Hb).
        apply in_map_iff in Hb. destruct Hb as (u' & E & _).
        injection E as -> _. contradiction. }
    now apply G.
Qed.

(** X7. The basis [makebasis] stores holds every occupation vector exactly
    once: it has no repeated state, and a vector is in it exactly when it
    has [ndots] entries, each between 0 and [maxelectrons]. *)
Theorem makebasis_basis_complete (w : World) :
  exists b : list (list Z),
    basis (self (snd (makebasis w))) = Some b
    /\ NoDup b
    /\ forall v : list Z,
         In v b <-> (length v = ndots (self w)
                     /\ Forall (fun x => 0 <= x <= Z.of_nat (maxelectrons (self w))) v).
Proof.
  exists (built_basis (ndots (self w)) (maxelectrons (self w))).
  split; [apply makebasis_sets_basis|].
  unfold built_basis. split.
  - eapply Permutation_NoDup; [symmetry; apply sorted_perm|].
    apply NoDup_product, NoDup_py_range_nat.
  - intros v. split.
    + intros H. apply (Permutation_in _ (sorted_perm py_sum _)) in H.
      apply product_In in H. destruct H as [Hl Hall]. split; [exact Hl|].
      eapply Forall_impl; [|exact Hall]. intros x. apply In_py_range_nat.
    + intros [Hl Hall].
      apply (Permutation_in _ (Permutation_sym (sorted_perm py_sum _))).
      apply product_In. split; [exact Hl|].
      eapply Forall_impl; [|exact Hall]. intros x. apply In_py_range_nat.
Qed.

Lemma Sorted_map_sum (l : list (list Z)) :
  Sorted (fun u v => py_sum u <= py_sum v) l -> Sorted Z.le (map py_sum l).
Proof.
  induction 1 as [|x l _ IH Hhd]; cbn [map]; constructor; [exact IH|].
  destruct Hhd; cbn [map]; constructor. assumption.
Qed.

Lemma py_sum_le (c : Z) (l : list Z) :
  Forall (fun x => 0 <= x <= c) l -> 0 <= py_sum l <= Z.of_nat (length l) * c.
Proof.
  induction 1 as [|x l Hx _ IH].
  - unfold py_sum; cbn; lia.
  - rewrite py_sum_cons. cbn [length]. lia.
Qed.

(** X8. [makebasis] stores in [nbasis] the total occupancy of every basis
    state and in [Nt] the number of states, whether or not its loop
    completes: [nbasis] starts at 0, never decreases, stays within
    [ndots * maxelectrons], and [Nt] is [(maxelectrons + 1) ^ ndots]. *)
Theorem makebasis_total_occupancy (w : World) :
  exists (b : list (list Z)) (nb : list Z),
    basis (self (snd (makebasis w))) = Some b
    /\ nbasis (self (snd (makebasis w))) = Some nb
    /\ Nt (self (snd (makebasis w))) = Some (length nb)
    /\ length nb = ((maxelectrons (self w) + 1) ^ ndots (self w))%nat
    /\ nb = map py_sum b
    /\ nth 0 nb 0 = 0
    /\ Sorted Z.le nb
    /\ Forall (fun s => 0 <= s <= Z.of_nat (ndots (self w))
                                  * Z.of_nat (maxelectrons (self w))) nb.
Proof.
  exists (built_basis (ndots (self w)) (maxelectrons (self w))),
         (map py_sum (built_basis (ndots (self w)) (maxelectrons (self w)))).
  split; [apply makebasis_sets_basis|].
  assert (H : nbasis (self (snd (makebasis w)))
              = Some (map py_sum (built_basis (ndots (self w)) (maxelectrons (self w))))
              /\ Nt (self (snd (makebasis w)))
                 = Some (length (built_basis (ndots (self w)) (maxelectrons (self w))))).
  { rewrite makebasis_prefix.
    apply (preserves_run
             (fun w' => nbasis (self w') = Some (map py_sum _)
                        /\ Nt (self w') = Some (length _))).
    - unfold makebasis_body. repeat preserve_step.
    - split; reflexivity. }
  destruct H as [Hnb Hnt].
  split; [exact Hnb|]. split; [now rewrite length_map|].
  split; [rewrite length_map, built_basis_length; f_equal; lia|].
  split; [reflexivity|].
  split.
  { destruct (built_basis_head (ndots (self w)) (maxelectrons (self w))) as [tl ->].
    cbn [map nth]. apply py_sum_zeros. }
  split; [apply Sorted_map_sum, sorted_is_sorted|].
  apply Forall_map.
  eapply Forall_impl; [|apply built_basis_rows].
  cbn beta. intros v [Hl Hv]. rewrite <- Hl. now apply py_sum_le.
Qed.

(** ** Energy evaluation at its edges *)

(** X9. Before [makebasis] has run ([Nt] is still [None]) both
    [calculate_energies] and [calculate_ground_state] raise a [TypeError];
    the instance and the console are left as they were. *)
Theorem energy_before_makebasis (w : World) (g : list float64) :
  Nt (self w) = None ->
  calculate_energies g w = (inl TypeError, w)
  /\ fst (calculate_ground_state g w) = inl TypeError
  /\ self (snd (calculate_ground_state g w)) = self w
  /\ stdout (snd (calculate_ground_state g w)) = stdout w.
Proof.
  intros H.
  assert (E : forall w', Nt (self w') = None ->
                         calculate_energies g w' = (inl TypeError, w')).
  { intros w' H'. unfold calculate_energies, bind, getattr_some. now rewrite H'. }
  split; [now apply E|].
  unfold calculate_ground_state. rewrite run_tick.
  erewrite run_bind_err by (apply E; exact H).
  repeat split.
Qed.

Lemma np_dot_mv_mismatch (al : list (list float64)) (g : list float64) (n : nat) :
  al <> [] -> Forall (fun row => length row = n) al -> length g <> n ->
  np_dot_mv al g = inl ValueError.
Proof.
  intros Hne Hrows Hg. destruct al as [|row rest]; [congruence|].
  inversion Hrows; subst.
  unfold np_dot_mv. cbn [mapM]. unfold np_dot.
  destruct (Nat.eqb_spec (length row) (length g)); [congruence | reflexivity].
Qed.

(** X10. On a built model with at least one dot and well-shaped parameters,
    a gate-voltage vector whose length is not [ngates] makes
    [calculate_energies] and [calculate_ground_state] raise a [ValueError]
    (from [np.dot(alpha, gatevalues)]); no energy is returned and the
    instance is unchanged. *)
Theorem energy_wrong_length (w : World) (g : list float64) :
  basis_built (self w) -> well_shaped (self w) ->
  (0 < ndots (self w))%nat -> length g <> ngates (self w) ->
  calculate_energies g w = (inl ValueError, w)
  /\ fst (calculate_ground_state g w) = inl ValueError
  /\ self (snd (calculate_ground_state g w)) = self w.
Proof.
  intros Hbuilt Hshape Hnd Hg.
  assert (E : forall w', self w' = self w ->
                         calculate_energies g w' = (inl ValueError, w')).
  { intros w' Hw'.
    destruct (basis_built_fields _ Hbuilt) as (_ & _ & _ & Hnt).
    destruct Hshape as (_ & _ & _ & H4 & H5).
    unfold calculate_energies. cbv zeta.
    erewrite run_getattr_some by (rewrite Hw'; exact Hnt).
    rewrite !run_getattr. apply run_lift_err. rewrite Hw'.
    apply (np_dot_mv_mismatch _ _ (ngates (self w))); [|exact H5|exact Hg].
    intros E. rewrite E in H4. cbn in H4. lia. }
  split; [now apply E|].
  unfold calculate_ground_state. rewrite run_tick.
  erewrite run_bind_err by (apply E; reflexivity).
  repeat split.
Qed.

Lemma tripledot_built : basis_built tripledot.
Proof.
  exists (world_of tripledot_fresh).
  split; [vm_compute; reflexivity|].
  split; [vm_compute; reflexivity|].
  unfold same_basis_state.
  split; [vm_compute; reflexivity|].
  split; [vm_compute; reflexivity|].
  split; [vm_compute; reflexivity|].
  split; [vm_compute; reflexivity|].
  split; [vm_compute; reflexivity|].
  split; vm_compute; reflexivity.
Qed.

Lemma tripledot_shaped : well_shaped tripledot.
Proof.
  unfold well_shaped.
  split; [vm_compute; reflexivity|].
  split; [vm_compute; reflexivity|].
  split; [vm_compute; reflexivity|].
  split; [vm_compute; reflexivity|].
  vm_compute. repeat constructor.
Qed.

Lemma tripledot_ngates : ngates tripledot = 3%nat.
Proof. vm_compute. reflexivity. Qed.

(** ** What a sweep does besides filling [hcgs] *)

Lemma bind_assoc {A B C : Type} (m : M A) (f : A -> M B) (g : B -> M C) (w : World) :
  (y <- (x <- m ;; f x) ;; g y) w = (x <- m ;; (y <- f x ;; g y)) w.
Proof. unfold bind. destruct (m w) as [[e|a] w']; reflexivity. Qed.

Lemma for_each_effect {A T : Type} (mu : World -> T) (step : A -> T -> T)
    (l : list A) (body : A -> M unit) :
  (forall x w, fst (body x w) = inr tt -> mu (snd (body x w)) = step x (mu w)) ->
  forall w, fst (for_each l body w) = inr tt ->
    mu (snd (for_each l body w)) = fold_left (fun t x => step x t) l (mu w).
Proof.
  intros Hb. induction l as [|x t IH]; intros w Hr; cbn [for_each fold_left] in *.
  - reflexivity.
  - unfold bind in *. specialize (Hb x w).
    destruct (body x w) as [[e|[]] w1]; cbn [fst snd] in *; [discriminate|].
    rewrite <- Hb by reflexivity. now apply IH.
Qed.

Lemma calculate_ground_state_ticks (g : list float64) (w : World) :
  gs_evals (snd (calculate_ground_state g w)) = S (gs_evals w).
Proof.
  unfold calculate_ground_state. rewrite run_tick.
  apply (preserves_run (fun w' => gs_evals w' = S (gs_evals w))); [|reflexivity].
  apply preserves_bind;
    [unfold calculate_energies, energies_body; cbv zeta; repeat preserve_step
    | intros energies].
  apply preserves_bind; [apply preserves_getattr | intros [b|]];
    (apply preserves_bind; [apply preserves_lift | intros k]);
    [apply preserves_lift | apply preserves_raise].
Qed.

Lemma calculate_ground_state_effects (g : list float64) (w : World) :
  sweep_effects (snd (calculate_ground_state g w))
  = (S (gs_evals w), stdout w, honeycomb (self w), deloc (self w))
  /\ self (snd (calculate_ground_state g w)) = self w.
Proof.
  destruct (calculate_ground_state_frame g w w (conj eq_refl eq_refl)) as [Hs Ho].
  unfold sweep_effects. now rewrite calculate_ground_state_ticks, Hs, Ho.
Qed.

Lemma sweep_cell_effects (p : grid) (i j : nat) (w : World) :
  sweep_effects (snd (sweep_cell p i j w))
  = (S (gs_evals w), stdout w, honeycomb (self w), deloc (self w)).
Proof.
  destruct (calculate_ground_state_effects (slice p i j) w) as [He _].
  unfold sweep_cell, bind at 1.
  destruct (calculate_ground_state (slice p i j) w) as [[e|st] w1]; cbn [snd] in *;
    [exact He|].
  apply (preserves_run (fun w' => sweep_effects w' = _)); [|exact He].
  repeat preserve_step.
Qed.

Lemma fold_left_ticks {T1 T2 T3 : Type} (l : list nat) (n : nat) (o : T1) (h : T2) (d : T3) :
  fold_left (fun (t : nat * T1 * T2 * T3) (_ : nat) =>
               match t with (n', o', h', d') => (S n', o', h', d') end) l (n, o, h, d)
  = ((n + length l)%nat, o, h, d).
Proof.
  revert n. induction l as [|x l IH]; intros n; cbn [fold_left length].
  - now rewrite Nat.add_0_r.
  - rewrite IH. replace (S n + length l)%nat with (n + S (length l))%nat by lia.
    reflexivity.
Qed.

Lemma sweep_row_effects (p : grid) (verbose : bool) (i : nat) (w : World) :
  fst (sweep_row p verbose i w) = inr tt ->
  sweep_effects (snd (sweep_row p verbose i w))
  = ((gs_evals w + npointsy p)%nat,
     stdout w ++ progress_lines verbose (npointsx p) i 1,
     honeycomb (self w), deloc (self w)).
Proof.
  unfold sweep_row. intros Hr.
  set (w1 := snd ((if verbose
                   then emit (Tprinted (progress_message i (npointsx p)))
                   else ret tt) w)).
  assert (H1 : (if verbose
                then emit (Tprinted (progress_message i (npointsx p)))
                else ret tt) w = (inr tt, w1)) by (unfold w1; now destruct verbose).
  rewrite (run_bind _ _ _ _ _ H1) in *.
  rewrite (for_each_effect sweep_effects
             (fun _ t => match t with (n', o', h', d') => (S n', o', h', d') end))
    by (intros; apply sweep_cell_effects || exact Hr).
  - unfold sweep_effects at 1. rewrite fold_left_ticks, length_seq.
    unfold w1, progress_lines. destruct verbose; cbn [snd emit ret self stdout gs_evals map seq];
      [reflexivity | now rewrite app_nil_r].
Qed.

Lemma progress_lines_cons (verbose : bool) (npx a k : nat) :
  progress_lines verbose npx a 1 ++ progress_lines verbose npx (S a) k
  = progress_lines verbose npx a (S k).
Proof. unfold progress_lines. now destruct verbose. Qed.

Lemma fold_left_rows {T2 T3 : Type} (verbose : bool) (npx npy : nat) (h : T2) (d : T3) :
  forall (k a n : nat) (o : list event),
    fold_left (fun (t : nat * list event * T2 * T3) (i : nat) =>
                 match t with
                 | (n', o', h', d') =>
                     ((n' + npy)%nat, o' ++ progress_lines verbose npx i 1, h', d')
                 end) (seq a k) (n, o, h, d)
    = ((n + k * npy)%nat, o ++ progress_lines verbose npx a k, h, d).
Proof.
  induction k as [|k IH]; intros a n o; cbn [seq fold_left].
  - unfold progress_lines. destruct verbose; cbn [seq map];
      now rewrite app_nil_r, Nat.add_0_r.
  - rewrite IH, <- app_assoc, progress_lines_cons.
    replace (n + npy + k * npy)%nat with (n + S k * npy)%nat by lia.
    reflexivity.
Qed.

Lemma sweep_sequential_effects (p : grid) (verbose : bool) (w : World) :
  fst (sweep_sequential p verbose w) = inr tt ->
  sweep_effects (snd (sweep_sequential p verbose w))
  = ((gs_evals w + npointsx p * npointsy p)%nat,
     stdout w ++ progress_lines verbose (npointsx p) 0 (npointsx p),
     honeycomb (self w), deloc (self w)).
Proof.
  unfold sweep_sequential. intros Hr.
  rewrite (for_each_effect sweep_effects
             (fun i t => match t with
                         | (n', o', h', d') =>
                             ((n' + npointsy p)%nat,
                              o' ++ progress_lines verbose (npointsx p) i 1, h', d')
                         end)).
  - unfold sweep_effects at 1. apply fold_left_rows.
  - intros i w' Hi. now apply sweep_row_effects.
  - exact Hr.
Qed.

Lemma pool_map_frame {A B : Type} (f : A -> M B) (l : list A) :
  forall w, self (snd (pool_map f l w)) = self w
            /\ stdout (snd (pool_map f l w)) = stdout w.
Proof.
  induction l as [|x t IH]; intros w; cbn [pool_map].
  - now split.
  - destruct (fst (f x w)) as [e|y]; [now split|].
    specialize (IH (mkWorld (self w) (stdout w) (gs_evals (snd (f x w))))).
    destruct (pool_map f t _) as [[e|ys] w2]; exact IH.
Qed.

Lemma pool_map_count {A B : Type} (f : A -> M B) (l : list A) :
  (forall x w, gs_evals (snd (f x w)) = S (gs_evals w)) ->
  forall w ys, fst (pool_map f l w) = inr ys ->
    gs_evals (snd (pool_map f l w)) = (gs_evals w + length l)%nat.
Proof.
  intros Hf. induction l as [|x t IH]; intros w ys Hr; cbn [pool_map length] in *.
  - cbn. lia.
  - destruct (fst (f x w)) as [e|y]; [discriminate|].
    specialize (IH (mkWorld (self w) (stdout w) (gs_evals (snd (f x w))))).
    destruct (pool_map f t _) as [[e|ys'] w2]; cbn [fst snd] in *; [discriminate|].
    rewrite (IH ys' eq_refl). cbn [gs_evals]. rewrite Hf. lia.
Qed.

Lemma sweep_parallel_effects (p : grid) (w : World) :
  fst (sweep_parallel p w) = inr tt ->
  sweep_effects (snd (sweep_parallel p w))
  = ((gs_evals w + npointsx p * npointsy p)%nat, stdout w,
     honeycomb (self w), deloc (self w)).
Proof.
  unfold sweep_parallel. intros Hr.
  unfold bind at 1. unfold bind at 1 in Hr.
  destruct (pool_map_frame calculate_ground_state (param_iter p) w) as [Hs Ho].
  pose proof (pool_map_count calculate_ground_state (param_iter p)
                calculate_ground_state_ticks w) as Hc.
  destruct (pool_map calculate_ground_state (param_iter p) w) as [[e|res] w1];
    cbn [fst snd] in *; [discriminate|].
  specialize (Hc res eq_refl). rewrite length_param_iter in Hc.
  match goal with
  | |- sweep_effects (snd (?m ?w0)) = ?r =>
      apply (preserves_run (fun w' => sweep_effects w' = r) m w0)
  end.
  - repeat preserve_step.
  - unfold sweep_effects. now rewrite Hc, Hs, Ho.
Qed.

Lemma sweep_finish_run (verbose : bool) (w : World) (h : array) :
  hcgs (self w) = Some h ->
  sweep_finish verbose w
  = match findtransitions h with
    | inr r =>
        (inr tt,
         mkWorld (set_deloc (Some (snd r)) (set_honeycomb (Some (fst r)) (self w)))
                 (stdout w ++ (if verbose then [PrintedElapsed] else []))
                 (gs_evals w))
    | inl e => (inl e, w)
    end.
Proof.
  intros Hh. unfold sweep_finish.
  rewrite (run_getattr_some _ _ _ _ h) by exact Hh.
  destruct (findtransitions h) as [e|r].
  - now apply run_lift_err.
  - rewrite (run_lift _ _ _ r) by reflexivity.
    rewrite !run_setattr. cbn [self stdout gs_evals].
    destruct verbose; cbn [emit ret self stdout gs_evals];
      [reflexivity | now rewrite app_nil_r].
Qed.

Lemma simulate_honeycomb_unfold (p : grid) (verbose usediag multiprocess : bool)
    (w : World) :
  nparams p = ngates (self w) ->
  simulate_honeycomb p verbose usediag multiprocess w
  = ((if multiprocess && have_mp
      then sweep_parallel p
      else sweep_sequential p verbose) ;;; sweep_finish verbose)
      (mkWorld (set_hcgs (Some (np_empty [npointsx p; npointsy p; ndots (self w)]))
                         (self w)) (stdout w) (gs_evals w)).
Proof.
  intros Hp. unfold simulate_honeycomb. cbv zeta.
  rewrite run_getattr, Hp, Nat.eqb_refl. cbn [negb].
  now rewrite run_getattr, run_setattr.
Qed.

(** The sweep proper on a built, well-shaped model, whichever strategy the
    flags select. *)
Lemma sweep_summary (p : grid) (verbose multiprocess : bool) (w : World) :
  basis_built (self w) -> well_shaped (self w) -> nparams p = ngates (self w) ->
  let sweep := if multiprocess && have_mp
               then sweep_parallel p
               else sweep_sequential p verbose in
  let w1 := mkWorld (set_hcgs (Some (np_empty [npointsx p; npointsy p; ndots (self w)]))
                              (self w)) (stdout w) (gs_evals w) in
  fst (sweep w1) = inr tt
  /\ same_model (self (snd (sweep w1))) (self w)
  /\ (exists h : array,
        hcgs (self (snd (sweep w1))) = Some h
        /\ array_shape h = [npointsx p; npointsy p; ndots (self w)]
        /\ array_values h = map f64_of_Z (concat (cell_states (self w) p)))
  /\ sweep_effects (snd (sweep w1))
     = ((gs_evals w + npointsx p * npointsy p)%nat,
        stdout w ++ progress_lines (verbose && negb (multiprocess && have_mp))
                                   (npointsx p) 0 (npointsx p),
        honeycomb (self w), deloc (self w)).
Proof.
  intros Hbuilt Hshape Hparams sweep w1.
  pose proof (same_model_refl (self w)) as Hsame.
  unfold sweep. destruct (multiprocess && have_mp).
  - destruct (sweep_parallel_run (self w) p w1 Hbuilt Hshape Hparams Hsame)
      as (Hr & Hm & Hh).
    split; [exact Hr|]. split; [exact Hm|]. split.
    + eexists. split; [exact Hh|].
      destruct (cell_states (self w) p); cbn; auto.
    + rewrite (sweep_parallel_effects p w1 Hr).
      rewrite andb_false_r. unfold progress_lines. cbn. now rewrite app_nil_r.
  - destruct (sweep_sequential_run (self w) p Hbuilt Hshape Hparams verbose w1
                (sweep_inv_start (self w) p w Hsame)) as (Hr & Hm & Hh).
    split; [exact Hr|]. split; [exact Hm|]. split.
    + eexists. split; [exact Hh|]. cbn. auto.
    + rewrite (sweep_sequential_effects p verbose w1 Hr).
      now rewrite andb_true_r.
Qed.

(** X12. On a built, well-shaped model and a grid whose leading dimension is
    [ngates], a sweep evaluates the ground state exactly once per grid cell,
    [npointsx * npointsy] times in all, with either strategy and whether or
    not the transition detector raises afterwards. *)
Theorem sweep_evaluates_each_cell_once (w : World) (p : grid)
    (verbose usediag multiprocess : bool) :
  basis_built (self w) -> well_shaped (self w) -> nparams p = ngates (self w) ->
  gs_evals (snd (simulate_honeycomb p verbose usediag multiprocess w))
  = (gs_evals w + npointsx p * npointsy p)%nat.
Proof.
  intros Hbuilt Hshape Hparams.
  rewrite simulate_honeycomb_unfold by exact Hparams.
  destruct (sweep_summary p verbose multiprocess w Hbuilt Hshape Hparams)
    as (Hr & _ & (h & Hh & _) & He).
  unfold bind.
  destruct ((if multiprocess && have_mp then sweep_parallel p
             else sweep_sequential p verbose) _) as [[e|[]] w2];
    cbn [fst snd] in *; [discriminate|].
  unfold sweep_effects in He. injection He as Hg _ _ _.
  rewrite (sweep_finish_run verbose w2 h Hh).
  destruct (findtransitions h); exact Hg.
Qed.

(** X13. On a built, well-shaped model and a grid whose leading dimension is
    [ngates], the sweep stores an array of shape
    [npointsx, npointsy, ndots] in [hcgs] and hands it to [findtransitions]:
    when the detector returns, the call returns and [honeycomb] and [deloc]
    hold its two results; when it raises, the call raises the same
    exception, [honeycomb] and [deloc] are as before, and [hcgs] keeps the
    new array. *)
Theorem sweep_outcome (w : World) (p : grid) (verbose usediag multiprocess : bool) :
  basis_built (self w) -> well_shaped (self w) -> nparams p = ngates (self w) ->
  exists h : array,
    hcgs (self (snd (simulate_honeycomb p verbose usediag multiprocess w))) = Some h
    /\ array_shape h = [npointsx p; npointsy p; ndots (self w)]
    /\ match findtransitions h with
       | inr r =>
           fst (simulate_honeycomb p verbose usediag multiprocess w) = inr tt
           /\ honeycomb (self (snd (simulate_honeycomb p verbose usediag multiprocess w)))
              = Some (fst r)
           /\ deloc (self (snd (simulate_honeycomb p verbose usediag multiprocess w)))
              = Some (snd r)
       | inl e =>
           fst (simulate_honeycomb p verbose usediag multiprocess w) = inl e
           /\ honeycomb (self (snd (simulate_honeycomb p verbose usediag multiprocess w)))
              = honeycomb (self w)
           /\ deloc (self (snd (simulate_honeycomb p verbose usediag multiprocess w)))
              = deloc (self w)
       end.
Proof.
  intros Hbuilt Hshape Hparams.
  rewrite simulate_honeycomb_unfold by exact Hparams.
  destruct (sweep_summary p verbose multiprocess w Hbuilt Hshape Hparams)
    as (Hr & _ & (h & Hh & Hsh & _) & He).
  exists h. unfold bind.
  destruct ((if multiprocess && have_mp then sweep_parallel p
             else sweep_sequential p verbose) _) as [[e|[]] w2];
    cbn [fst snd] in *; [discriminate|].
  unfold sweep_effects in He. injection He as _ _ Hhc Hdl.
  rewrite (sweep_finish_run verbose w2 h Hh).
  destruct (findtransitions h) as [e|r]; cbn [fst snd self];
    (split; [exact Hh|]); (split; [exact Hsh|]); repeat split; assumption.
Qed.

(** X14. What such a sweep prints: with [verbose] off, nothing; with
    [verbose] on, the sequential strategy calls [tprint] once per row with
    ['simulatehoneycomb: i/npointsx'], the pool strategy prints no progress,
    and either one ends with the elapsed-time line unless the transition
    detector raised. *)
Theorem sweep_console (w : World) (p : grid) (verbose usediag multiprocess : bool) :
  basis_built (self w) -> well_shaped (self w) -> nparams p = ngates (self w) ->
  stdout (snd (simulate_honeycomb p verbose usediag multiprocess w))
  = stdout w
    ++ (if verbose && negb (multiprocess && have_mp)
        then map (fun i => Tprinted (progress_message i (npointsx p)))
                 (seq 0 (npointsx p))
        else [])
    ++ (if verbose
        then match fst (simulate_honeycomb p verbose usediag multiprocess w) with
             | inr _ => [PrintedElapsed]
             | inl _ => []
             end
        else []).
Proof.
  intros Hbuilt Hshape Hparams.
  rewrite simulate_honeycomb_unfold by exact Hparams.
  destruct (sweep_summary p verbose multiprocess w Hbuilt Hshape Hparams)
    as (Hr & _ & (h & Hh & _) & He).
  unfold bind.
  destruct ((if multiprocess && have_mp then sweep_parallel p
             else sweep_sequential p verbose) _) as [[e|[]] w2];
    cbn [fst snd] in *; [discriminate|].
  unfold sweep_effects in He. injection He as _ Ho _ _.
  unfold progress_lines in Ho.
  rewrite (sweep_finish_run verbose w2 h Hh).
  destruct (findtransitions h) as [e|r]; cbn [fst snd stdout]; rewrite Ho.
  - destruct verbose; now rewrite ?app_nil_r, <- ?app_assoc.
  - destruct verbose; now rewrite ?app_nil_r, <- ?app_assoc.
Qed.

Lemma calculate_ground_state_keeps_model (m0 : ClassicalDotSystem) (g : list float64) :
  preserves (fun w' => same_model (self w') m0) (calculate_ground_state g).
Proof.
  intros w' H.
  destruct (calculate_ground_state_frame g w' w' (conj eq_refl eq_refl)) as [E _].
  now rewrite E.
Qed.

Lemma pool_map_keeps_model {A B : Type} (m0 : ClassicalDotSystem)
    (f : A -> M B) (l : list A) :
  preserves (fun w' => same_model (self w') m0) (pool_map f l).
Proof.
  intros w' H. destruct (pool_map_frame f l w') as [E _]. now rewrite E.
Qed.

(** X15. Whatever the grid and the flags, and whether it returns, prints the
    mismatch message or raises, [simulate_honeycomb] changes nothing of the
    model: dimensions, basis, caches and the four parameter arrays are as
    before; only [hcgs], [honeycomb] and [deloc] can differ. *)
Theorem sweep_keeps_model (w : World) (p : grid) (verbose usediag multiprocess : bool) :
  same_model (self (snd (simulate_honeycomb p verbose usediag multiprocess w))) (self w).
Proof.
  apply (preserves_run (fun w' => same_model (self w') (self w)));
    [|apply same_model_refl].
  unfold simulate_honeycomb. cbv zeta.
  apply preserves_bind; [apply preserves_getattr | intros ng].
  destruct (negb (nparams p =? ng)%nat).
  { apply preserves_emit. intros ? H. exact H. }
  apply preserves_bind; [apply preserves_getattr | intros nd].
  apply preserves_bind; [apply preserves_setattr; intros ? H; exact H | intros _].
  apply preserves_bind; [|intros _].
  - destruct (multiprocess && have_mp).
    + unfold sweep_parallel.
      apply preserves_bind; [apply pool_map_keeps_model | intros res].
      repeat preserve_step.
    + unfold sweep_sequential, sweep_row, sweep_cell.
      apply preserves_for_each. intros i.
      apply preserves_bind;
        [destruct verbose; [apply preserves_emit; intros ? H; exact H | apply preserves_ret]
        | intros _].
      apply preserves_for_each. intros j.
      apply preserves_bind; [apply calculate_ground_state_keeps_model | intros st].
      repeat preserve_step.
  - unfold sweep_finish. repeat preserve_step.
    destruct verbose; [apply preserves_emit; intros ? H; exact H | apply preserves_ret].
Qed.

Lemma cell_states_valid (m0 : ClassicalDotSystem) (p : grid) :
  basis_built m0 -> well_shaped m0 -> nparams p = ngates m0 ->
  Forall (fun st => In st (built_basis (ndots m0) (maxelectrons m0)))
         (cell_states m0 p).
Proof.
  intros Hbuilt Hshape Hparams.
  apply Forall_forall. intros v Hv.
  destruct (In_nth _ _ [] Hv) as (k & Hk & <-).
  rewrite length_cell_states in Hk.
  assert (Hy : (0 < npointsy p)%nat) by nia.
  replace k with (k / npointsy p * npointsy p + k mod npointsy p)%nat
    by (rewrite Nat.mul_comm; symmetry; apply Nat.div_mod_eq).
  destruct (cell_state_any m0 p Hbuilt Hshape Hparams (world_of m0)
              (k / npointsy p) (k mod npointsy p)) as [_ Hrun].
  - apply Nat.Div0.div_lt_upper_bound. nia.
  - apply Nat.mod_upper_bound. lia.
  - apply same_model_refl.
  - destruct (calculate_ground_state_run (world_of m0)
                (slice p (k / npointsy p) (k mod npointsy p)) Hbuilt Hshape)
      as (es & k' & _ & _ & Hlen & Hk' & _ & Hrun').
    { rewrite length_slice. exact Hparams. }
    rewrite Hrun in Hrun'. injection Hrun' as ->.
    apply nth_In. cbn [self world_of] in Hlen. lia.
Qed.

(** X16. On a built, well-shaped model and a grid whose leading dimension is
    [ngates], after either strategy [hcgs] holds
    [npointsx * npointsy * ndots] values, each a whole number between 0 and
    [maxelectrons]: every cell is an occupation vector of the basis. *)
Theorem sweep_entries_valid (w : World) (p : grid) (verbose usediag multiprocess : bool) :
  basis_built (self w) -> well_shaped (self w) -> nparams p = ngates (self w) ->
  exists (h : array) (zs : list Z),
    hcgs (self (snd (simulate_honeycomb p verbose usediag multiprocess w))) = Some h
    /\ array_values h = map f64_of_Z zs
    /\ length zs = (npointsx p * npointsy p * ndots (self w))%nat
    /\ Forall (fun z => 0 <= z <= Z.of_nat (maxelectrons (self w))) zs.
Proof.
  intros Hbuilt Hshape Hparams.
  destruct (sweep_summary p verbose multiprocess w Hbuilt Hshape Hparams)
    as (Hr & _ & (h & Hh & _ & Hv) & _).
  exists h, (concat (cell_states (self w) p)).
  split; [|split; [exact Hv|split]].
  - apply simulate_honeycomb_hcgs; [exact Hparams | exact Hr | exact Hh].
  - rewrite (length_concat_const (ndots (self w)))
      by (now apply cell_states_rows).
    now rewrite length_cell_states.
  - apply Forall_concat.
    eapply Forall_impl; [|apply (cell_states_valid (self w) p); assumption].
    cbn beta. intros st Hst.
    pose proof (built_basis_rows (ndots (self w)) (maxelectrons (self w))) as Hrows.
    rewrite Forall_forall in Hrows. now destruct (Hrows st Hst).
Qed.

(** ** The presets *)

Lemma preset_built (nm : string) (nd ng me : nat)
    (mu Ea Wv : list float64) (al : list (list float64)) :
  (2 <= nd)%nat ->
  length mu = nd -> length Ea = nd -> length Wv = binom nd 2 ->
  length al = nd -> Forall (fun row => length row = ng) al ->
  exists m : ClassicalDotSystem,
    preset nm nd ng me mu Ea Wv al = inr m
    /\ basis_built m /\ well_shaped m
    /\ ndots m = nd /\ ngates m = ng /\ maxelectrons m = me
    /\ Nt m = Some ((me + 1) ^ nd)%nat
    /\ mu0 m = mu /\ Eadd m = Ea /\ W m = Wv /\ alpha m = al
    /\ hcgs m = None.
Proof.
  intros Hnd Hmu HEa HW Hal Hrows.
  set (m0 := fresh_instance nm nd ng me).
  assert (HW0 : length (W (self (world_of m0))) = binom (ndots (self (world_of m0))) 2).
  { cbn. apply repeat_length. }
  exists (set_alpha al (set_W Wv (set_Eadd Ea (set_mu0 mu (built_state m0))))).
  split.
  { unfold preset. rewrite (init_returns nm nd ng me Hnd). cbn [rbind]. fold m0.
    rewrite (makebasis_run (world_of m0) HW0). reflexivity. }
  split.
  { exists (world_of m0). split; [exact HW0|].
    rewrite (makebasis_run (world_of m0) HW0). cbn [fst snd self world_of].
    split; [reflexivity|]. unfold same_basis_state. repeat split. }
  split.
  { unfold well_shaped. cbn. repeat split; assumption. }
  repeat (split; [reflexivity|]).
  split; [|repeat split].
  transitivity (Some (length (built_basis nd me))); [reflexivity|].
  f_equal. rewrite built_basis_length. f_equal. lia.
Qed.

(** The decimal literals of the presets: [52.8] and [0.1] are the nearest
    [float64] (within less than half a unit in the last place of the
    decimal), [0.25] and the whole numbers are exact. *)
Example preset_literals :
  f64_of_decimal 528 1 = S754_finite false 7430939385161318 (-47)
  /\ ((528 # 10) - (1 # 2 ^ 48) < f64_to_Q (f64_of_decimal 528 1)
      < (528 # 10) + (1 # 2 ^ 48))%Q
  /\ f64_of_decimal 1 1 = S754_finite false 7205759403792794 (-56)
  /\ ((1 # 10) - (1 # 2 ^ 57) < f64_to_Q (f64_of_decimal 1 1)
      < (1 # 10) + (1 # 2 ^ 57))%Q
  /\ (f64_to_Q (f64_of_decimal 25 2) == 1 # 4)%Q
  /\ (f64_to_Q (f64_of_Z 54) == 54)%Q
  /\ (f64_to_Q (f64_of_Z (-27)) == -27)%Q.
Proof. repeat split; vm_compute; reflexivity. Qed.

(** X17. For every [maxelectrons] the two presets construct without error:
    [DoubleDot] is a built, well-shaped model of 2 dots and 2 gates with
    [(maxelectrons + 1)^2] states, [TripleDot] one of 3 dots and 3 gates
    with [(maxelectrons + 1)^3] states, and both carry the four literal
    parameter arrays [mu0], [Eadd], [W] and [alpha], as [float64], although
    [makebasis] ran before they were assigned. *)
Theorem presets_are_built (me : nat) :
  (exists m : ClassicalDotSystem,
     DoubleDot me = inr m
     /\ basis_built m /\ well_shaped m
     /\ ndots m = 2%nat /\ ngates m = 2%nat /\ maxelectrons m = me
     /\ Nt m = Some ((me + 1) ^ 2)%nat
     /\ mu0 m = [f64_of_Z 120; f64_of_Z 100]
     /\ Eadd m = [f64_of_Z 54; f64_of_decimal 528 1]
     /\ W m = [f64_of_Z 6]
     /\ alpha m = [[f64_of_Z 1; f64_of_decimal 25 2];
                   [f64_of_decimal 25 2; f64_of_Z 1]])
  /\ (exists m : ClassicalDotSystem,
        TripleDot me = inr m
        /\ basis_built m /\ well_shaped m
        /\ ndots m = 3%nat /\ ngates m = 3%nat /\ maxelectrons m = me
        /\ Nt m = Some ((me + 1) ^ 3)%nat
        /\ mu0 m = [f64_of_Z (-27); f64_of_Z (-20); f64_of_Z (-25)]
        /\ Eadd m = [f64_of_Z 54; f64_of_decimal 528 1; f64_of_Z 54]
        /\ W m = [f64_of_Z 6; f64_of_Z 1; f64_of_Z 5]
        /\ alpha m = [[f64_of_Z 1; f64_of_decimal 25 2; f64_of_decimal 1 1];
                      [f64_of_decimal 25 2; f64_of_Z 1; f64_of_decimal 25 2];
                      [f64_of_decimal 1 1; f64_of_decimal 25 2; f64_of_Z 1]]).
Proof.
  split.
  - destruct (preset_built "doubledot" 2 2 me
                (map f64_of_Z [120; 100])
                [f64_of_Z 54; f64_of_decimal 528 1]
                [f64_of_Z 6]
                [[f64_of_Z 1; f64_of_decimal 25 2]; [f64_of_decimal 25 2; f64_of_Z 1]]
                ltac:(lia) eq_refl eq_refl eq_refl eq_refl ltac:(repeat constructor))
      as (m & H1 & H2 & H3 & H4 & H5 & H6 & H7 & H8 & H9 & H10 & H11 & _).
    exists m. unfold DoubleDot. repeat (split; [assumption|]). assumption.
  - destruct (preset_built "tripledot" 3 3 me
                (map f64_of_Z [-27; -20; -25])
                [f64_of_Z 54; f64_of_decimal 528 1; f64_of_Z 54]
                (map f64_of_Z [6; 1; 5])
                [[f64_of_Z 1; f64_of_decimal 25 2; f64_of_decimal 1 1];
                 [f64_of_decimal 25 2; f64_of_Z 1; f64_of_decimal 25 2];
                 [f64_of_decimal 1 1; f64_of_decimal 25 2; f64_of_Z 1]]
                ltac:(lia) eq_refl eq_refl eq_refl eq_refl ltac:(repeat constructor))
      as (m & H1 & H2 & H3 & H4 & H5 & H6 & H7 & H8 & H9 & H10 & H11 & _).
    exists m. unfold TripleDot. repeat (split; [assumption|]). assumption.
Qed.

(** ** [point_in_poly] *)

Lemma py_min_cases (a b : float64) : py_min a b = a \/ py_min a b = b.
Proof. unfold py_min. destruct (f64_lt b a); auto. Qed.

Lemma py_max_cases (a b : float64) : py_max a b = a \/ py_max a b = b.
Proof. unfold py_max. destruct (f64_lt a b); auto. Qed.

Lemma py_min_same (a : float64) : py_min a a = a.
Proof. unfold py_min. now destruct (f64_lt a a). Qed.

Lemma py_max_same (a : float64) : py_max a a = a.
Proof. unfold py_max. now destruct (f64_lt a a). Qed.

Lemma py_min_max_equal (a b : float64) :
  f64_eq a b = true -> py_min a b = a /\ py_max a b = a.
Proof.
  intros H. destruct (f64_eq_not_lt a b H) as [H1 H2].
  unfold py_min, py_max. now rewrite H1, H2.
Qed.

(** One iteration never raises: [xints] is read only on an edge that
    straddles [y], and on such an edge it has just been assigned. *)
Lemma pip_step_returns (x y : float64) (p2 : float64 * float64) (st : pip_state) :
  exists st', pip_step x y p2 st = inr st' /\ p1 st' = p2.
Proof.
  unfold pip_step. cbv zeta.
  destruct (f64_lt (py_min (snd (p1 st)) (snd p2)) y) eqn:E1;
    [|eexists; split; reflexivity].
  destruct (f64_le y (py_max (snd (p1 st)) (snd p2))) eqn:E2;
    [|eexists; split; reflexivity].
  destruct (f64_le x (py_max (fst (p1 st)) (fst p2)));
    [|eexists; split; reflexivity].
  destruct (f64_eq (snd (p1 st)) (snd p2)) eqn:E4; cbn [negb].
  - exfalso. destruct (py_min_max_equal _ _ E4) as [Hmin Hmax].
    rewrite Hmin in E1. rewrite Hmax in E2.
    rewrite (f64_lt_not_le _ _ E1) in E2. discriminate.
  - destruct (f64_eq (fst (p1 st)) (fst p2)); [eexists; split; reflexivity|].
    destruct (f64_le x _); eexists; split; reflexivity.
Qed.

Lemma pip_loop_returns (x y : float64) (poly : list (float64 * float64))
    (indices : list nat) :
  poly <> [] ->
  forall st, exists st', pip_loop x y poly (length poly) indices st = inr st'.
Proof.
  intros Hne. induction indices as [|i t IH]; intros st; cbn [pip_loop].
  - eauto.
  - assert (Hi : (i mod length poly < length poly)%nat).
    { apply Nat.mod_upper_bound. destruct poly; [congruence | cbn; lia]. }
    destruct (nth_error poly (i mod length poly)) as [p2|] eqn:E.
    + destruct (pip_step_returns x y p2 st) as (st' & -> & _). apply IH.
    + apply nth_error_None in E. lia.
Qed.

(** X18. [point_in_poly] raises only on an empty polygon (an [IndexError]
    from [poly[0]]); on every polygon with at least one vertex it returns a
    boolean, and in particular the conditionally assigned [xints] is never
    read before it has a value.  [points_in_poly] then returns one answer
    per point. *)
Theorem point_in_poly_returns (x y : float64) (poly points : list (float64 * float64)) :
  poly <> [] ->
  (exists b : bool, point_in_poly x y poly = inr b)
  /\ (exists bs : list bool,
        points_in_poly points poly = inr bs
        /\ length bs = length points
        /\ forall i : nat, (i < length points)%nat ->
             point_in_poly (fst (nth i points (f64_zero, f64_zero)))
                           (snd (nth i points (f64_zero, f64_zero))) poly
             = inr (nth i bs false))
  /\ point_in_poly x y [] = inl PolyIndexError.
Proof.
  intros Hne.
  assert (G : forall x' y', exists b, point_in_poly x' y' poly = inr b).
  { intros x' y'. unfold point_in_poly. cbv zeta.
    destruct poly as [|p0 rest] eqn:Ep; [congruence|]. cbn [nth_error].
    rewrite <- Ep in *.
    destruct (pip_loop_returns x' y' poly (seq 0 (length poly + 1)) Hne
                (mkPip false p0 None)) as [st' ->].
    eauto. }
  split; [apply G|]. split; [|reflexivity].
  induction points as [|pt t IH]; cbn [points_in_poly].
  - exists []. repeat split. intros i Hi. cbn in Hi. lia.
  - destruct (G (fst pt) (snd pt)) as [b Hb]. rewrite Hb.
    destruct IH as (bs & -> & Hl & Hn).
    exists (b :: bs). split; [reflexivity|]. split; [cbn; now rewrite Hl|].
    intros [|i] Hi; cbn [nth]; [exact Hb|]. apply Hn. cbn in Hi. lia.
Qed.

Lemma pip_step_outside (x y : float64) (p2 : float64 * float64) (st : pip_state) :
  (f64_le y (snd (p1 st)) = true /\ f64_le y (snd p2) = true)
  \/ (f64_lt (snd (p1 st)) y = true /\ f64_lt (snd p2) y = true)
  \/ (f64_lt (fst (p1 st)) x = true /\ f64_lt (fst p2) x = true) ->
  pip_step x y p2 st = inr (mkPip (inside st) p2 (xints st)).
Proof.
  intros H. unfold pip_step. cbv zeta.
  destruct (f64_lt (py_min (snd (p1 st)) (snd p2)) y) eqn:E1; [|reflexivity].
  destruct (f64_le y (py_max (snd (p1 st)) (snd p2))) eqn:E2; [|reflexivity].
  destruct (f64_le x (py_max (fst (p1 st)) (fst p2))) eqn:E3; [|reflexivity].
  exfalso. destruct H as [[Ha Hb]|[[Ha Hb]|[Ha Hb]]].
  - destruct (py_min_cases (snd (p1 st)) (snd p2)) as [Hm|Hm]; rewrite Hm in E1.
    + rewrite (f64_le_not_lt _ _ Ha) in E1. discriminate.
    + rewrite (f64_le_not_lt _ _ Hb) in E1. discriminate.
  - destruct (py_max_cases (snd (p1 st)) (snd p2)) as [Hm|Hm]; rewrite Hm in E2.
    + rewrite (f64_lt_not_le _ _ Ha) in E2. discriminate.
    + rewrite (f64_lt_not_le _ _ Hb) in E2. discriminate.
  - destruct (py_max_cases (fst (p1 st)) (fst p2)) as [Hm|Hm]; rewrite Hm in E3.
    + rewrite (f64_lt_not_le _ _ Ha) in E3. discriminate.
    + rewrite (f64_lt_not_le _ _ Hb) in E3. discriminate.
Qed.

Lemma pip_loop_outside (x y : float64) (poly : list (float64 * float64)) (n : nat)
    (indices : list nat) (P : float64 * float64 -> Prop) :
  (forall u v, P u -> P v ->
     (f64_le y (snd u) = true /\ f64_le y (snd v) = true)
     \/ (f64_lt (snd u) y = true /\ f64_lt (snd v) y = true)
     \/ (f64_lt (fst u) x = true /\ f64_lt (fst v) x = true)) ->
  Forall P poly ->
  forall st, P (p1 st) -> inside st = false ->
    forall st', pip_loop x y poly n indices st = inr st' -> inside st' = false.
Proof.
  intros HP Hall. induction indices as [|i t IH]; intros st Hp Hin st' Hrun;
    cbn [pip_loop] in Hrun.
  - now injection Hrun as <-.
  - destruct (nth_error poly (i mod n)) as [p2|] eqn:E; [|discriminate].
    assert (Hp2 : P p2).
    { rewrite Forall_forall in Hall. eapply Hall, nth_error_In, E. }
    rewrite (pip_step_outside x y p2 st (HP _ _ Hp Hp2)) in Hrun.
    apply (IH (mkPip (inside st) p2 (xints st))); assumption.
Qed.

(** X19. A point that is level with or below every vertex, or strictly
    above every vertex, or strictly to the right of every vertex, is
    reported outside: [point_in_poly] returns [False]. *)
Theorem point_in_poly_outside (x y : float64) (poly : list (float64 * float64)) :
  poly <> [] ->
  Forall (fun v => f64_le y (snd v) = true) poly
  \/ Forall (fun v => f64_lt (snd v) y = true) poly
  \/ Forall (fun v => f64_lt (fst v) x = true) poly ->
  point_in_poly x y poly = inr false.
Proof.
  intros Hne H. unfold point_in_poly. cbv zeta.
  destruct poly as [|p0 rest] eqn:Ep; [congruence|]. cbn [nth_error].
  rewrite <- Ep in *.
  destruct (pip_loop_returns x y poly (seq 0 (length poly + 1)) Hne
              (mkPip false p0 None)) as [st' Hrun].
  rewrite Hrun. f_equal.
  assert (Hp0 : In p0 poly) by (rewrite Ep; now left).
  destruct H as [H|[H|H]].
  - refine (pip_loop_outside x y poly _ _ (fun v => f64_le y (snd v) = true) _ H
              (mkPip false p0 None) _ eq_refl st' Hrun).
    + intros u v Hu Hv. left. now split.
    + rewrite Forall_forall in H. now apply H.
  - refine (pip_loop_outside x y poly _ _ (fun v => f64_lt (snd v) y = true) _ H
              (mkPip false p0 None) _ eq_refl st' Hrun).
    + intros u v Hu Hv. right. left. now split.
    + rewrite Forall_forall in H. now apply H.
  - refine (pip_loop_outside x y poly _ _ (fun v => f64_lt (fst v) x = true) _ H
              (mkPip false p0 None) _ eq_refl st' Hrun).
    + intros u v Hu Hv. right. right. now split.
    + rewrite Forall_forall in H. now apply H.
Qed.

(** An edge between two vertices of one height never flips [inside]. *)
Lemma pip_step_horizontal (x y : float64) (p2 : float64 * float64) (st : pip_state) :
  snd p2 = snd (p1 st) ->
  pip_step x y p2 st = inr (mkPip (inside st) p2 (xints st)).
Proof.
  intros H. unfold pip_step. cbv zeta. rewrite H, py_min_same, py_max_same.
  destruct (f64_lt (snd (p1 st)) y) eqn:E1; [|reflexivity].
  now rewrite (f64_lt_not_le _ _ E1).
Qed.

(** An edge between two vertices of one abscissa flips [inside] exactly
    when the three guards hold. *)
Lemma pip_step_vertical (x y : float64) (p2 : float64 * float64) (st : pip_state) :
  fst p2 = fst (p1 st) ->
  exists xi : option float64,
    pip_step x y p2 st
    = inr (mkPip (xorb (inside st)
                       (f64_lt (py_min (snd (p1 st)) (snd p2)) y
                        && f64_le y (py_max (snd (p1 st)) (snd p2))
                        && f64_le x (fst (p1 st))))
                 p2 xi).
Proof.
  intros H. unfold pip_step. cbv zeta. rewrite H, py_max_same.
  destruct (f64_lt (py_min (snd (p1 st)) (snd p2)) y); cbn [andb];
    [|rewrite xorb_false_r; eauto].
  destruct (f64_le y (py_max (snd (p1 st)) (snd p2))); cbn [andb];
    [|rewrite xorb_false_r; eauto].
  destruct (f64_le x (fst (p1 st))) eqn:E3; [|rewrite xorb_false_r; eauto].
  rewrite (f64_eq_refl _ (proj2 (f64_le_not_nan _ _ E3))).
  rewrite xorb_true_r. eauto.
Qed.

(** X20. For an axis-parallel rectangle given by its corners in the order
    (x0,y0), (x1,y0), (x1,y1), (x0,y1) with [x0 < x1] and [y0 < y1],
    [point_in_poly] answers [True] exactly for the points with
    [x0 < x <= x1] and [y0 < y <= y1]: the left and bottom sides are
    outside, the right and top sides inside. *)
Theorem point_in_poly_rectangle (x y x0 x1 y0 y1 : float64) :
  f64_lt x0 x1 = true -> f64_lt y0 y1 = true ->
  exists b : bool,
    point_in_poly x y [(x0, y0); (x1, y0); (x1, y1); (x0, y1)] = inr b
    /\ (b = true <-> (f64_lt x0 x = true /\ f64_le x x1 = true
                      /\ f64_lt y0 y = true /\ f64_le y y1 = true)).
Proof.
  intros Hx Hy. unfold point_in_poly. cbv zeta.
  cbn [length nth_error Nat.add seq pip_loop].
  change (0 mod 4)%nat with 0%nat. change (1 mod 4)%nat with 1%nat.
  change (2 mod 4)%nat with 2%nat. change (3 mod 4)%nat with 3%nat.
  change (4 mod 4)%nat with 0%nat. cbn [nth_error].
  rewrite pip_step_horizontal by reflexivity. cbn [inside xints].
  rewrite pip_step_horizontal by reflexivity. cbn [inside xints].
  destruct (pip_step_vertical x y (x1, y1) (mkPip false (x1, y0) None) eq_refl)
    as [xi1 ->]. cbn [inside p1 fst snd].
  rewrite pip_step_horizontal by reflexivity. cbn [inside xints].
  match goal with
  | |- context [pip_step x y (x0, y0) ?st] =>
      destruct (pip_step_vertical x y (x0, y0) st eq_refl) as [xi2 ->]
  end.
  cbn [inside p1 fst snd]. eexists. split; [reflexivity|].
  unfold py_min, py_max. rewrite Hy, (f64_lt_asym _ _ Hy).
  destruct (f64_lt y0 y); cbn [andb xorb];
    [|split; [discriminate | intros (_ & _ & A & _); discriminate]].
  destruct (f64_le y y1); cbn [andb xorb];
    [|split; [discriminate | intros (_ & _ & _ & A); discriminate]].
  destruct (f64_le x x1) eqn:E1, (f64_le x x0) eqn:E0; cbn [xorb].
  - rewrite (f64_le_not_lt _ _ E0).
    split; [discriminate | intros (A & _); discriminate].
  - rewrite (f64_le_total x x0 (proj1 (f64_le_not_nan _ _ E1))
               (proj1 (f64_lt_not_nan _ _ Hx)) E0).
    split; auto.
  - rewrite (f64_le_trans _ _ _ E0 (f64_lt_le _ _ Hx)) in E1. discriminate.
  - split; [discriminate | intros (_ & A & _); discriminate].
Qed.

(** ** [polyval2d] *)

Section Polyval2dFacts.

Variables X Y : Type.
Variable power_x : X -> nat -> X.
Variable power_y : Y -> nat -> Y.
Variable scale : float64 -> X -> float64.
Variable times : float64 -> Y -> float64.

Local Abbreviation step := (polyval2d_step X Y power_x power_y scale times).
Local Abbreviation loop := (polyval2d_loop X Y power_x power_y scale times).
Local Abbreviation polyval := (polyval2d X Y power_x power_y scale times).

Lemma polyval2d_range (n : nat) :
  seq 0 (Z.to_nat (Z.of_nat n - 1 + 1)) = seq 0 n.
Proof. replace (Z.of_nat n - 1 + 1) with (Z.of_nat n) by lia. now rewrite Nat2Z.id. Qed.

Lemma polyval2d_unfold (x : list X) (y : list Y) (m : list float64) :
  polyval x y m
  = loop x y
      (combine m (list_prod (seq 0 (Nat.sqrt (length m))) (seq 0 (Nat.sqrt (length m)))))
      (map (fun _ => f64_zero) x).
Proof. unfold polyval2d. cbv zeta. now rewrite polyval2d_range. Qed.

Lemma np_broadcast_length {A B C : Type} (f : A -> B -> C) (a : list A) (b : list B) :
  length b = length a \/ length b = 1%nat ->
  exists c, np_broadcast f a b = inr c /\ length c = length a.
Proof.
  intros H. unfold np_broadcast.
  destruct (Nat.eqb_spec (length a) (length b)) as [E|E].
  - eexists. split; [reflexivity|]. rewrite length_map, length_combine. lia.
  - destruct H as [H|H]; [congruence|].
    destruct b as [|v [|v' b]]; try discriminate.
    destruct a as [|u [|u' a]]; try (cbn in E; congruence);
      eexists; (split; [reflexivity|]); now rewrite length_map.
Qed.

Lemma np_broadcast_mismatch {A B C : Type} (f : A -> B -> C) (a : list A) (b : list B) :
  length b <> length a -> length b <> 1%nat ->
  match np_broadcast f a b with
  | inr c => length a = 1%nat /\ length c = length b
  | inl e => e = ValueError
  end.
Proof.
  intros H1 H2. unfold np_broadcast.
  destruct (Nat.eqb_spec (length a) (length b)) as [E|E]; [congruence|].
  destruct a as [|u [|u' a]].
  - destruct b as [|v [|v' b]]; try reflexivity. cbn in H2. congruence.
  - split; [reflexivity | apply length_map].
  - destruct b as [|v [|v' b]]; try reflexivity. cbn in H2. congruence.
Qed.

Lemma np_iadd_length (z t : list float64) :
  length t = length z ->
  exists z', np_iadd z t = inr z' /\ length z' = length z.
Proof.
  intros H. unfold np_iadd. rewrite H, Nat.eqb_refl.
  eexists. split; [reflexivity|]. rewrite length_map, length_combine. lia.
Qed.

Lemma np_iadd_mismatch (z t : list float64) :
  length t <> length z -> length t <> 1%nat -> np_iadd z t = inl ValueError.
Proof.
  intros H1 H2. unfold np_iadd.
  destruct (Nat.eqb_spec (length t) (length z)) as [E|E]; [congruence|].
  destruct t as [|v [|v' t]]; try reflexivity. cbn in H2. congruence.
Qed.

Lemma polyval2d_step_length (x : list X) (y : list Y) (z : list float64)
    (t : float64 * (nat * nat)) :
  length y = length x \/ length y = 1%nat -> length z = length x ->
  exists z', step x y z t = inr z' /\ length z' = length x.
Proof.
  intros Hy Hz. unfold polyval2d_step. cbv zeta.
  destruct (np_broadcast_length times
              (map (fun u => scale (fst t) (power_x u (fst (snd t)))) x)
              (map (fun v => power_y v (snd (snd t))) y)) as (c & -> & Hc).
  { rewrite !length_map. exact Hy. }
  cbn [rbind]. rewrite length_map in Hc.
  destruct (np_iadd_length z c) as (z' & -> & Hz'); [congruence|].
  exists z'. split; [reflexivity | congruence].
Qed.

Lemma polyval2d_loop_length (x : list X) (y : list Y)
    (ts : list (float64 * (nat * nat))) :
  length y = length x \/ length y = 1%nat ->
  forall z, length z = length x ->
  exists z', loop x y ts z = inr z' /\ length z' = length x.
Proof.
  intros Hy. induction ts as [|t r IH]; intros z Hz.
  - exists z. split; [reflexivity | exact Hz].
  - destruct (polyval2d_step_length x y z t Hy Hz) as (z1 & H1 & L1).
    cbn [polyval2d_loop]. rewrite H1. cbn [rbind]. apply IH. exact L1.
Qed.

Lemma polyval2d_step_mismatch (x : list X) (y : list Y) (z : list float64)
    (t : float64 * (nat * nat)) :
  length z = length x -> length y <> length x -> length y <> 1%nat ->
  step x y z t = inl ValueError.
Proof.
  intros Hz H1 H2. unfold polyval2d_step. cbv zeta.
  pose proof (np_broadcast_mismatch times
                (map (fun u => scale (fst t) (power_x u (fst (snd t)))) x)
                (map (fun v => power_y v (snd (snd t))) y)) as H.
  rewrite !length_map in H. specialize (H H1 H2).
  destruct (np_broadcast _ _ _) as [e|c]; cbn [rbind].
  - now subst e.
  - destruct H as [Hx Hc]. apply np_iadd_mismatch; congruence.
Qed.

Lemma polyval2d_first_term (a : float64) (m : list float64) :
  exists ts,
    combine (a :: m) (list_prod (seq 0 (Nat.sqrt (length (a :: m))))
                                (seq 0 (Nat.sqrt (length (a :: m)))))
    = (a, (0%nat, 0%nat)) :: ts.
Proof.
  assert (H : (1 <= Nat.sqrt (length (a :: m)))%nat).
  { apply Nat.sqrt_le_square. cbn [length]. lia. }
  destruct (Nat.sqrt (length (a :: m))) as [|k]; [lia|].
  cbn [seq list_prod map app combine]. eexists. reflexivity.
Qed.

(** X21. On one-dimensional arrays, whatever their element types,
    [polyval2d] returns exactly when there is no coefficient, or [y] is as
    long as [x], or [y] has a single entry; the value then has the shape of
    [x].  In every other case, also when [x] has a single entry and [y]
    several, it raises a [ValueError]. *)
Theorem polyval2d_shapes (x : list X) (y : list Y) (m : list float64) :
  ((exists z, polyval x y m = inr z)
   <-> (m = [] \/ length y = length x \/ length y = 1%nat))
  /\ (forall z, polyval x y m = inr z -> length z = length x)
  /\ (forall e, polyval x y m = inl e -> e = ValueError).
Proof.
  rewrite polyval2d_unfold.
  destruct m as [|a m].
  - cbn. split; [|split].
    + split; [intros _; now left | intros _; eexists; reflexivity].
    + intros z H. inversion H. now rewrite length_map.
    + intros e H. discriminate.
  - destruct (polyval2d_first_term a m) as (ts & Hts). rewrite Hts.
    destruct (Nat.eq_dec (length y) (length x)) as [E|E];
      [|destruct (Nat.eq_dec (length y) 1) as [E1|E1]].
    + destruct (polyval2d_loop_length x y ((a, (0%nat, 0%nat)) :: ts) (or_introl E)
                  (map (fun _ => f64_zero) x) (length_map _ _)) as (z' & Hz' & L).
      rewrite Hz'. split; [|split].
      * split; [intros _; right; now left | intros _; now exists z'].
      * intros z H. inversion H. subst. exact L.
      * intros e H. discriminate.
    + destruct (polyval2d_loop_length x y ((a, (0%nat, 0%nat)) :: ts) (or_intror E1)
                  (map (fun _ => f64_zero) x) (length_map _ _)) as (z' & Hz' & L).
      rewrite Hz'. split; [|split].
      * split; [intros _; right; now right | intros _; now exists z'].
      * intros z H. inversion H. subst. exact L.
      * intros e H. discriminate.
    + cbn [polyval2d_loop].
      rewrite (polyval2d_step_mismatch x y _ (a, (0%nat, 0%nat)) (length_map _ _) E E1).
      cbn [rbind]. split; [|split].
      * split; [intros (z & H); discriminate|].
        intros [H|[H|H]]; [discriminate | contradiction | contradiction].
      * intros z H. discriminate.
      * intros e H. now inversion H.
Qed.

Lemma combine_app_short {A B : Type} (l r : list A) (l' : list B) :
  (length l' <= length l)%nat -> combine (l ++ r) l' = combine l l'.
Proof.
  revert l'. induction l as [|a l IH]; intros [|b l'] H; cbn in *; try reflexivity; try lia.
  - now destruct r.
  - f_equal. apply IH. lia.
Qed.

(** X22. [polyval2d] reads only the first [s * s] coefficients, [s] the
    integer square root of their number: coefficients beyond a perfect
    square are dropped without notice, up to [2 * s] of them. *)
Theorem polyval2d_ignores_tail (x : list X) (y : list Y) (m extra : list float64)
    (s : nat) :
  length m = (s * s)%nat -> (length extra <= 2 * s)%nat ->
  polyval x y (m ++ extra) = polyval x y m.
Proof.
  intros Hm He. rewrite !polyval2d_unfold.
  assert (H1 : Nat.sqrt (length m) = s) by (rewrite Hm; apply Nat.sqrt_square).
  assert (H2 : Nat.sqrt (length (m ++ extra)) = s).
  { apply Nat.sqrt_unique. rewrite length_app, Hm. lia. }
  rewrite H1, H2. f_equal.
  apply combine_app_short. rewrite length_prod, length_seq, Hm. lia.
Qed.

End Polyval2dFacts.
End ClassicalDot.

(** ** The theorems at the presets *)

Lemma ncr_exact_binomial_witness :
  0 <= 2 <= 5 /\ ncr 5 2 = inr 10 /\ ncr 5 0 = inr 1.
Proof.
  split; [lia|].
  split.
  - exact (proj1 (ncr_exact_binomial 5 2 ltac:(lia))).
  - exact (proj2 (proj2 (proj2 (proj2 (ncr_exact_binomial 5 2 ltac:(lia)))))).
Defined.

(** At zero gate voltages the double dot has the energy [-47.2] in the
    state [0, 1] and, after rounding, [-41.60000000000002] in the state
    [0, 2]. *)
Lemma calculate_energies_spec_witness :
  basis_built unit unit (self unit unit (world_of unit unit (doubledot unit unit)))
  /\ well_shaped unit unit (self unit unit (world_of unit unit (doubledot unit unit)))
  /\ length (map f64_of_Z [0; 0])
     = ngates unit unit (self unit unit (world_of unit unit (doubledot unit unit)))
  /\ exists es : list float64,
       calculate_energies unit unit (map f64_of_Z [0; 0])
         (world_of unit unit (doubledot unit unit))
       = (inr es, world_of unit unit (doubledot unit unit))
       /\ length es = 16%nat
       /\ nth 1 es f64_zero = S754_finite true 6642809450371482 (-47)
       /\ nth 3 es f64_zero = S754_finite true 5854679515581648 (-47).
Proof.
  split; [apply doubledot_built|].
  split; [apply doubledot_shaped|].
  split; [exact (eq_sym (doubledot_ngates unit unit))|].
  destruct (calculate_energies_spec unit unit (world_of unit unit (doubledot unit unit))
              (map f64_of_Z [0; 0]) (doubledot_built unit unit) (doubledot_shaped unit unit)
              (eq_sym (doubledot_ngates unit unit)))
    as (es & b & ce & ab & Hrun & Hb & _ & Hce & Hab & Hlen & Hform).
  vm_compute in Hb. injection Hb as <-.
  vm_compute in Hce. injection Hce as <-.
  vm_compute in Hab. injection Hab as <-.
  exists es. split; [exact Hrun|].
  split; [rewrite Hlen; reflexivity|].
  split.
  - rewrite (Hform 1%nat) by (cbn; lia). vm_compute. reflexivity.
  - rewrite (Hform 3%nat) by (cbn; lia). vm_compute. reflexivity.
Defined.

(** At zero gate voltages no energy of the double dot is a NaN, and the
    state returned has the least energy. *)
Lemma calculate_ground_state_spec_witness :
  basis_built unit unit (self unit unit (world_of unit unit (doubledot unit unit)))
  /\ well_shaped unit unit (self unit unit (world_of unit unit (doubledot unit unit)))
  /\ length (map f64_of_Z [0; 0])
     = ngates unit unit (self unit unit (world_of unit unit (doubledot unit unit)))
  /\ exists (es : list float64) (k : nat),
       fst (calculate_energies unit unit (map f64_of_Z [0; 0])
              (world_of unit unit (doubledot unit unit))) = inr es
       /\ fst (calculate_ground_state unit unit (map f64_of_Z [0; 0])
                 (world_of unit unit (doubledot unit unit)))
          = inr (nth k (built_basis 2 3) [])
       /\ forall j : nat, (j < 16)%nat ->
            f64_le (nth k es f64_zero) (nth j es f64_zero) = true.
Proof.
  split; [apply doubledot_built|].
  split; [apply doubledot_shaped|].
  split; [exact (eq_sym (doubledot_ngates unit unit))|].
  destruct (calculate_ground_state_spec unit unit (world_of unit unit (doubledot unit unit))
              (map f64_of_Z [0; 0]) (doubledot_built unit unit) (doubledot_shaped unit unit)
              (eq_sym (doubledot_ngates unit unit)))
    as (es & b & k & Hes & Hb & _ & _ & Hgs & Hmin & _).
  vm_compute in Hb. injection Hb as <-.
  exists es, k. split; [exact Hes|]. split; [exact Hgs|].
  apply Hmin.
  vm_compute in Hes. injection Hes as <-.
  intros j Hj. cbn [length] in Hj.
  do 16 (destruct j as [|j]; [reflexivity|]). lia.
Defined.

(** The Coulomb terms of the triple-dot state [1, 2, 3] are
    [1 * 2, 1 * 3, 2 * 3], in the order of the pairs (0,1), (0,2), (1,2). *)
Lemma makebasis_coulomb_terms_witness :
  length (W unit unit (self unit unit (world_of unit unit (tripledot_fresh unit unit))))
  = binom (ndots unit unit (self unit unit (world_of unit unit (tripledot_fresh unit unit)))) 2
  /\ exists (b : list (list Z)) (ce : list (list float64)),
       basis unit unit
         (self unit unit (snd (makebasis unit unit
                                 (world_of unit unit (tripledot_fresh unit unit))))) = Some b
       /\ coulomb_energy unit unit
            (self unit unit (snd (makebasis unit unit
                                    (world_of unit unit (tripledot_fresh unit unit))))) = Some ce
       /\ length b = 64%nat
       /\ nth 45 b [] = [1; 2; 3]
       /\ nth 45 ce [] = [f64_of_Z 2; f64_of_Z 3; f64_of_Z 6].
Proof.
  assert (HW : length (W unit unit (self unit unit
                         (world_of unit unit (tripledot_fresh unit unit))))
               = binom (ndots unit unit (self unit unit
                          (world_of unit unit (tripledot_fresh unit unit)))) 2).
  { vm_compute. reflexivity. }
  split; [exact HW|].
  destruct (makebasis_coulomb_terms unit unit
              (world_of unit unit (tripledot_fresh unit unit)) HW)
    as (b & ce & _ & Hb & Eb & Hlen & Hce & _ & Hrow & _).
  exists b, ce. split; [exact Hb|]. split; [exact Hce|].
  assert (H45 : (45 < length b)%nat) by (rewrite Hlen; vm_compute; lia).
  destruct (Hrow 45%nat H45) as [_ Hr].
  split; [rewrite Hlen; vm_compute; reflexivity|].
  assert (E : nth 45 b [] = [1; 2; 3]) by (rewrite Eb; vm_compute; reflexivity).
  split; [exact E|].
  rewrite Hr, E. vm_compute. reflexivity.
Defined.

(** The addition weights of the triple-dot state [1, 2, 3] are
    [1, 3, 6]. *)
Lemma makebasis_addition_weights_witness :
  length (W unit unit (self unit unit (world_of unit unit (tripledot_fresh unit unit))))
  = binom (ndots unit unit (self unit unit (world_of unit unit (tripledot_fresh unit unit)))) 2
  /\ exists b ab : list (list Z),
       basis unit unit
         (self unit unit (snd (makebasis unit unit
                                 (world_of unit unit (tripledot_fresh unit unit))))) = Some b
       /\ add_basis unit unit
            (self unit unit (snd (makebasis unit unit
                                    (world_of unit unit (tripledot_fresh unit unit))))) = Some ab
       /\ length b = 64%nat
       /\ nth 45 b [] = [1; 2; 3]
       /\ nth 0 (nth 45 ab []) 0 = 1
       /\ nth 1 (nth 45 ab []) 0 = 3
       /\ nth 2 (nth 45 ab []) 0 = 6.
Proof.
  assert (HW : length (W unit unit (self unit unit
                         (world_of unit unit (tripledot_fresh unit unit))))
               = binom (ndots unit unit (self unit unit
                          (world_of unit unit (tripledot_fresh unit unit)))) 2).
  { vm_compute. reflexivity. }
  split; [exact HW|].
  destruct (makebasis_addition_weights unit unit
              (world_of unit unit (tripledot_fresh unit unit)) HW)
    as (b & ab & _ & Hb & Eb & Hlen & Hab & _ & Hw).
  exists b, ab. split; [exact Hb|]. split; [exact Hab|].
  assert (H45 : (45 < length b)%nat) by (rewrite Hlen; vm_compute; lia).
  assert (E : nth 45 b [] = [1; 2; 3]) by (rewrite Eb; vm_compute; reflexivity).
  split; [rewrite Hlen; vm_compute; reflexivity|].
  split; [exact E|].
  split; [|split].
  - destruct (Hw 45%nat 0%nat H45 ltac:(vm_compute; lia)) as (_ & H & _).
    rewrite H, E. reflexivity.
  - destruct (Hw 45%nat 1%nat H45 ltac:(vm_compute; lia)) as (_ & H & _).
    rewrite H, E. reflexivity.
  - destruct (Hw 45%nat 2%nat H45 ltac:(vm_compute; lia)) as (_ & H & _).
    rewrite H, E. reflexivity.
Defined.

(** At zero gate voltages the potentials of the double dot are finite and
    the energy of its empty state is [0.0]. *)
Lemma zero_state_energy_witness :
  basis_built unit unit (self unit unit (world_of unit unit (doubledot unit unit)))
  /\ well_shaped unit unit (self unit unit (world_of unit unit (doubledot unit unit)))
  /\ length (map f64_of_Z [0; 0])
     = ngates unit unit (self unit unit (world_of unit unit (doubledot unit unit)))
  /\ exists es : list float64,
       fst (calculate_energies unit unit (map f64_of_Z [0; 0])
              (world_of unit unit (doubledot unit unit))) = inr es
       /\ nth 0 es f64_zero = f64_zero.
Proof.
  split; [apply doubledot_built|].
  split; [apply doubledot_shaped|].
  split; [exact (eq_sym (doubledot_ngates unit unit))|].
  destruct (zero_state_energy unit unit (world_of unit unit (doubledot unit unit))
              (map f64_of_Z [0; 0]) (doubledot_built unit unit) (doubledot_shaped unit unit)
              (eq_sym (doubledot_ngates unit unit)))
    as (b & es & k & _ & _ & _ & Hes & _ & _ & _ & _ & _ & H0 & _).
  exists es. split; [exact Hes|].
  apply H0; vm_compute; repeat constructor.
Defined.

Lemma simulate_honeycomb_mismatch_witness :
  nparams grid_3x1x1 <> ngates unit unit (self unit unit (world_of unit unit (doubledot unit unit)))
  /\ simulate_honeycomb unit unit no_transitions true grid_3x1x1 true false true
       (world_of unit unit (doubledot unit unit))
     = (inr tt,
        mkWorld unit unit (doubledot unit unit)
          [Printed
             "simulate_honeycomb: number of parameters (3) does not equal number of gates (2)..."%string]
          0%nat).
Proof.
  assert (H : nparams grid_3x1x1
              <> ngates unit unit (self unit unit (world_of unit unit (doubledot unit unit)))).
  { vm_compute. discriminate. }
  split; [exact H|].
  rewrite (simulate_honeycomb_mismatch unit unit no_transitions true
             (world_of unit unit (doubledot unit unit)) grid_3x1x1 true false true H).
  vm_compute. reflexivity.
Defined.

(** C1 as stated fails, in two ways.  At zero gate voltages the energy of
    the state [0, 2] of the double dot is [-41.60000000000002], which is not
    the exact value of the three dot products: the sums are rounded.  At the
    finite voltages [7 * 2^1021] on both gates the potentials overflow and
    the energy of the empty state is a NaN. *)
Lemma calculate_energies_rounds_and_overflows :
  (exists es : list float64,
     fst (calculate_energies unit unit (map f64_of_Z [0; 0])
            (world_of unit unit (doubledot unit unit))) = inr es
     /\ option_map (fun b => nth 3 b []) (basis unit unit (doubledot unit unit))
        = Some [0; 2]
     /\ nth 3 es f64_zero = S754_finite true 5854679515581648 (-47)
     /\ ~ Qeq (f64_to_Q (nth 3 es f64_zero))
               (exact_energy unit unit (doubledot unit unit) (map f64_of_Z [0; 0])
                  [0; 2] [f64_of_Z 0] [0; 3])
     /\ option_map (fun c => nth 3 c []) (coulomb_energy unit unit (doubledot unit unit))
        = Some [f64_of_Z 0]
     /\ option_map (fun a => nth 3 a []) (add_basis unit unit (doubledot unit unit))
        = Some [0; 3])
  /\ (exists es : list float64,
        fst (calculate_energies unit unit overflow_voltages
               (world_of unit unit (doubledot unit unit))) = inr es
        /\ nth 0 es f64_zero = S754_nan
        /\ Forall (fun v => is_finite v = true) overflow_voltages).
Proof.
  split.
  - eexists. split; [vm_compute; reflexivity|].
    split; [vm_compute; reflexivity|].
    split; [vm_compute; reflexivity|].
    split; [vm_compute; intros H; discriminate H|].
    split; vm_compute; reflexivity.
  - eexists. split; [vm_compute; reflexivity|].
    split; [vm_compute; reflexivity|].
    vm_compute. repeat constructor.
Qed.

(** C3 as stated fails.  At the finite voltages [7 * 2^1021] on both gates
    of the double dot the potentials overflow: the energy of the empty state
    is a NaN and that of the state [1, 1] is minus infinity, yet the empty
    state is returned: it does not minimise the energies. *)
Lemma ground_state_not_minimal_on_overflow :
  exists es : list float64,
    fst (calculate_energies unit unit overflow_voltages
           (world_of unit unit (doubledot unit unit))) = inr es
    /\ fst (calculate_ground_state unit unit overflow_voltages
              (world_of unit unit (doubledot unit unit))) = inr [0; 0]
    /\ option_map (fun b => (nth 0 b [], nth 4 b []))
                  (basis unit unit (doubledot unit unit))
       = Some ([0; 0], [1; 1])
    /\ nth 0 es f64_zero = S754_nan
    /\ nth 4 es f64_zero = S754_infinity true
    /\ f64_le (nth 0 es f64_zero) (nth 4 es f64_zero) = false
    /\ Forall (fun v => is_finite v = true) overflow_voltages.
Proof.
  eexists. split; [vm_compute; reflexivity|].
  split; [vm_compute; reflexivity|].
  split; [vm_compute; reflexivity|].
  split; [vm_compute; reflexivity|].
  split; [vm_compute; reflexivity|].
  split; [vm_compute; reflexivity|].
  vm_compute. repeat constructor.
Qed.

(** C10 as stated fails.  At the finite voltages [7 * 2^1021] on both gates
    of the double dot the energy of the empty state is a NaN, not 0, and
    neither is the energy of the state returned at most 0. *)
Lemma zero_state_energy_nan_on_overflow :
  exists es : list float64,
    fst (calculate_energies unit unit overflow_voltages
           (world_of unit unit (doubledot unit unit))) = inr es
    /\ option_map (fun b => nth 0 b []) (basis unit unit (doubledot unit unit))
       = Some [0; 0]
    /\ fst (calculate_ground_state unit unit overflow_voltages
              (world_of unit unit (doubledot unit unit))) = inr [0; 0]
    /\ nth 0 es f64_zero = S754_nan
    /\ f64_eq (nth 0 es f64_zero) f64_zero = false
    /\ f64_le (nth 0 es f64_zero) f64_zero = false
    /\ Forall (fun v => is_finite v = true) overflow_voltages.
Proof.
  eexists. split; [vm_compute; reflexivity|].
  split; [vm_compute; reflexivity|].
  split; [vm_compute; reflexivity|].
  split; [vm_compute; reflexivity|].
  split; [vm_compute; reflexivity|].
  split; [vm_compute; reflexivity|].
  vm_compute. repeat constructor.
Qed.

(** C5. On the double dot and a grid of four cells, the sequential sweep
    leaves in [hcgs] an array of floats and the worker-pool sweep an array
    of integers: the same numbers in the same order, but not the same
    array. *)
Theorem sweep_strategies_differ_in_dtype :
  hcgs unit unit (self unit unit (snd (simulate_honeycomb unit unit no_transitions true
     grid_2x2x2 false false false (world_of unit unit (doubledot unit unit)))))
  = Some (FloatArray [2%nat; 2%nat; 2%nat] (map f64_of_Z [2; 1; 2; 3; 3; 3; 3; 2]))
  /\ hcgs unit unit (self unit unit (snd (simulate_honeycomb unit unit no_transitions true
       grid_2x2x2 false false true (world_of unit unit (doubledot unit unit)))))
     = Some (IntArray [2%nat; 2%nat; 2%nat] [2; 1; 2; 3; 3; 3; 3; 2])
  /\ hcgs unit unit (self unit unit (snd (simulate_honeycomb unit unit no_transitions true
       grid_2x2x2 false false false (world_of unit unit (doubledot unit unit)))))
     <> hcgs unit unit (self unit unit (snd (simulate_honeycomb unit unit no_transitions true
          grid_2x2x2 false false true (world_of unit unit (doubledot unit unit))))).
Proof.
  split; [vm_compute; reflexivity|].
  split; [vm_compute; reflexivity|].
  vm_compute. discriminate.
Qed.

(** ** The further properties at concrete instances *)

Lemma ncr_raises_outside_range_witness :
  (2 < 0 \/ 1 < 2) /\ ncr 1 2 = inl TypeError.
Proof.
  split; [right; lia|].
  apply ncr_raises_outside_range. right. lia.
Defined.

Lemma init_needs_two_dots_witness :
  (1 < 2)%nat /\ ClassicalDotSystem_init unit unit "dot" 1 1 3 = inl TypeError.
Proof.
  split; [lia|]. apply init_needs_two_dots. lia.
Defined.

Lemma init_shapes_witness :
  (2 <= 2)%nat
  /\ exists m : ClassicalDotSystem unit unit,
       ClassicalDotSystem_init unit unit "doubledot" 2 2 3 = inr m
       /\ well_shaped unit unit m.
Proof.
  split; [lia|].
  destruct (init_shapes unit unit "doubledot" 2 2 3 ltac:(lia))
    as (m & H & _ & _ & _ & Hs & _).
  exists m. split; [exact H | exact Hs].
Defined.

Lemma makebasis_idempotent_witness :
  length (W unit unit (self unit unit (world_of unit unit (doubledot_fresh unit unit))))
  = binom (ndots unit unit (self unit unit (world_of unit unit (doubledot_fresh unit unit)))) 2
  /\ makebasis unit unit (snd (makebasis unit unit (world_of unit unit (doubledot_fresh unit unit))))
     = (inr tt, snd (makebasis unit unit (world_of unit unit (doubledot_fresh unit unit)))).
Proof.
  split; [vm_compute; reflexivity|].
  apply makebasis_idempotent. vm_compute. reflexivity.
Defined.

Lemma makebasis_wrong_W_witness :
  length (W unit unit (self unit unit (world_of unit unit (tripledot_short_W unit unit))))
  <> binom (ndots unit unit (self unit unit (world_of unit unit (tripledot_short_W unit unit)))) 2
  /\ ndots unit unit (self unit unit (world_of unit unit (tripledot_short_W unit unit))) <> 2%nat
  /\ fst (makebasis unit unit (world_of unit unit (tripledot_short_W unit unit)))
     = inl ValueError.
Proof.
  assert (H1 : length (W unit unit (self unit unit
                         (world_of unit unit (tripledot_short_W unit unit))))
               <> binom (ndots unit unit (self unit unit
                            (world_of unit unit (tripledot_short_W unit unit)))) 2).
  { vm_compute. discriminate. }
  assert (H2 : ndots unit unit (self unit unit
                  (world_of unit unit (tripledot_short_W unit unit))) <> 2%nat).
  { vm_compute. discriminate. }
  split; [exact H1|]. split; [exact H2|].
  exact (proj1 (makebasis_wrong_W unit unit
                  (world_of unit unit (tripledot_short_W unit unit)) H1 H2)).
Defined.

Lemma energy_before_makebasis_witness :
  Nt unit unit (self unit unit (world_of unit unit (doubledot_fresh unit unit))) = None
  /\ calculate_energies unit unit (map f64_of_Z [0; 0]) (world_of unit unit (doubledot_fresh unit unit))
     = (inl TypeError, world_of unit unit (doubledot_fresh unit unit)).
Proof.
  split; [reflexivity|].
  exact (proj1 (energy_before_makebasis unit unit
                  (world_of unit unit (doubledot_fresh unit unit)) (map f64_of_Z [0; 0]) eq_refl)).
Defined.

Lemma energy_wrong_length_witness :
  basis_built unit unit (self unit unit (world_of unit unit (doubledot unit unit)))
  /\ well_shaped unit unit (self unit unit (world_of unit unit (doubledot unit unit)))
  /\ (0 < ndots unit unit (self unit unit (world_of unit unit (doubledot unit unit))))%nat
  /\ length [f64_zero] <> ngates unit unit (self unit unit (world_of unit unit (doubledot unit unit)))
  /\ calculate_energies unit unit [f64_zero] (world_of unit unit (doubledot unit unit))
     = (inl ValueError, world_of unit unit (doubledot unit unit)).
Proof.
  assert (H3 : (0 < ndots unit unit (self unit unit
                       (world_of unit unit (doubledot unit unit))))%nat).
  { vm_compute. lia. }
  assert (H4 : length [f64_zero]
               <> ngates unit unit (self unit unit (world_of unit unit (doubledot unit unit)))).
  { vm_compute. discriminate. }
  split; [apply doubledot_built|].
  split; [apply doubledot_shaped|].
  split; [exact H3|]. split; [exact H4|].
  exact (proj1 (energy_wrong_length unit unit
                  (world_of unit unit (doubledot unit unit)) [f64_zero]
                  (doubledot_built unit unit) (doubledot_shaped unit unit) H3 H4)).
Defined.


Lemma sweep_evaluates_each_cell_once_witness :
  basis_built unit unit (self unit unit (world_of unit unit (doubledot unit unit)))
  /\ well_shaped unit unit (self unit unit (world_of unit unit (doubledot unit unit)))
  /\ nparams grid_2x1x2
     = ngates unit unit (self unit unit (world_of unit unit (doubledot unit unit)))
  /\ gs_evals unit unit
       (snd (simulate_honeycomb unit unit no_transitions true grid_2x1x2 true false true
               (world_of unit unit (doubledot unit unit))))
     = (gs_evals unit unit (world_of unit unit (doubledot unit unit))
        + npointsx grid_2x1x2 * npointsy grid_2x1x2)%nat.
Proof.
  split; [apply doubledot_built|].
  split; [apply doubledot_shaped|].
  split; [exact (eq_sym (doubledot_ngates unit unit))|].
  exact (sweep_evaluates_each_cell_once unit unit no_transitions true
           (world_of unit unit (doubledot unit unit)) grid_2x1x2 true false true
           (doubledot_built unit unit) (doubledot_shaped unit unit)
           (eq_sym (doubledot_ngates unit unit))).
Defined.

Lemma sweep_outcome_witness :
  basis_built unit unit (self unit unit (world_of unit unit (doubledot unit unit)))
  /\ well_shaped unit unit (self unit unit (world_of unit unit (doubledot unit unit)))
  /\ nparams grid_2x1x2
     = ngates unit unit (self unit unit (world_of unit unit (doubledot unit unit)))
  /\ exists h : array,
       hcgs unit unit (self unit unit
         (snd (simulate_honeycomb unit unit no_transitions true grid_2x1x2 true false false
                 (world_of unit unit (doubledot unit unit))))) = Some h
       /\ array_shape h
          = [npointsx grid_2x1x2; npointsy grid_2x1x2;
             ndots unit unit (self unit unit (world_of unit unit (doubledot unit unit)))].
Proof.
  split; [apply doubledot_built|].
  split; [apply doubledot_shaped|].
  split; [exact (eq_sym (doubledot_ngates unit unit))|].
  destruct (sweep_outcome unit unit no_transitions true
              (world_of unit unit (doubledot unit unit)) grid_2x1x2 true false false
              (doubledot_built unit unit) (doubledot_shaped unit unit)
              (eq_sym (doubledot_ngates unit unit))) as (h & Hh & Hs & _).
  exists h. split; [exact Hh | exact Hs].
Defined.

Lemma sweep_console_witness :
  basis_built unit unit (self unit unit (world_of unit unit (doubledot unit unit)))
  /\ well_shaped unit unit (self unit unit (world_of unit unit (doubledot unit unit)))
  /\ nparams grid_2x1x2
     = ngates unit unit (self unit unit (world_of unit unit (doubledot unit unit)))
  /\ stdout unit unit
       (snd (simulate_honeycomb unit unit no_transitions true grid_2x1x2 true false false
               (world_of unit unit (doubledot unit unit))))
     = [Tprinted "simulatehoneycomb: 0/1"%string; PrintedElapsed].
Proof.
  split; [apply doubledot_built|].
  split; [apply doubledot_shaped|].
  split; [exact (eq_sym (doubledot_ngates unit unit))|].
  rewrite (sweep_console unit unit no_transitions true
             (world_of unit unit (doubledot unit unit)) grid_2x1x2 true false false
             (doubledot_built unit unit) (doubledot_shaped unit unit)
             (eq_sym (doubledot_ngates unit unit))).
  vm_compute. reflexivity.
Defined.

Lemma sweep_entries_valid_witness :
  basis_built unit unit (self unit unit (world_of unit unit (doubledot unit unit)))
  /\ well_shaped unit unit (self unit unit (world_of unit unit (doubledot unit unit)))
  /\ nparams grid_2x1x2
     = ngates unit unit (self unit unit (world_of unit unit (doubledot unit unit)))
  /\ exists (h : array) (zs : list Z),
       hcgs unit unit (self unit unit
         (snd (simulate_honeycomb unit unit no_transitions true grid_2x1x2 true false true
                 (world_of unit unit (doubledot unit unit))))) = Some h
       /\ array_values h = map f64_of_Z zs
       /\ Forall (fun z => 0 <= z <= Z.of_nat
                    (maxelectrons unit unit
                       (self unit unit (world_of unit unit (doubledot unit unit))))) zs.
Proof.
  split; [apply doubledot_built|].
  split; [apply doubledot_shaped|].
  split; [exact (eq_sym (doubledot_ngates unit unit))|].
  destruct (sweep_entries_valid unit unit no_transitions true
              (world_of unit unit (doubledot unit unit)) grid_2x1x2 true false true
              (doubledot_built unit unit) (doubledot_shaped unit unit)
              (eq_sym (doubledot_ngates unit unit))) as (h & zs & Hh & Hv & _ & Hz).
  exists h, zs. split; [exact Hh|]. split; [exact Hv | exact Hz].
Defined.

Lemma point_in_poly_returns_witness :
  triangle <> []
  /\ exists b : bool, point_in_poly (f64_of_Z 1) (f64_of_Z 1) triangle = inr b.
Proof.
  assert (H : triangle <> []) by discriminate.
  split; [exact H|].
  exact (proj1 (point_in_poly_returns (f64_of_Z 1) (f64_of_Z 1) triangle [] H)).
Defined.

Lemma point_in_poly_outside_witness :
  triangle <> []
  /\ (Forall (fun v => f64_le (f64_of_Z 5) (snd v) = true) triangle
      \/ Forall (fun v => f64_lt (snd v) (f64_of_Z 5) = true) triangle
      \/ Forall (fun v => f64_lt (fst v) (f64_of_Z 1) = true) triangle)
  /\ point_in_poly (f64_of_Z 1) (f64_of_Z 5) triangle = inr false.
Proof.
  assert (H : triangle <> []) by discriminate.
  assert (H' : Forall (fun v => f64_le (f64_of_Z 5) (snd v) = true) triangle
               \/ Forall (fun v => f64_lt (snd v) (f64_of_Z 5) = true) triangle
               \/ Forall (fun v => f64_lt (fst v) (f64_of_Z 1) = true) triangle).
  { right. left. repeat constructor. }
  split; [exact H|]. split; [exact H'|].
  exact (point_in_poly_outside (f64_of_Z 1) (f64_of_Z 5) triangle H H').
Defined.

(** The point (2, 3) lies on the right and top sides of the rectangle with
    corners (0, 0) and (2, 3), and is inside; the corner (0, 0) is not. *)
Lemma point_in_poly_rectangle_witness :
  f64_lt (f64_of_Z 0) (f64_of_Z 2) = true /\ f64_lt (f64_of_Z 0) (f64_of_Z 3) = true
  /\ point_in_poly (f64_of_Z 2) (f64_of_Z 3)
       [(f64_of_Z 0, f64_of_Z 0); (f64_of_Z 2, f64_of_Z 0);
        (f64_of_Z 2, f64_of_Z 3); (f64_of_Z 0, f64_of_Z 3)] = inr true.
Proof.
  assert (H1 : f64_lt (f64_of_Z 0) (f64_of_Z 2) = true) by reflexivity.
  assert (H2 : f64_lt (f64_of_Z 0) (f64_of_Z 3) = true) by reflexivity.
  split; [exact H1|]. split; [exact H2|].
  destruct (point_in_poly_rectangle (f64_of_Z 2) (f64_of_Z 3) (f64_of_Z 0) (f64_of_Z 2)
              (f64_of_Z 0) (f64_of_Z 3) H1 H2) as (b & Hb & Hiff).
  rewrite Hb. f_equal. apply Hiff. repeat split.
Defined.

Lemma polyval2d_ignores_tail_witness :
  length [f64_of_Z 5] = (1 * 1)%nat
  /\ (length [f64_of_Z 7; f64_of_Z 9] <= 2 * 1)%nat
  /\ polyval2d_int64 [2] [3] ([f64_of_Z 5] ++ [f64_of_Z 7; f64_of_Z 9])
     = polyval2d_int64 [2] [3] [f64_of_Z 5].
Proof.
  split; [reflexivity|]. split; [cbn; lia|].
  apply (polyval2d_ignores_tail Z Z int64_power int64_power f64_times_int f64_times_int
           [2] [3] [f64_of_Z 5] [f64_of_Z 7; f64_of_Z 9] 1); [reflexivity | cbn; lia].
Defined.

(** On [int64] arrays the powers wrap around: with the only coefficient on
    [x ** 2], the value at [x = 2^32] is [0.0]. *)
Example polyval2d_int64_wraps :
  polyval2d_int64 [2 ^ 32] [1]
    (map f64_of_Z [0; 0; 0; 0; 0; 0; 1; 0; 0]) = inr [f64_zero].
Proof. vm_compute. reflexivity. Qed.

Lemma sweep_strategies_agree_witness :
  basis_built unit unit (self unit unit (world_of unit unit (doubledot unit unit)))
  /\ well_shaped unit unit (self unit unit (world_of unit unit (doubledot unit unit)))
  /\ nparams grid_2x2x2 = ngates unit unit (self unit unit (world_of unit unit (doubledot unit unit)))
  /\ true = true
  /\ option_map array_values
       (hcgs unit unit (self unit unit (snd (simulate_honeycomb unit unit no_transitions true
          grid_2x2x2 false false false (world_of unit unit (doubledot unit unit))))))
     = option_map array_values
       (hcgs unit unit (self unit unit (snd (simulate_honeycomb unit unit no_transitions true
          grid_2x2x2 false false true (world_of unit unit (doubledot unit unit))))))
  /\ option_map array_values
       (hcgs unit unit (self unit unit (snd (simulate_honeycomb unit unit no_transitions true
          grid_2x2x2 false false true (world_of unit unit (doubledot unit unit))))))
     = Some (map f64_of_Z [2; 1; 2; 3; 3; 3; 3; 2]).
Proof.
  split; [apply doubledot_built|].
  split; [apply doubledot_shaped|].
  split; [exact (eq_sym (doubledot_ngates unit unit))|].
  split; [reflexivity|].
  destruct (sweep_strategies_agree unit unit no_transitions true
              (world_of unit unit (doubledot unit unit)) grid_2x2x2 false false
              (doubledot_built unit unit) (doubledot_shaped unit unit)
              (eq_sym (doubledot_ngates unit unit)) eq_refl)
    as (cells & _ & _ & _ & _ & _ & Hv & _).
  split; [exact Hv|].
  vm_compute. reflexivity.
Defined.
